(** * C similarity engine: a shallow embedding of the feature extractor
      and of the similarity kernel, with the properties proved about them.

    The Python sources embedded here are the variants of the engine under
    [script_codigos_c]:
      - [c_similarity_fine_final.py], the definitions outside a module;
      - [c_similarity_fine.py], module [Fine], where it differs;
      - [c_similarity_final.py], module [Final], where it differs.

    Conventions of the embedding.
      - A Python [str] is a [string]; a character is a code point below
        256, so the Unicode character classes of [re] and [str] are the
        ones Python uses on that range.
      - A Python [list] is a [list], a [set] of strings a [gset string],
        a [dict] or [Counter] keyed by strings a [gmap string _].
      - A Python [int] is a [nat] or a [Z]; a [float] computed from
        integers by sums, products and quotients is the exact rational it
        rounds ([Q]); a square root is kept as a symbol. *)

From Stdlib Require Import Ascii String List ZArith QArith Lia Lqa Bool.
From stdpp Require Import base list gmap sets strings pretty.

Local Open Scope nat_scope.

(** ** Characters *)

Module Char.

Definition code (c : ascii) : nat := nat_of_ascii c.

Definition in_range (lo hi : nat) (c : ascii) : bool :=
  (lo <=? code c) && (code c <=? hi).

Definition has_code (n : nat) (c : ascii) : bool := code c =? n.

(** [[A-Z]], [[a-z]], [[0-9]] and the classes built from them in the
    regular expressions of the source. *)
Definition is_upper (c : ascii) : bool := in_range 65 90 c.
Definition is_lower (c : ascii) : bool := in_range 97 122 c.
Definition is_digit (c : ascii) : bool := in_range 48 57 c.

(** [[A-Za-z_]] *)
Definition is_ident_start (c : ascii) : bool :=
  is_upper c || is_lower c || has_code 95 c.

(** [[A-Za-z_0-9]] *)
Definition is_ident_char (c : ascii) : bool :=
  is_ident_start c || is_digit c.

(** [[0-9A-Fa-f]] *)
Definition is_hex (c : ascii) : bool :=
  is_digit c || in_range 65 70 c || in_range 97 102 c.

(** [\s] and [str.isspace]: tab to carriage return, the four separators
    0x1c to 0x1f, the space, NEL (0x85) and the no-break space (0xa0). *)
Definition is_space (c : ascii) : bool :=
  in_range 9 13 c || in_range 28 32 c || has_code 133 c || has_code 160 c.

(** [\w] on a [str] pattern: the alphanumeric code points and [_]. Below
    256 these are the ASCII ones, the ordinal indicators and the micro
    sign, the superscript digits and the vulgar fractions, and the
    Latin-1 letters. *)
Definition is_word (c : ascii) : bool :=
  is_ident_char c
  || has_code 170 c || has_code 178 c || has_code 179 c
  || has_code 181 c || has_code 185 c || has_code 186 c
  || in_range 188 190 c
  || in_range 192 214 c || in_range 216 246 c || in_range 248 255 c.

(** [str.lower] on one character. *)
Definition lower (c : ascii) : ascii :=
  if is_upper c || in_range 192 214 c || in_range 216 222 c
  then ascii_of_nat (code c + 32) else c.

End Char.

(** ** Strings *)

Module Str.

Fixpoint map (f : ascii -> ascii) (s : string) : string :=
  match s with
  | EmptyString => EmptyString
  | String c s' => String (f c) (map f s')
  end.

Fixpoint filter (p : ascii -> bool) (s : string) : string :=
  match s with
  | EmptyString => EmptyString
  | String c s' => if p c then String c (filter p s') else filter p s'
  end.

Fixpoint forallb (p : ascii -> bool) (s : string) : bool :=
  match s with
  | EmptyString => true
  | String c s' => p c && forallb p s'
  end.

(** The longest prefix of [s] whose characters satisfy [p], and the rest. *)
Fixpoint span (p : ascii -> bool) (s : string) : string * string :=
  match s with
  | EmptyString => (EmptyString, EmptyString)
  | String c s' =>
      if p c then let '(a, b) := span p s' in (String c a, b)
      else (EmptyString, s)
  end.

Fixpoint drop_while (p : ascii -> bool) (s : string) : string :=
  match s with
  | EmptyString => EmptyString
  | String c s' => if p c then drop_while p s' else s
  end.

(** [s.lower()] *)
Definition lower (s : string) : string := map Char.lower s.

(** [s.strip()] *)
Definition strip (s : string) : string :=
  String.rev (drop_while Char.is_space (String.rev (drop_while Char.is_space s))).

(** [pat in s] *)
Fixpoint contains (pat s : string) : bool :=
  String.prefix pat s ||
  match s with
  | EmptyString => false
  | String _ s' => contains pat s'
  end.

(** [s.split(sep)] for a one-character separator: [cur] is the part being
    read, reversed. *)
Fixpoint split_go (sep : ascii) (cur : string) (s : string) : list string :=
  match s with
  | EmptyString => [String.rev cur]
  | String c s' =>
      if Ascii.eqb c sep then String.rev cur :: split_go sep EmptyString s'
      else split_go sep (String c cur) s'
  end.
Definition split (sep : ascii) (s : string) : list string :=
  split_go sep EmptyString s.

(** [sep.join(l)] *)
Fixpoint join (sep : string) (l : list string) : string :=
  match l with
  | [] => ""
  | [x] => x
  | x :: l' => x +:+ sep +:+ join sep l'
  end.

(** [s[n:]] *)
Fixpoint drop (n : nat) (s : string) : string :=
  match n, s with
  | S n', String _ s' => drop n' s'
  | _, _ => s
  end.

(** [s[:n]] *)
Fixpoint take (n : nat) (s : string) : string :=
  match n, s with
  | S n', String c s' => String c (take n' s')
  | _, _ => EmptyString
  end.

(** [s[i:j]] for [0 <= i], [0 <= j] *)
Definition substr (i j : nat) (s : string) : string := take (j - i) (drop i s).

(** [s[i]], when [i] is in range *)
Definition get (i : nat) (s : string) : option ascii :=
  match drop i s with
  | String c _ => Some c
  | EmptyString => None
  end.

(** [str(n)] for a non-negative integer. *)
Definition of_nat (n : nat) : string := pretty n.

End Str.

(** ** Lexer: [TOKEN_RE] and [tokenize] *)

(** [re.fullmatch(r"[A-Za-z_][A-Za-z_0-9]*", t)] *)
Definition is_identifier (t : string) : bool :=
  match t with
  | EmptyString => false
  | String c t' => Char.is_ident_start c && Str.forallb Char.is_ident_char t'
  end.

Definition C_KEYWORDS : gset string :=
  list_to_set
    ["auto"; "break"; "case"; "char"; "const"; "continue"; "default"; "do";
     "double"; "else"; "enum"; "extern"; "float"; "for"; "goto"; "if";
     "inline"; "int"; "long"; "register"; "restrict"; "return"; "short";
     "signed"; "sizeof"; "static"; "struct"; "switch"; "typedef"; "union";
     "unsigned"; "void"; "volatile"; "while"; "_Bool"; "_Complex";
     "_Imaginary"].

(** The test [re.fullmatch(...) and t not in C_KEYWORDS] shared by
    [normalize_identifiers], [extract_identifiers] and
    [extract_function_calls]. *)
Definition is_user_ident (t : string) : bool :=
  is_identifier t && negb (bool_decide (t ∈ C_KEYWORDS)).

Module Lexer.

(** Each alternative of [TOKEN_RE] tried at the head of [s]: the matched
    text and what follows it. *)

(** [[A-Za-z_][A-Za-z_0-9]*] *)
Definition ident (s : string) : option (string * string) :=
  match s with
  | String c s' =>
      if Char.is_ident_start c
      then let '(a, b) := Str.span Char.is_ident_char s' in Some (String c a, b)
      else None
  | EmptyString => None
  end.

(** [0x[0-9A-Fa-f]+] *)
Definition hex (s : string) : option (string * string) :=
  match s with
  | String "0" (String "x" s') =>
      match Str.span Char.is_hex s' with
      | (EmptyString, _) => None
      | (a, b) => Some ("0x" +:+ a, b)
      end
  | _ => None
  end.

(** [\d+\.\d*|\.\d+|\d+]. The digits of [\d+] are taken greedily; giving
    some back never helps the first alternative, since what follows a
    shorter run is a digit and not a dot. *)
Definition number (s : string) : option (string * string) :=
  match Str.span Char.is_digit s with
  | (EmptyString, _) =>
      match s with
      | String "." s' =>
          match Str.span Char.is_digit s' with
          | (EmptyString, _) => None
          | (a, b) => Some (String "." a, b)
          end
      | _ => None
      end
  | (a, String "." s') =>
      let '(f, b) := Str.span Char.is_digit s' in Some (a +:+ "." +:+ f, b)
  | (a, b) => Some (a, b)
  end.

(** [==|!=|<=|>=|->|\+\+|--|&&|\|\||<<|>>|::] *)
Definition operators : list string :=
  ["=="; "!="; "<="; ">="; "->"; "++"; "--"; "&&"; "||"; "<<"; ">>"; "::"].

Definition operator (s : string) : option (string * string) :=
  match s with
  | String c1 (String c2 s') =>
      let op := String c1 (String c2 EmptyString) in
      if bool_decide (op ∈ operators) then Some (op, s') else None
  | _ => None
  end.

(** [[{}()\[\];,.:?~!%^&*+\-/|<>=]] *)
Definition punctuation : string := "{}()[];,.:?~!%^&*+-/|<>=".

Definition punct (s : string) : option (string * string) :=
  match s with
  | String c s' =>
      if Str.contains (String c EmptyString) punctuation
      then Some (String c EmptyString, s') else None
  | EmptyString => None
  end.

Definition first_of {A} (l : list (option A)) : option A :=
  List.fold_right (fun o acc => match o with Some x => Some x | None => acc end)
                  None l.

(** [TOKEN_RE.match] at the head of [s]: the alternatives in the order of
    the pattern. *)
Definition token_at (s : string) : option (string * string) :=
  first_of [ident s; hex s; number s; operator s; punct s].

(** [TOKEN_RE.finditer]: where no alternative matches, the scan moves one
    character on. One unit of [fuel] is spent per step; a step consumes
    at least one character, so the length of the text is enough. *)
Fixpoint finditer (fuel : nat) (s : string) : list string :=
  match fuel with
  | O => []
  | S fuel' =>
      match s with
      | EmptyString => []
      | String _ s' =>
          match token_at s with
          | Some (t, rest) => t :: finditer fuel' rest
          | None => finditer fuel' s'
          end
      end
  end.

End Lexer.

Definition tokenize (code : string) : list string :=
  Lexer.finditer (String.length code) code.

(** ** Control stream *)

Definition map_ctrl : gmap string string :=
  list_to_map
    [("if", "IF"); ("else", "ELSE"); ("for", "FOR"); ("while", "WHILE");
     ("do", "DO"); ("switch", "SWITCH"); ("case", "CASE");
     ("default", "DEFAULT"); ("return", "RETURN"); ("break", "BREAK");
     ("continue", "CONTINUE")].

(** What one token appends to [stream], if anything. *)
Definition emit (t : string) : option string :=
  let tt := Str.lower t in
  match map_ctrl !! tt with
  | Some tag => Some tag
  | None =>
      if bool_decide (t ∈ ({["{"; "}"]} : gset string)) then Some ("BRACE" +:+ t)
      else if bool_decide (t = ";") then Some "SEMI"
      else None
  end.

(** The first loop of [control_stream]. *)
Definition raw_stream (tokens : list string) : list string :=
  fold_left (fun stream t =>
               match emit t with
               | Some s => stream ++ [s]
               | None => stream
               end) tokens [].

(** The body of the second loop: [if not comp or comp[-1]!=s: comp.append(s)]. *)
Definition compress_step (comp : list string) (s : string) : list string :=
  match last comp with
  | None => comp ++ [s]
  | Some s' => if bool_decide (s' ≠ s) then comp ++ [s] else comp
  end.

Definition compress (stream : list string) : list string :=
  fold_left compress_step stream [].

Definition control_stream (tokens : list string) : list string :=
  compress (raw_stream tokens).


(** ** Identifier normalisation, shingles and the token bag *)

(** The state of the loop of [normalize_identifiers]: [id_map], [out] and
    [nxt]. A token already in [id_map] keeps its alias; a new one gets
    [f"ID{nxt}"]. *)
Definition norm_step (st : gmap string string * list string * nat) (t : string)
  : gmap string string * list string * nat :=
  let '(id_map, out, nxt) := st in
  if is_user_ident t then
    match id_map !! t with
    | None =>
        let alias := "ID" +:+ Str.of_nat nxt in
        (<[t := alias]> id_map, out ++ [alias], S nxt)
    | Some alias => (id_map, out ++ [alias], nxt)
    end
  else (id_map, out ++ [t], nxt).

Definition normalize_identifiers (tokens : list string) : list string :=
  (fold_left norm_step tokens (∅, [], 1)).1.2.

(** Python's [l[i:j]] for integers of either sign: a negative bound counts
    from the end, and both are clamped to the list. *)
Definition slice_bound (len : nat) (i : Z) : nat :=
  if (i <? 0)%Z then Z.to_nat (Z.max 0 (Z.of_nat len + i))
  else Nat.min len (Z.to_nat i).

Definition slice {A} (l : list A) (i j : Z) : list A :=
  let lo := slice_bound (length l) i in
  let hi := slice_bound (length l) j in
  take (hi - lo) (drop lo l).

Definition DEFAULT_K : Z := 5.

Definition shingles (tokens : list string) (k : Z) : gset string :=
  if (Z.of_nat (length tokens) <? k)%Z then ∅
  else list_to_set
         ((fun i => Str.join " " (slice tokens i (i + k)))
            <$> seqZ 0 (Z.of_nat (length tokens) - k + 1)).

(** [Counter(tokens)] *)
Definition Counter (tokens : list string) : gmap string Z :=
  fold_left (fun c t => <[t := (default 0 (c !! t) + 1)%Z]> c) tokens ∅.

(** [{t for t in tokens if ...}] *)
Definition extract_identifiers (tokens : list string) : gset string :=
  list_to_set (List.filter is_user_ident tokens).

(** The loop of [extract_function_calls] over [range(len(tokens)-1)]. *)
Definition extract_function_calls (tokens : list string) : gset string :=
  fold_left (fun calls i =>
               match tokens !! i, tokens !! (i + 1) with
               | Some t, Some t' =>
                   if is_user_ident t && bool_decide (t' = "(")
                   then {[t]} ∪ calls else calls
               | _, _ => calls
               end)
            (seq 0 (length tokens - 1)) ∅.

(** ** Similarity kernel *)

Definition jaccard (a b : gset string) : Q :=
  if bool_decide (a = ∅) && bool_decide (b = ∅) then 1
  else
    let u := size (a ∪ b) in
    if bool_decide (u ≠ 0)
    then inject_Z (Z.of_nat (size (a ∩ b))) / inject_Z (Z.of_nat u)
    else 0.

Section Levenshtein.
Context {A : Type} `{EqDecision A}.

(** The body of the inner loop, at row [i] and column [j]: the state is
    [prev] and the row [dp]. *)
Definition lev_cell (a b : list A) (i : nat) (st : nat * list nat) (j : nat)
  : nat * list nat :=
  let '(prev, dp) := st in
  let ins := dp !!! (j - 1) + 1 in
  let dele := dp !!! j + 1 in
  let sub := prev + (if bool_decide (a !! (i - 1) = b !! (j - 1)) then 0 else 1) in
  (dp !!! j, <[j := Nat.min ins (Nat.min dele sub)]> dp).

(** The body of the outer loop: [prev, dp[0] = dp[0], i], then the columns
    [1..m]. *)
Definition lev_row (a b : list A) (dp : list nat) (i : nat) : list nat :=
  let prev := dp !!! 0 in
  let dp := <[0 := i]> dp in
  (fold_left (lev_cell a b i) (seq 1 (length b)) (prev, dp)).2.

Definition levenshtein (a b : list A) : nat :=
  let n := length a in
  let m := length b in
  if n =? 0 then m
  else if m =? 0 then n
  else
    let dp := seq 0 (m + 1) in
    fold_left (lev_row a b) (seq 1 n) dp !!! m.

Definition sim_edit (a b : list A) : Q :=
  match a, b with
  | [], [] => 1
  | _, _ =>
      let d := levenshtein a b in
      1 - inject_Z (Z.of_nat d)
          / inject_Z (Z.of_nat (Nat.max (length a) (Nat.max (length b) 1)))
  end.

(** The classical edit distance, by its recurrence: the least number of
    insertions, deletions and substitutions of one element. *)
Definition subst_cost (x y : A) : nat := if bool_decide (x = y) then 0 else 1.

Fixpoint edit_distance (a : list A) : list A -> nat :=
  match a with
  | [] => fun b => length b
  | x :: a' =>
      fix against (b : list A) : nat :=
        match b with
        | [] => S (length a')
        | y :: b' =>
            Nat.min (against b' + 1)
                    (Nat.min (edit_distance a' b + 1)
                             (edit_distance a' b' + subst_cost x y))
        end
  end.

(** The table that [levenshtein] fills row by row. The entry of row [i]
    and column [j] is the distance between the first [i] elements of [a]
    and the first [j] elements of [b]. *)
Definition entry (a b : list A) (i j : nat) : nat :=
  edit_distance (take i a) (take j b).

(** In row [S r], after column [j]: [prev] is the entry above-left of the
    next cell, the cells up to [j] belong to this row and the following
    ones to the row above. *)
Definition cell_inv (a b : list A) (r j : nat) (st : nat * list nat) : Prop :=
  length st.2 = S (length b)
  ∧ st.1 = entry a b r j
  ∧ (∀ j', j' ≤ j → st.2 !! j' = Some (entry a b (S r) j'))
  ∧ (∀ j', j < j' ≤ length b → st.2 !! j' = Some (entry a b r j')).

Definition row_inv (a b : list A) (r : nat) (dp : list nat) : Prop :=
  length dp = S (length b)
  ∧ ∀ j, j ≤ length b → dp !! j = Some (entry a b r j).

(** A way to turn [a] into [b] by insertions, deletions and
    substitutions of one element, read from the left, and what it costs;
    keeping an element is a substitution by itself, at no cost. *)
Inductive edit_script : list A -> list A -> nat -> Prop :=
  | script_nil : edit_script [] [] 0
  | script_insert y a b n :
      edit_script a b n -> edit_script a (y :: b) (S n)
  | script_delete x a b n :
      edit_script a b n -> edit_script (x :: a) b (S n)
  | script_subst x y a b n :
      edit_script a b n -> edit_script (x :: a) (y :: b) (n + subst_cost x y).

(** The similarity in the words of the specification. *)
Definition sim_edit_spec (a b : list A) : Q :=
  match a, b with
  | [], [] => 1
  | _, _ =>
      1 - inject_Z (Z.of_nat (edit_distance a b))
          / inject_Z (Z.of_nat (Nat.max (length a) (length b)))
  end.

End Levenshtein.

(** [cosine] divides an integer by a product of two square roots. Its
    value is kept in that shape: a literal, or the dot product over the
    square roots of the two sums of squares. *)
Inductive cos_value :=
  | CosLit (q : Q)
  | CosRatio (dot : Z) (norm2_a norm2_b : Z).

(** [sum(ca[k]*cb[k] for k in keys)]; a missing key of a [Counter] reads 0. *)
Definition count (c : gmap string Z) (k : string) : Z := default 0%Z (c !! k).

Definition dot_product (ca cb : gmap string Z) : Z :=
  let keys : gset string := dom ca ∪ dom cb in
  set_fold (fun k acc => (acc + count ca k * count cb k)%Z) 0%Z keys.

(** [sum(v*v for v in c.values())] *)
Definition sum_squares (c : gmap string Z) : Z :=
  map_fold (fun _ v acc => (acc + v * v)%Z) 0%Z c.

(** [math.sqrt(x)] is falsy exactly when [x] is 0. *)
Definition cosine (ca cb : gmap string Z) : cos_value :=
  let dot := dot_product ca cb in
  let na2 := sum_squares ca in
  let nb2 := sum_squares cb in
  if bool_decide (na2 ≠ 0%Z) && bool_decide (nb2 ≠ 0%Z)
  then CosRatio dot na2 nb2 else CosLit 0.

Module Final.

(** [cosine] of [c_similarity_final.py] (and [cosine_counter] of
    [c_similarity.py]): the same body after a guard on two empty bags. *)
Definition cosine (ca cb : gmap string Z) : cos_value :=
  if bool_decide (ca = ∅) && bool_decide (cb = ∅) then CosLit 1
  else
    let dot := dot_product ca cb in
    let na2 := sum_squares ca in
    let nb2 := sum_squares cb in
    if bool_decide (na2 ≠ 0%Z) && bool_decide (nb2 ≠ 0%Z)
    then CosRatio dot na2 nb2 else CosLit 0.

End Final.

(** ** Baseline *)

(** The values [baseline_stats] returns: [None], a float, the square root
    [pstdev] takes, or a tuple of two values. *)
Inductive pyval :=
  | PyNone
  | PyFloat (q : Q)
  | PySqrt (q : Q)
  | PyTuple (a b : pyval).

Definition Qsum (l : list Q) : Q := List.fold_right Qplus 0%Q l.

(** [statistics.fmean] *)
Definition fmean (values : list Q) : Q :=
  Qsum values / inject_Z (Z.of_nat (length values)).

(** [statistics.pvariance]: the mean of the squared deviations. *)
Definition pvariance (values : list Q) : Q :=
  let mu := fmean values in
  Qsum ((fun x => (x - mu) * (x - mu))%Q <$> values)
  / inject_Z (Z.of_nat (length values)).

(** [return mean, sd if sd>0 else (mean, 0.0)]: the conditional expression
    binds tighter than the comma, so it is the second component of the
    pair. [sd] is positive exactly when the variance is. *)
Definition baseline_stats (values : list Q) : pyval :=
  if length values <? 2 then PyTuple PyNone PyNone
  else
    let mean := fmean values in
    let var := pvariance values in
    PyTuple (PyFloat mean)
            (if Qlt_le_dec 0 var then PySqrt var
             else PyTuple (PyFloat mean) (PyFloat 0)).

Definition is_number (v : pyval) : bool :=
  match v with
  | PyFloat _ | PySqrt _ => true
  | _ => false
  end.

(** ** Loop signatures *)

Module Re.

(** [re.sub(r"\s+", "", s)] *)
Definition remove_space (s : string) : string :=
  Str.filter (fun c => negb (Char.is_space c)) s.

(** [re.sub(r"[A-Za-z_]\w*", "ID", s)]: [inside] tells that the characters
    read last belong to a match, which a word character extends. *)
Fixpoint sub_ident (inside : bool) (s : string) : string :=
  match s with
  | EmptyString => EmptyString
  | String c s' =>
      if inside && Char.is_word c then sub_ident true s'
      else if Char.is_ident_start c then "ID" +:+ sub_ident true s'
      else String c (sub_ident false s')
  end.

(** [re.sub(r"\d+(\.\d+)?", "NUM", s)]: outside a match, in its integer
    part, or in its fraction. A dot extends the integer part only when a
    digit follows it. *)
Inductive num_state := NumOut | NumInt | NumFrac.

Definition starts_with_digit (s : string) : bool :=
  match s with
  | String c _ => Char.is_digit c
  | EmptyString => false
  end.

Fixpoint sub_num (st : num_state) (s : string) : string :=
  match s with
  | EmptyString => EmptyString
  | String c s' =>
      if Char.is_digit c then
        match st with
        | NumOut => "NUM" +:+ sub_num NumInt s'
        | _ => sub_num st s'
        end
      else
        match st with
        | NumInt =>
            if Ascii.eqb c "." && starts_with_digit s' then sub_num NumFrac s'
            else String c (sub_num NumOut s')
        | _ => String c (sub_num NumOut s')
        end
  end.

(** [re.match(r".*=", s)]: an [=] with no newline before it. *)
Fixpoint match_dotstar_eq (s : string) : bool :=
  match s with
  | EmptyString => false
  | String c s' =>
      Ascii.eqb c "=" || (negb (Char.has_code 10 c) && match_dotstar_eq s')
  end.

(** [\b] between two neighbours, either of which may be missing. *)
Definition is_word_opt (c : option ascii) : bool :=
  match c with
  | Some c => Char.is_word c
  | None => false
  end.

Definition boundary (before after : option ascii) : bool :=
  xorb (is_word_opt before) (is_word_opt after).

Definition char_before (s : string) (p : nat) : option ascii :=
  match p with
  | O => None
  | S p' => Str.get p' s
  end.

(** [\bw\b] matches at position [p] of [s]. *)
Definition word_at (w s : string) (p : nat) : bool :=
  boundary (char_before s p) (Str.get p s)
  && String.prefix w (Str.drop p s)
  && boundary (char_before s (p + String.length w))
              (Str.get (p + String.length w) s).

(** [re.compile(r"\bw\b").search(s, pos)]: the start of the leftmost
    match at or after [pos]. *)
Definition search_word (w s : string) (pos : nat) : option nat :=
  List.find (word_at w s) (seq pos (S (String.length s) - pos)).

End Re.

(** [depth] after reading [ch], and whether the closing parenthesis is
    found there. *)
Fixpoint find_paren_go (rest : string) (i : nat) (depth : Z) : option nat :=
  match rest with
  | EmptyString => None
  | String ch rest' =>
      if Ascii.eqb ch "(" then find_paren_go rest' (S i) (depth + 1)
      else if Ascii.eqb ch ")" then
        if (depth - 1 =? 0)%Z then Some i
        else find_paren_go rest' (S i) (depth - 1)
      else find_paren_go rest' (S i) depth
  end.

(** [None] stands for the result [-1]. *)
Definition find_matching_paren (s : string) (start_idx : nat) : option nat :=
  find_paren_go (Str.drop start_idx s) start_idx 0.

Definition norm_init (s : string) : string :=
  let s := Re.remove_space s in
  if bool_decide (s = "") then "NONE"
  else if Re.match_dotstar_eq s then "ASSIGN_OR_DECL"
  else "OTHER".

Definition norm_cond (s : string) : string :=
  let s := Re.remove_space s in
  let s := Re.sub_ident false s in
  let s := Re.sub_num Re.NumOut s in
  if Str.contains "ID<NUM" s || Str.contains "ID<=NUM" s then "ID<NUM"
  else if Str.contains "ID>NUM" s || Str.contains "ID>=NUM" s then "ID>NUM"
  else if Str.contains "ID==ID" s || Str.contains "ID==NUM" s then "EQ"
  else "COND".

Definition norm_incr (s : string) : string :=
  let s := Re.remove_space s in
  if bool_decide (s = "") then "NONE"
  else if Str.contains "++" s || Str.contains "--" s then "INCDEC"
  else if Str.contains "+=" s || Str.contains "-=" s
          || Str.contains "=ID+NUM" s || Str.contains "=ID-NUM" s then "ARITH"
  else "OTHER".

Definition normalize_for_header (header : string) : string :=
  let parts := Str.strip <$> Str.split ";" header in
  let init := default "" (parts !! 0) in
  let cond := default "" (parts !! 1) in
  let incr := default "" (parts !! 2) in
  "FOR[" +:+ norm_init init +:+ ";" +:+ norm_cond cond +:+ ";"
         +:+ norm_incr incr +:+ "]".

Definition normalize_while_cond (cond : string) : string :=
  let s := Re.remove_space cond in
  let s := Re.sub_ident false s in
  let s := Re.sub_num Re.NumOut s in
  if Str.contains "ID<NUM" s || Str.contains "ID>NUM" s then "CMP_NUM"
  else if Str.contains "ID" s && negb (Str.contains "NUM" s) then "COND_ID"
  else "COND".

Inductive loop_kind := FOR | WHILE.

Definition keyword_of (kind : loop_kind) : string :=
  match kind with
  | FOR => "for"
  | WHILE => "while"
  end.

(** The choice between the two matches: [(m.start(), m.end(), kind)]. *)
Definition next_keyword (code_clean : string) (i : nat)
  : option (nat * nat * loop_kind) :=
  let mf := Re.search_word "for" code_clean i in
  let mw := Re.search_word "while" code_clean i in
  match mf, mw with
  | Some f, None => Some (f, f + 3, FOR)
  | Some f, Some w =>
      if f <? w then Some (f, f + 3, FOR) else Some (w, w + 5, WHILE)
  | None, Some w => Some (w, w + 5, WHILE)
  | None, None => None
  end.

(** [while j<n and code_clean[j].isspace(): j+=1], with [rest] the text
    from [j] on. *)
Fixpoint skip_space_go (rest : string) (j : nat) : nat :=
  match rest with
  | String c rest' => if Char.is_space c then skip_space_go rest' (S j) else j
  | EmptyString => j
  end.

Definition skip_space (code_clean : string) (j : nat) : nat :=
  skip_space_go (Str.drop j code_clean) j.

Definition signature_of (kind : loop_kind) (inside : string) : string :=
  match kind with
  | FOR => normalize_for_header inside
  | WHILE => "WHILE[" +:+ normalize_while_cond inside +:+ "]"
  end.

(** One iteration of the scan, entered with [i < n]: it leaves the loop
    ([break]) or goes on with a new position and set. *)
Inductive scan_result :=
  | Stop
  | Next (i : nat) (sigs : gset string).

Definition scan_step (code_clean : string) (i : nat) (sigs : gset string)
  : scan_result :=
  let n := String.length code_clean in
  match next_keyword code_clean i with
  | None => Stop
  | Some (_, m_end, kind) =>
      let i := m_end in
      let j := skip_space code_clean i in
      if (n <=? j) || negb (bool_decide (Str.get j code_clean = Some "("%char))
      then Next i sigs
      else
        match find_matching_paren code_clean j with
        | None => Next i sigs
        | Some k =>
            let inside := Str.substr (j + 1) k code_clean in
            Next (k + 1) ({[signature_of kind inside]} ∪ sigs)
        end
  end.

(** The loop [while i<n], one unit of [fuel] for each iteration; [None]
    when the fuel runs out before the loop ends. *)
Fixpoint scan_loop (fuel : nat) (code_clean : string) (i : nat)
  (sigs : gset string) : option (gset string) :=
  if String.length code_clean <=? i then Some sigs
  else
    match fuel with
    | O => None
    | S fuel' =>
        match scan_step code_clean i sigs with
        | Stop => Some sigs
        | Next i' sigs' => scan_loop fuel' code_clean i' sigs'
        end
    end.

Definition extract_loop_signatures (code_clean : string)
  : option (gset string) :=
  scan_loop (String.length code_clean) code_clean 0 ∅.

(** ** File names *)

(** [os.path.basename]: what follows the last [/]. *)
Definition basename (path : string) : string :=
  default "" (last (Str.split "/" path)).

(** [int(digits)] *)
Fixpoint int_go (acc : nat) (digits : string) : nat :=
  match digits with
  | EmptyString => acc
  | String c digits' => int_go (10 * acc + (Char.code c - 48)) digits'
  end.
Definition int (digits : string) : nat := int_go 0 digits.

(** [[A-Za-z0-9_-]] *)
Definition is_tag_char (c : ascii) : bool :=
  Char.is_ident_char c || Char.has_code 45 c.

(** [^[qQ](\d+)SEP([A-Za-z0-9_-]+)\.c$] matched against the base name,
    for a class [SEP] of separators. Neither repetition can give
    characters back: the one after the digits is no digit, and the dot is
    no tag character. [$] also matches before a final newline. *)
Definition match_qname (is_sep : ascii -> bool) (base : string)
  : option (nat * string) :=
  match base with
  | String q s =>
      if Ascii.eqb q "q" || Ascii.eqb q "Q" then
        match Str.span Char.is_digit s with
        | (EmptyString, _) => None
        | (digits, String sep s') =>
            if is_sep sep then
              match Str.span is_tag_char s' with
              | (EmptyString, _) => None
              | (tag, rest) =>
                  if bool_decide (rest = ".c")
                     || bool_decide
                          (rest = String "." (String "c" (String "010" "")))
                  then Some (int digits, tag) else None
              end
            else None
        | (_, EmptyString) => None
        end
      else None
  | EmptyString => None
  end.

(** [QNAME_RE] has the separators [[ _-]]. *)
Definition parse_qsigla (path : string) : option (nat * string) :=
  match_qname (fun c => Ascii.eqb c " " || Ascii.eqb c "_" || Ascii.eqb c "-")
              (basename path).

(** ** Pairwise engine *)

(** The features of a file that was read: the entries of the dictionary
    that [compare_pair] looks up. *)
Record Bundle := {
  f_shingles : gset string;
  f_control : list string;
  f_idents : gset string;
  f_loopsigs : gset string;
  f_calls : gset string
}.

(** The three dictionaries [_extract_one] returns: [{"error": msg}],
    [{"too_short": True}], or the features with ["too_short": False]. *)
Inductive Features :=
  | FeatError (msg : string)
  | FeatTooShort
  | FeatOk (b : Bundle).

Record Weights := {
  w_jaccard : Q; w_control : Q; w_idents : Q; w_loops : Q; w_calls : Q
}.

Record Breakdown := {
  br_jaccard : Q; br_control : Q; br_idents : Q; br_loops : Q; br_calls : Q
}.

Definition DEFAULT_WEIGHTS : Weights :=
  {| w_jaccard := 40 # 100; w_control := 20 # 100; w_idents := 15 # 100;
     w_loops := 15 # 100; w_calls := 10 # 100 |}.

Definition score_of (a b : Bundle) (weights : Weights) : Q * Breakdown :=
  let j := jaccard (f_shingles a) (f_shingles b) in
  let ctrl := sim_edit (f_control a) (f_control b) in
  let idj := jaccard (f_idents a) (f_idents b) in
  let loops := jaccard (f_loopsigs a) (f_loopsigs b) in
  let calls := jaccard (f_calls a) (f_calls b) in
  let score := (w_jaccard weights * j + w_control weights * ctrl
                + w_idents weights * idj + w_loops weights * loops
                + w_calls weights * calls)%Q in
  (score,
   {| br_jaccard := j; br_control := ctrl; br_idents := idj;
      br_loops := loops; br_calls := calls |}).

(** [compare_pair]: a dictionary without the feature entries raises
    [KeyError], here [None]. *)
Definition compare_pair (fa fb : Features) (weights : Weights)
  : option (Q * Breakdown) :=
  match fa, fb with
  | FeatOk a, FeatOk b => Some (score_of a b weights)
  | _, _ => None
  end.

(** [fa.get("error") or fa.get("too_short")] as a truth value: an empty
    message is falsy. *)
Definition unusable (f : Features) : bool :=
  match f with
  | FeatError msg => negb (bool_decide (msg = ""))
  | FeatTooShort => true
  | FeatOk _ => false
  end.

(** [itertools.combinations(l, 2)] *)
Fixpoint combinations2 {A} (l : list A) : list (A * A) :=
  match l with
  | [] => []
  | x :: l' => ((fun y => (x, y)) <$> l') ++ combinations2 l'
  end.

Definition PairScore : Type := string * string * Q * Breakdown.

(** The body of the loop over the pairs of a question in [main]; a
    missing path in [feats] raises [KeyError]. *)
Definition pair_step (feats : gmap string Features) (weights : Weights)
  (acc : option (list PairScore)) (ab : string * string)
  : option (list PairScore) :=
  pairs ← acc;
  fa ← feats !! ab.1;
  fb ← feats !! ab.2;
  if unusable fa || unusable fb then Some pairs
  else
    r ← compare_pair fa fb weights;
    Some (pairs ++ [(ab.1, ab.2, r.1, r.2)]).

Definition question_pairs (feats : gmap string Features) (weights : Weights)
  (plist : list string) : option (list PairScore) :=
  fold_left (pair_step feats weights) (combinations2 plist) (Some []).

Module Fine.

(** [QNAME_RE] of [c_similarity_fine.py] has the one separator [_]. *)
Definition parse_qsigla (path : string) : option (nat * string) :=
  match_qname (fun c => Ascii.eqb c "_") (basename path).

Definition compare_pair (fa fb : string) (feats : gmap string Bundle)
  : option (Q * Breakdown) :=
  a ← feats !! fa;
  b ← feats !! fb;
  Some (score_of a b DEFAULT_WEIGHTS).

(** The body of the loop of [pairwise_fine] for one question: a pair of
    files with the same tag is passed over. *)
Definition pair_step (meta : gmap string (nat * string))
  (feats : gmap string Bundle) (acc : option (list PairScore))
  (ab : string * string) : option (list PairScore) :=
  pairs ← acc;
  ma ← meta !! ab.1;
  mb ← meta !! ab.2;
  if bool_decide (ma.2 = mb.2) then Some pairs
  else
    r ← compare_pair ab.1 ab.2 feats;
    Some (pairs ++ [(ab.1, ab.2, r.1, r.2)]).

Definition question_pairs (meta : gmap string (nat * string))
  (feats : gmap string Bundle) (plist : list string)
  : option (list PairScore) :=
  fold_left (pair_step meta feats) (combinations2 plist) (Some []).

End Fine.

(** ** A question with two files of one author *)

(** The features of a file whose masked text is [clean], as
    [_extract_one] assembles them with the default [k]. *)
Definition bundle_of (clean : string) : Bundle :=
  let tok_raw := tokenize clean in
  let tok_norm := normalize_identifiers tok_raw in
  {| f_shingles := shingles tok_norm DEFAULT_K;
     f_control := control_stream tok_raw;
     f_idents := extract_identifiers tok_raw;
     f_loopsigs := default ∅ (extract_loop_signatures clean);
     f_calls := extract_function_calls tok_raw |}.

Definition sample_source : string :=
  "int main(){int x=0;for(x=0;x<10;x++){f(x);}return x;}".

(** Two files of question 1 with the tag [ab], in the directory the
    engine is run on. *)
Definition sample_paths : list string := ["./q01_ab.c"; "./q1_ab.c"].

Definition sample_feats : gmap string Features :=
  {[ "./q01_ab.c" := FeatOk (bundle_of sample_source);
     "./q1_ab.c" := FeatOk (bundle_of sample_source) ]}.

(** [meta] and [feats] of [c_similarity_fine.py] for the same two files,
    named as its [QNAME_RE] also accepts them. *)
Definition sample_meta : gmap string (nat * string) :=
  {[ "./q01_ab.c" := (1, "ab"); "./q1_ab.c" := (1, "ab") ]}.

Definition sample_bundles : gmap string Bundle :=
  {[ "./q01_ab.c" := bundle_of sample_source;
     "./q1_ab.c" := bundle_of sample_source ]}.

(** ** Predicates of the specification *)

(** No two neighbours of [l] are equal. *)
Definition no_adjacent_equal (l : list string) : Prop :=
  ∀ i x y, l !! i = Some x → l !! S i = Some y → x ≠ y.

(** A string of the form [FOR[...]] or [WHILE[...]]. *)
Definition is_loop_signature (s : string) : Prop :=
  ∃ body, s = "FOR[" +:+ body +:+ "]" ∨ s = "WHILE[" +:+ body +:+ "]".

(** [rename ρ tokens]: the tokens of a source in which every identifier
    that is no keyword was renamed by [ρ]. *)
Definition rename (ρ : string → string) (tokens : list string) : list string :=
  (fun t => if is_user_ident t then ρ t else t) <$> tokens.

(** * Further parts of the engine *)

(** ** Status and best match *)

(** [x >= y] and [x > y] on floats. *)
Definition Qgeb (x y : Q) : bool := Qle_bool y x.
Definition Qgtb (x y : Q) : bool := negb (Qle_bool x y).

Definition components (br : Breakdown) : list Q :=
  [br_jaccard br; br_control br; br_idents br; br_loops br; br_calls br].

(** [status_from_policy]; the factor [0.85] is taken as 85/100. *)
Definition status_from_policy (score : Q) (br : Breakdown) (th : Q)
  (policy : string) : string :=
  if bool_decide (policy = "weighted") then
    if Qgeb score th then "SUSPEITO"
    else if Qgeb score (th * (85 # 100)) then "REVISAR" else "OK"
  else
    let flags := (fun c => Qgeb c th) <$> components br in
    let sus :=
      if bool_decide (policy = "any") then existsb id flags
      else List.forallb id flags in
    if sus then "SUSPEITO" else "OK".

(** An entry of [best]: the peer, the score and the breakdown. *)
Abbreviation Best := (option string * Q * option Breakdown)%type.

(** [{p:(None,-1.0,None) for p in plist}] *)
Definition best_init (plist : list string) : gmap string Best :=
  list_to_map ((fun p => (p, (None, (-1)%Q, None))) <$> plist).

(** [if s>best[p][1]: best[p]=(q,s,br)]; a path that is no key of [best]
    raises [KeyError]. *)
Definition best_update (best : gmap string Best) (p q : string) (s : Q)
  (br : Breakdown) : option (gmap string Best) :=
  cur ← best !! p;
  Some (if Qgtb s cur.1.2 then <[p := (Some q, s, Some br)]> best else best).

Definition best_step (acc : option (gmap string Best)) (pair : PairScore)
  : option (gmap string Best) :=
  let '(a, b, s, br) := pair in
  best ← acc;
  best ← best_update best a b s br;
  best_update best b a s br.

(** The loop over [pairs] in [main], and [best_match_per_file] of
    [c_similarity_fine.py]. *)
Definition best_match (plist : list string) (pairs : list PairScore)
  : option (gmap string Best) :=
  fold_left best_step pairs (Some (best_init plist)).

Definition zero_breakdown : Breakdown :=
  {| br_jaccard := 0; br_control := 0; br_idents := 0; br_loops := 0;
     br_calls := 0 |}.

(** A row of the report; [r_best_with] is [None] where the report shows
    a dash, and [r_nome] is the name the roster gives, if any. *)
Record Row := {
  r_question : nat;
  r_sigla : string;
  r_nome : option string;
  r_file : string;
  r_best_with : option string;
  r_score : Q;
  r_br : Breakdown;
  r_status : string
}.

(** The body of the loop that builds [rows]; [roster] maps a lower-case
    tag to its name. [os.path.basename(mate) if mate else ...]: the peer
    [None] and the empty path both give the dash. *)
Definition row_of (roster : gmap string string) (th : Q) (policy : string)
  (qnum : nat) (best : gmap string Best) (p : string) : option Row :=
  parsed ← parse_qsigla p;
  entry ← best !! p;
  let sig := parsed.2 in
  let '(mate, score, br) := entry in
  let '(br, score) :=
    match br with
    | None => (zero_breakdown, 0%Q)
    | Some br => (br, score)
    end in
  Some {| r_question := qnum; r_sigla := sig;
          r_nome := roster !! Str.lower sig;
          r_file := basename p;
          r_best_with :=
            mate ≫= (fun m => if bool_decide (m = "") then None
                              else Some (basename m));
          r_score := score; r_br := br;
          r_status := status_from_policy score br th policy |}.

(** What [main] computes for one question: the pairs, the baseline of
    their scores, and the rows. *)
Definition question_report (feats : gmap string Features) (weights : Weights)
  (roster : gmap string string) (th : Q) (policy : string) (qnum : nat)
  (plist : list string) : option (list PairScore * pyval * list Row) :=
  pairs ← question_pairs feats weights plist;
  let scores := (fun x : PairScore => x.1.2) <$> pairs in
  let baseline := baseline_stats scores in
  best ← best_match plist pairs;
  rows ← mapM (row_of roster th policy qnum best) plist;
  Some (pairs, baseline, rows).

Module FinalReport.

Definition or_zero (x : option Q) : Q := default 0%Q x.

(** One of the tests [x is not None and x >= th]. *)
Definition meets (x : option Q) (th : Q) : bool :=
  match x with
  | Some v => Qgeb v th
  | None => false
  end.

(** One of the tests [x is None or x >= th]. *)
Definition passes (x : option Q) (th : Q) : bool :=
  match x with
  | Some v => Qgeb v th
  | None => true
  end.

(** [status_from_scores] of [c_similarity_final.py]; [flags] holds one
    [True] for each test that succeeds. *)
Definition status_from_scores (j ctl idv loops calls : option Q)
  (th_j th_ctl th_id th_loops th_calls : Q) (policy : string)
  (weighted_score : option Q) (weighted_th : Q) : string :=
  let tests := [(j, th_j); (ctl, th_ctl); (idv, th_id); (loops, th_loops);
                (calls, th_calls)] in
  let flags :=
    (fun _ => true) <$> List.filter (fun t => meets t.1 t.2) tests in
  let sus :=
    if bool_decide (policy = "any") then existsb id flags
    else if bool_decide (policy = "all")
         then List.forallb (fun t => passes t.1 t.2) tests
         else Qgeb (or_zero weighted_score) weighted_th in
  if sus then "SUSPEITO"
  else if Qgeb (or_zero j) (th_j * (85 # 100)) then "REVISAR" else "OK".

(** [idx[p]["j"] if idx[p]["j"]>=0 else None] *)
Definition shown (x : Q) : option Q := if Qgeb x 0 then Some x else None.

(** The status [main] of [c_similarity_final.py] gives a file whose
    best Jaccard is [best_j] ([-1] without a pair). *)
Definition row_status (best_j : Q) (th_j : Q) (policy : string) : string :=
  let j := shown best_j in
  status_from_scores j None None None None th_j 1 1 1 1 policy j th_j.

(** The z-score of a row: absent, or [(j - mean)/sd] with [sd] the square
    root of a variance. *)
Inductive zscore_value :=
  | ZNone
  | ZRatio (num : Q) (variance : Q).

(** [sd not in (None, 0.0)] *)
Definition is_none_or_zero (v : pyval) : bool :=
  match v with
  | PyNone => true
  | PyFloat q => Qeq_bool q 0
  | _ => false
  end.

(** [mean, sd = baseline_stats(jvals)]: the first component is [None] or
    a float. *)
Definition unpack_baseline (v : pyval) : option (option Q * pyval) :=
  match v with
  | PyTuple PyNone sd => Some (None, sd)
  | PyTuple (PyFloat m) sd => Some (Some m, sd)
  | _ => None
  end.

(** [((j - mean)/sd) if (j is not None and mean is not None and sd not in
    (None,0.0)) else None]. A division by a tuple raises [TypeError],
    here [None]. *)
Definition zscore (j mean : option Q) (sd : pyval) : option zscore_value :=
  match j, mean with
  | Some j, Some m =>
      if is_none_or_zero sd then Some ZNone
      else
        match sd with
        | PySqrt v => Some (ZRatio (j - m) v)
        | PyFloat s => Some (ZRatio ((j - m) / s) 1)
        | _ => None
        end
  | _, _ => Some ZNone
  end.

End FinalReport.

(** ** Predicates of the further properties *)

Definition weight_sum (w : Weights) : Q :=
  (w_jaccard w + w_control w + w_idents w + w_loops w + w_calls w)%Q.

Definition nonneg_weights (w : Weights) : Prop :=
  (0 <= w_jaccard w ∧ 0 <= w_control w ∧ 0 <= w_idents w ∧ 0 <= w_loops w
   ∧ 0 <= w_calls w)%Q.

(** The weighted sum of the components of a breakdown. *)
Definition composite (w : Weights) (br : Breakdown) : Q :=
  (w_jaccard w * br_jaccard br + w_control w * br_control br
   + w_idents w * br_idents br + w_loops w * br_loops br
   + w_calls w * br_calls br)%Q.

Definition in_unit (q : Q) : Prop := (0 <= q ∧ q <= 1)%Q.

(** A path whose features take part in pairs. *)
Definition usable_path (feats : gmap string Features) (p : string) : bool :=
  match feats !! p with
  | Some f => negb (unusable f)
  | None => false
  end.

(** The scored pair of two paths, where both have features to compare. *)
Definition scored (feats : gmap string Features) (weights : Weights)
  (ab : string * string) : option PairScore :=
  fa ← feats !! ab.1;
  fb ← feats !! ab.2;
  r ← compare_pair fa fb weights;
  Some (ab.1, ab.2, r.1, r.2).

(** What the pairs offer the path [p], in their order: a peer with the
    score and the breakdown of the pair. *)
Definition offers_of (p : string) (pair : PairScore)
  : list (string * Q * Breakdown) :=
  let '(a, b, s, br) := pair in
  (if bool_decide (a = p) then [(b, s, br)] else [])
  ++ (if bool_decide (b = p) then [(a, s, br)] else []).

Definition offers_for (p : string) (pairs : list PairScore)
  : list (string * Q * Breakdown) :=
  pairs ≫= offers_of p.

(** The order of the three labels. *)
Definition status_rank (status : string) : nat :=
  if bool_decide (status = "SUSPEITO") then 2
  else if bool_decide (status = "REVISAR") then 1 else 0.

(** A question with a third file that is too short. *)
Definition mixed_paths : list string :=
  ["./q01_ab.c"; "./q1_zz.c"; "./q1_ab.c"].

Definition mixed_feats : gmap string Features :=
  <["./q1_zz.c" := FeatTooShort]> sample_feats.

(** The entry of a path after one more offer: a strictly greater score
    replaces it. *)
Definition take_offer (cur : Best) (o : string * Q * Breakdown) : Best :=
  if Qgtb o.1.2 cur.1.2 then (Some o.1.1, o.1.2, Some o.2) else cur.

(** Three files with a tie between the two peers of the first. *)
Definition tie_paths : list string := ["a"; "b"; "c"].

Definition tie_pairs : list PairScore :=
  [("a", "b", 1 # 2, zero_breakdown); ("a", "c", 1 # 2, zero_breakdown);
   ("b", "c", 3 # 4, zero_breakdown)].

(** ** The state of the identifier normalisation *)

(** The alias that [id_map] gives a token, or the token itself. *)
Definition alias_of (id_map : gmap string string) (t : string) : string :=
  default t (id_map !! t).

(** What holds of the state of the loop of [normalize_identifiers] after
    the tokens [pre]: [out] is [pre] renamed by [id_map], which is
    defined on the identifiers met, and whose aliases are distinct and
    numbered below [nxt]. *)
Definition norm_inv (pre : list string)
  (st : gmap string string * list string * nat) : Prop :=
  let '(id_map, out, nxt) := st in
  out = rename (alias_of id_map) pre
  ∧ 1 ≤ nxt
  ∧ (∀ t, t ∈ pre → is_user_ident t = true → is_Some (id_map !! t))
  ∧ (∀ t a, id_map !! t = Some a →
            ∃ n, 1 ≤ n < nxt ∧ a = "ID" +:+ Str.of_nat n)
  ∧ (∀ t u a, id_map !! t = Some a → id_map !! u = Some a → t = u).

(** ** The characters of a token *)

(** The characters of the last alternative of [TOKEN_RE]. *)
Definition is_punct (c : ascii) : bool :=
  Str.contains (String c EmptyString) Lexer.punctuation.

(** A character that a match of [TOKEN_RE] can hold. *)
Definition token_char (c : ascii) : bool := Char.is_ident_char c || is_punct c.

(** A match at the head of a text, seen in the text with [w] after it. *)
Definition push (w : string) (r : option (string * string))
  : option (string * string) :=
  (fun tr : string * string => (tr.1, tr.2 +:+ w)) <$> r.

(** A character that is in no match of [TOKEN_RE], whatever the text: a
    white-space character, or an ASCII character that is none of the
    letters, digits, underscore and punctuation of the pattern. *)
Definition never_in_token (c : ascii) : bool :=
  Char.is_space c || ((Char.code c <? 128) && negb (token_char c)).

(** ** Masking of literals and comments: [strip_comments_and_strings] *)

(** [" " * n] *)
Fixpoint spaces (n : nat) : string :=
  match n with
  | O => EmptyString
  | S n' => String " " (spaces n')
  end.

(** [([^q\\]|\\.)*q] at the head of [s], for the quote [q]: the number of
    characters matched. The repetition reads the text in one way only, an
    escape being two characters and anything else but the quote one, so
    the match is the one that ends at the first quote that no escape
    holds; without such a quote there is none. With [re.DOTALL] the dot
    of an escape is any character. *)
Fixpoint literal_body (q : ascii) (s : string) : option nat :=
  match s with
  | EmptyString => None
  | String c s' =>
      if Ascii.eqb c q then Some 1
      else if Char.has_code 92 c then
        match s' with
        | EmptyString => None
        | String _ s'' => Nat.add 2 <$> literal_body q s''
        end
      else S <$> literal_body q s'
  end.

(** The first [re.sub]: a literal in double quotes (code 34) or in single
    quotes (code 39) becomes as many spaces; where no literal starts, the
    scan moves one character on. One unit of [fuel] is spent per step. *)
Fixpoint mask_literals (fuel : nat) (s : string) : string :=
  match fuel with
  | O => s
  | S fuel' =>
      match s with
      | EmptyString => EmptyString
      | String c s' =>
          if Char.has_code 34 c || Char.has_code 39 c then
            match literal_body c s' with
            | Some n => spaces (S n) +:+ mask_literals fuel' (Str.drop n s')
            | None => String c (mask_literals fuel' s')
            end
          else String c (mask_literals fuel' s')
      end
  end.

(** [.*?\*/] at the head of [s]: the number of characters up to the end
    of the first [*/]. *)
Fixpoint comment_body (s : string) : option nat :=
  match s with
  | EmptyString => None
  | String _ s' =>
      if String.prefix "*/" s then Some 2 else S <$> comment_body s'
  end.

(** The second [re.sub]: a block comment becomes as many spaces. *)
Fixpoint mask_block_comments (fuel : nat) (s : string) : string :=
  match fuel with
  | O => s
  | S fuel' =>
      match s with
      | EmptyString => EmptyString
      | String c s' =>
          if String.prefix "/*" s then
            match comment_body (Str.drop 1 s') with
            | Some n =>
                spaces (2 + n) +:+ mask_block_comments fuel' (Str.drop (S n) s')
            | None => String c (mask_block_comments fuel' s')
            end
          else String c (mask_block_comments fuel' s')
      end
  end.

(** The third [re.sub]: [//] and what follows it on the line is removed;
    [inside] tells that the characters read belong to such a match, which
    ends before a newline (code 10). *)
Fixpoint drop_line_comments (inside : bool) (s : string) : string :=
  match s with
  | EmptyString => EmptyString
  | String c s' =>
      if inside then
        if Char.has_code 10 c then String c (drop_line_comments false s')
        else drop_line_comments true s'
      else if String.prefix "//" s then drop_line_comments true s'
      else String c (drop_line_comments false s')
  end.

Definition strip_comments_and_strings (code : string) : string :=
  let code := mask_literals (String.length code) code in
  let code := mask_block_comments (String.length code) code in
  drop_line_comments false code.

(** The three characters that start a literal or a comment. *)
Definition is_plain (c : ascii) : bool :=
  negb (Char.has_code 34 c || Char.has_code 39 c || Char.has_code 47 c).

(** [m] is [s] with some of its characters replaced by a space. *)
Fixpoint masked (s m : string) : bool :=
  match s, m with
  | EmptyString, EmptyString => true
  | String c s', String d m' =>
      (Ascii.eqb d c || Ascii.eqb d " ") && masked s' m'
  | _, _ => false
  end.

(** The two quotes that open a literal. *)
Definition is_quote (c : ascii) : bool :=
  Char.has_code 34 c || Char.has_code 39 c.

(** The inside of a literal in the quote [q], as C writes it: characters
    other than the quote and the backslash, and escapes, a backslash
    with the character after it. *)
Fixpoint literal_units (q : ascii) (s : string) : bool :=
  match s with
  | EmptyString => true
  | String c s' =>
      if Ascii.eqb c q then false
      else if Char.has_code 92 c then
        match s' with
        | EmptyString => false
        | String _ s'' => literal_units q s''
        end
      else literal_units q s'
  end.

(** ** Depth of parentheses *)

(** The opening parentheses of a text less its closing ones. *)
Fixpoint paren_depth (s : string) : Z :=
  match s with
  | EmptyString => 0
  | String ch s' =>
      ((if Ascii.eqb ch "(" then 1 else if Ascii.eqb ch ")" then -1 else 0)
       + paren_depth s')%Z
  end.

(** * Properties *)

(** ** Lexer *)

Lemma span_length (p : ascii → bool) (s a b : string) :
  Str.span p s = (a, b) →
  String.length a + String.length b = String.length s.
Proof.
  revert a b. induction s as [|c s IH]; intros a b; simpl.
  - by intros [= <- <-].
  - destruct (p c); [|by intros [= <- <-]].
    destruct (Str.span p s) as [a' b'] eqn:Hspan.
    intros [= <- <-]. simpl. specialize (IH a' b' eq_refl). lia.
Qed.

(** A match of [TOKEN_RE] is not empty. *)
Lemma token_at_shorter (s t rest : string) :
  Lexer.token_at s = Some (t, rest) → String.length rest < String.length s.
Proof.
  unfold Lexer.token_at, Lexer.first_of. simpl.
  destruct (Lexer.ident s) as [[t1 r1]|] eqn:Hident.
  { intros [= <- <-]. unfold Lexer.ident in Hident.
    destruct s as [|c s]; [done|]. destruct (Char.is_ident_start c); [|done].
    destruct (Str.span _ s) as [a b] eqn:Hspan. injection Hident as <- <-.
    apply span_length in Hspan. simpl. lia. }
  destruct (Lexer.hex s) as [[t2 r2]|] eqn:Hhex.
  { intros [= <- <-]. unfold Lexer.hex in Hhex.
    destruct s as [|c0 [|c1 s]]; [done|by destruct c0 as [[] [] [] [] [] [] [] []]|].
    destruct (Str.span Char.is_hex s) as [a b] eqn:Hspan.
    apply span_length in Hspan.
    destruct c0 as [[] [] [] [] [] [] [] []]; try done;
      destruct c1 as [[] [] [] [] [] [] [] []]; try done;
      destruct a; try done; injection Hhex as <- <-; simpl in *; lia. }
  destruct (Lexer.number s) as [[t3 r3]|] eqn:Hnum.
  { intros [= <- <-]. unfold Lexer.number in Hnum.
    destruct (Str.span Char.is_digit s) as [a b] eqn:Hspan.
    apply span_length in Hspan.
    destruct a as [|d a].
    - destruct s as [|c s]; [done|].
      destruct (Str.span Char.is_digit s) as [a' b'] eqn:Hspan'.
      apply span_length in Hspan'.
      destruct c as [[] [] [] [] [] [] [] []]; try done;
        destruct a'; try done; injection Hnum as <- <-; simpl in *; lia.
    - destruct b as [|c b]; [injection Hnum as <- <-; simpl in *; lia|].
      destruct (Str.span Char.is_digit b) as [f b'] eqn:Hspan'.
      apply span_length in Hspan'.
      destruct c as [[] [] [] [] [] [] [] []];
        injection Hnum as <- <-; simpl in *; lia. }
  destruct (Lexer.operator s) as [[t4 r4]|] eqn:Hop.
  { intros [= <- <-]. unfold Lexer.operator in Hop.
    destruct s as [|c0 [|c1 s]]; [done..|].
    case_bool_decide; [|done]. injection Hop as <- <-. simpl. lia. }
  unfold Lexer.punct. destruct s as [|c s]; [done|].
  destruct (Str.contains _ _); [|done]. intros [= <- <-]. simpl. lia.
Qed.

(** The fuel [tokenize] gives is enough: more of it changes nothing. *)
Lemma finditer_enough (fuel1 fuel2 : nat) (s : string) :
  String.length s ≤ fuel1 → String.length s ≤ fuel2 →
  Lexer.finditer fuel1 s = Lexer.finditer fuel2 s.
Proof.
  revert fuel2 s. induction fuel1 as [|fuel1 IH]; intros fuel2 s H1 H2.
  - destruct s; [|simpl in H1; lia]. by destruct fuel2.
  - destruct s as [|c s]; [by destruct fuel2|].
    destruct fuel2 as [|fuel2]; [simpl in H2; lia|].
    simpl in H1, H2. cbn [Lexer.finditer].
    destruct (Lexer.token_at (String c s)) as [[t rest]|] eqn:Htok.
    + apply token_at_shorter in Htok. simpl in Htok.
      f_equal. apply IH; lia.
    + apply IH; lia.
Qed.

(** ** Control stream *)

Lemma raw_stream_from (tokens acc : list string) :
  fold_left (fun stream t =>
               match emit t with
               | Some s => stream ++ [s]
               | None => stream
               end) tokens acc
  = acc ++ omap emit tokens.
Proof.
  revert acc. induction tokens as [|t tokens IH]; intros acc; simpl.
  - by rewrite app_nil_r.
  - rewrite IH. destruct (emit t); [|done]. by rewrite <- app_assoc.
Qed.

Lemma raw_stream_omap (tokens : list string) :
  raw_stream tokens = omap emit tokens.
Proof. unfold raw_stream. by rewrite raw_stream_from. Qed.

Lemma compress_step_elem (comp : list string) (s x : string) :
  x ∈ compress_step comp s ↔ x ∈ comp ∨ x = s.
Proof.
  unfold compress_step. destruct (last comp) as [s'|] eqn:Hlast.
  - case_bool_decide as Hne.
    + rewrite elem_of_app, list_elem_of_singleton. tauto.
    + assert (s' = s) as -> by (destruct (decide (s' = s)); [done|tauto]).
      split; [tauto|]. intros [?| ->]; [done|].
      rewrite last_lookup in Hlast. by eapply list_elem_of_lookup_2.
  - rewrite elem_of_app, list_elem_of_singleton. tauto.
Qed.

Lemma compress_from_elem (stream comp : list string) (x : string) :
  x ∈ fold_left compress_step stream comp ↔ x ∈ comp ∨ x ∈ stream.
Proof.
  revert comp. induction stream as [|s stream IH]; intros comp; simpl.
  - rewrite elem_of_nil. tauto.
  - rewrite IH, compress_step_elem, elem_of_cons. tauto.
Qed.

Lemma compress_elem (stream : list string) (x : string) :
  x ∈ compress stream ↔ x ∈ stream.
Proof.
  unfold compress. rewrite compress_from_elem, elem_of_nil. tauto.
Qed.

Lemma compress_step_no_adjacent (comp : list string) (s : string) :
  no_adjacent_equal comp → no_adjacent_equal (compress_step comp s).
Proof.
  intros Hcomp. unfold compress_step.
  destruct (last comp) as [s'|] eqn:Hlast.
  - case_bool_decide as Hne; [|done].
    intros i x y Hx Hy.
    destruct (decide (S i < length comp)) as [Hlt|Hge].
    + rewrite lookup_app_l in Hx by lia. rewrite lookup_app_l in Hy by lia.
      by eapply Hcomp.
    + destruct (decide (S i = length comp)) as [Heq|Hne'].
      * rewrite lookup_app_l in Hx by lia.
        rewrite lookup_app_r, Heq, Nat.sub_diag in Hy by lia.
        rewrite last_lookup, <- Heq in Hlast. simpl in *. congruence.
      * apply lookup_lt_Some in Hy. rewrite length_app in Hy. simpl in Hy. lia.
  - apply last_None in Hlast as ->. intros i x y _ Hy.
    by destruct i.
Qed.

Lemma compress_from_no_adjacent (stream comp : list string) :
  no_adjacent_equal comp →
  no_adjacent_equal (fold_left compress_step stream comp).
Proof.
  revert comp. induction stream as [|s stream IH]; intros comp Hcomp; simpl.
  - done.
  - by apply IH, compress_step_no_adjacent.
Qed.

(** C2, as the code has it: for the source text
    [if(a){for(i=0;i<n;i++){}}] the control stream is
    [IF, BRACE{, FOR, SEMI, BRACE{, BRACE}]; the two semicolons of the
    header and the two closing braces each collapse into one element. *)
Theorem control_stream_scenario :
  control_stream (tokenize "if(a){for(i=0;i<n;i++){}}")
  = ["IF"; "BRACE{"; "FOR"; "SEMI"; "BRACE{"; "BRACE}"].
Proof. vm_compute. reflexivity. Qed.

(** The sequence of seven elements that ends in two [BRACE}] is not what
    the extractor returns on that text. *)
Lemma seven_element_stream_refuted :
  control_stream (tokenize "if(a){for(i=0;i<n;i++){}}")
  ≠ ["IF"; "BRACE{"; "FOR"; "SEMI"; "BRACE{"; "BRACE}"; "BRACE}"].
Proof. vm_compute. discriminate. Qed.

(** C7: for every token sequence, the compressed control stream has no
    two equal adjacent elements. *)
Theorem control_stream_no_adjacent_equal (tokens : list string) :
  no_adjacent_equal (control_stream tokens).
Proof.
  unfold control_stream, compress. apply compress_from_no_adjacent.
  intros i x y Hx. by rewrite lookup_nil in Hx.
Qed.

(** C9: a token that is an identifier and no C keyword, and whose lower
    case is a control keyword, appends the tag of that keyword to the
    stream, so the tag is in the control stream; and the token itself is
    in the identifier set. *)
Theorem control_keyword_ignores_case (tokens : list string) (t tag : string) :
  t ∈ tokens →
  is_user_ident t = true →
  map_ctrl !! Str.lower t = Some tag →
  emit t = Some tag
  ∧ tag ∈ raw_stream tokens
  ∧ tag ∈ control_stream tokens
  ∧ t ∈ extract_identifiers tokens.
Proof.
  intros Hin Hid Hkw.
  assert (emit t = Some tag) as Hemit by (unfold emit; by rewrite Hkw).
  assert (tag ∈ raw_stream tokens) as Hraw.
  { rewrite raw_stream_omap. apply list_elem_of_omap. eauto. }
  repeat split; [done..| |].
  - unfold control_stream. by apply compress_elem.
  - unfold extract_identifiers. apply elem_of_list_to_set.
    apply list_elem_of_In, filter_In. split; [by apply list_elem_of_In|done].
Qed.

Lemma control_keyword_ignores_case_witness :
  let tokens := ["int"; "IF"; "("; "While"; ")"; "RETURN"; ";"] in
  ("IF" ∈ control_stream tokens ∧ "IF" ∈ extract_identifiers tokens)
  ∧ ("WHILE" ∈ control_stream tokens ∧ "While" ∈ extract_identifiers tokens)
  ∧ ("RETURN" ∈ control_stream tokens ∧ "RETURN" ∈ extract_identifiers tokens).
Proof.
  intros tokens.
  split; [|split].
  - apply (control_keyword_ignores_case tokens "IF" "IF");
      [repeat constructor | reflexivity | reflexivity].
  - apply (control_keyword_ignores_case tokens "While" "WHILE");
      [repeat constructor | reflexivity | reflexivity].
  - apply (control_keyword_ignores_case tokens "RETURN" "RETURN");
      [repeat constructor | reflexivity | reflexivity].
Defined.

(** ** Loop signature of the scenario *)

(** C1, as the code has it: for the source text
    [for (int i = 0; i < n; i++)] the signature is
    [FOR[ASSIGN_OR_DECL;COND;INCDEC]]; the bound [n] is an identifier, so
    the condition reads [ID<ID] after the substitutions. With a numeric
    bound, as in [for (int i = 0; i < 10; i++)], the signature is
    [FOR[ASSIGN_OR_DECL;ID<NUM;INCDEC]]. *)
Theorem for_signature_scenario :
  extract_loop_signatures "for (int i = 0; i < n; i++)"
  = Some {["FOR[ASSIGN_OR_DECL;COND;INCDEC]"]}
  ∧ extract_loop_signatures "for (int i = 0; i < 10; i++)"
    = Some {["FOR[ASSIGN_OR_DECL;ID<NUM;INCDEC]"]}.
Proof. split; vm_compute; reflexivity. Qed.

(** The signature [FOR[ASSIGN_OR_DECL;ID<NUM;INCDEC]] is not what the
    extractor produces for [for (int i = 0; i < n; i++)]. *)
Lemma id_lt_num_signature_refuted :
  extract_loop_signatures "for (int i = 0; i < n; i++)"
  ≠ Some {["FOR[ASSIGN_OR_DECL;ID<NUM;INCDEC]"]}.
Proof.
  intros H.
  assert ("FOR[ASSIGN_OR_DECL;ID<NUM;INCDEC]"
          ∈ default ∅ (extract_loop_signatures "for (int i = 0; i < n; i++)"))
    as Hin by (rewrite H; simpl; set_solver).
  revert Hin. apply (bool_decide_eq_false_1 _). vm_compute. reflexivity.
Qed.

(** ** Cosine *)

Lemma sum_squares_empty : sum_squares ∅ = 0%Z.
Proof. unfold sum_squares. by rewrite map_fold_empty. Qed.

(** The copy of [cosine] in [c_similarity_fine_final.py], which no
    function of that file calls, has no guard for two empty bags and
    returns 0 there, not 1. *)
Lemma cosine_empty_empty :
  Counter [] = ∅
  ∧ cosine (Counter []) (Counter []) = CosLit 0
  ∧ cosine (Counter []) (Counter []) ≠ CosLit 1.
Proof.
  split; [reflexivity|]. split; [reflexivity|].
  intros Heq. vm_compute in Heq. discriminate.
Qed.

(** [cosine] of [c_similarity_final.py] returns 1 on two empty bags. *)
Lemma Final_cosine_empty_empty : Final.cosine ∅ ∅ = CosLit 1.
Proof. reflexivity. Qed.

(** An empty bag against any bag gives 0, in both variants when the other
    bag is not empty. *)
Lemma cosine_empty_r (ca : gmap string Z) : cosine ca ∅ = CosLit 0.
Proof.
  unfold cosine. rewrite sum_squares_empty.
  rewrite (bool_decide_eq_false_2 (0%Z ≠ 0%Z)) by tauto.
  by rewrite andb_false_r.
Qed.



(** ** Baseline *)

(** C5, on three equal scores: the standard deviation is 0 and the second
    component of the result is the pair [(mean, 0.0)], not a number. *)
Theorem baseline_stats_equal_scores :
  ∃ mean, (mean == 1)%Q
    ∧ baseline_stats [1; 1; 1]%Q
      = PyTuple (PyFloat mean) (PyTuple (PyFloat mean) (PyFloat 0))
    ∧ is_number (PyTuple (PyFloat mean) (PyFloat 0)) = false.
Proof.
  eexists. split; [|split]; [|vm_compute; reflexivity|reflexivity].
  reflexivity.
Qed.

Lemma baseline_stats_short (values : list Q) :
  length values < 2 → baseline_stats values = PyTuple PyNone PyNone.
Proof.
  intros Hlen. unfold baseline_stats.
  by rewrite (proj2 (Nat.ltb_lt _ _) Hlen).
Qed.

Lemma baseline_stats_positive (values : list Q) :
  2 ≤ length values → (0 < pvariance values)%Q →
  baseline_stats values
  = PyTuple (PyFloat (fmean values)) (PySqrt (pvariance values)).
Proof.
  intros Hlen Hvar. unfold baseline_stats.
  rewrite (proj2 (Nat.ltb_ge _ _) Hlen).
  destruct (Qlt_le_dec 0 (pvariance values)) as [_|Hle]; [done|].
  exfalso. by apply (Qlt_not_le _ _ Hvar).
Qed.

Lemma baseline_stats_zero (values : list Q) :
  2 ≤ length values → (pvariance values <= 0)%Q →
  baseline_stats values
  = PyTuple (PyFloat (fmean values))
            (PyTuple (PyFloat (fmean values)) (PyFloat 0)).
Proof.
  intros Hlen Hvar. unfold baseline_stats.
  rewrite (proj2 (Nat.ltb_ge _ _) Hlen).
  destruct (Qlt_le_dec 0 (pvariance values)) as [Hlt|_]; [|done].
  exfalso. by apply (Qlt_not_le _ _ Hlt).
Qed.

(** ** Pairs of one author *)

(** C3, on a question with two files of one author: both names parse to
    question 1 and tag [ab], and the loop of [main] scores the pair. *)
Theorem same_tag_pair_is_scored :
  parse_qsigla <$> sample_paths = [Some (1, "ab"); Some (1, "ab")]
  ∧ ∃ score br,
      question_pairs sample_feats DEFAULT_WEIGHTS sample_paths
      = Some [("./q01_ab.c", "./q1_ab.c", score, br)].
Proof.
  split; [reflexivity|].
  eexists _, _. vm_compute. reflexivity.
Qed.

(** On the same two files the loop of [pairwise_fine] scores nothing. *)
Lemma Fine_same_tag_pair_skipped :
  Fine.parse_qsigla <$> sample_paths = [Some (1, "ab"); Some (1, "ab")]
  ∧ Fine.question_pairs sample_meta sample_bundles sample_paths = Some [].
Proof. split; reflexivity. Qed.

Lemma Fine_pair_step_none meta feats (l : list (string * string)) :
  fold_left (Fine.pair_step meta feats) l None = None.
Proof. induction l as [|ab l IH]; [done|]. simpl. exact IH. Qed.

Lemma Fine_pairs_from meta feats (l : list (string * string))
  (acc pairs : list PairScore) (P : PairScore → Prop) :
  (∀ a b s br ma mb,
      meta !! a = Some ma → meta !! b = Some mb → ma.2 ≠ mb.2 → P (a, b, s, br)) →
  Forall P acc →
  fold_left (Fine.pair_step meta feats) l (Some acc) = Some pairs →
  Forall P pairs.
Proof.
  intros HP. revert acc. induction l as [|[a b] l IH]; intros acc Hacc; simpl.
  - by intros [= <-].
  - destruct (meta !! a) as [ma|] eqn:Ha; simpl;
      [|by rewrite Fine_pair_step_none].
    destruct (meta !! b) as [mb|] eqn:Hb; simpl;
      [|by rewrite Fine_pair_step_none].
    case_bool_decide as Htag; [by apply IH|].
    destruct (Fine.compare_pair a b feats) as [r|]; simpl;
      [|by rewrite Fine_pair_step_none].
    apply IH. apply Forall_app. split; [done|].
    apply Forall_singleton. by eapply HP.
Qed.

(** [pairwise_fine] of [c_similarity_fine.py] scores no pair of files
    with equal tags. *)
Lemma Fine_pairs_have_distinct_tags meta feats (plist : list string)
  (pairs : list PairScore) :
  Fine.question_pairs meta feats plist = Some pairs →
  Forall (fun p : PairScore =>
            ∃ ma mb, meta !! p.1.1.1 = Some ma ∧ meta !! p.1.1.2 = Some mb
                     ∧ ma.2 ≠ mb.2) pairs.
Proof.
  apply Fine_pairs_from; [|done].
  intros a b s br ma mb Ha Hb Hne. by exists ma, mb.
Qed.

(** ** Renaming of identifiers *)

Section Renaming.
Variable tokens : list string.
Variable ρ : string → string.
Hypothesis ρ_ident :
  ∀ t, t ∈ tokens → is_user_ident t = true → is_user_ident (ρ t) = true.
Hypothesis ρ_inj :
  ∀ t u, t ∈ tokens → u ∈ tokens →
         is_user_ident t = true → is_user_ident u = true → ρ t = ρ u → t = u.

(** The loop run on the renamed tokens keeps [out] and [nxt] equal to
    those of the loop run on the tokens, and [id_map] equal up to [ρ]. *)
Lemma norm_fold_rename (l : list string) (m m' : gmap string string)
  (out : list string) (nxt : nat) :
  (∀ t, t ∈ l → t ∈ tokens) →
  (∀ u, u ∈ tokens → is_user_ident u = true → m' !! ρ u = m !! u) →
  (fold_left norm_step (rename ρ l) (m', out, nxt)).1.2
  = (fold_left norm_step l (m, out, nxt)).1.2.
Proof.
  revert m m' out nxt.
  induction l as [|t l IH]; intros m m' out nxt Hsub Hmap; [done|].
  assert (t ∈ tokens) as Ht by (apply Hsub; left).
  assert (∀ t', t' ∈ l → t' ∈ tokens) as Hsub' by (intros; apply Hsub; by right).
  unfold rename in *. simpl. destruct (is_user_ident t) eqn:Hid.
  - rewrite (ρ_ident t Ht Hid), (Hmap t Ht Hid).
    destruct (m !! t) as [alias|] eqn:Hlook.
    + by apply IH.
    + apply IH; [done|]. intros u Hu Hidu.
      destruct (decide (u = t)) as [->|Hne].
      * by rewrite !lookup_insert_eq.
      * rewrite !lookup_insert_ne; [by apply Hmap|done|].
        intros Heq. apply Hne. symmetry. by apply ρ_inj.
  - rewrite Hid. by apply IH.
Qed.

Lemma normalize_rename :
  normalize_identifiers (rename ρ tokens) = normalize_identifiers tokens.
Proof.
  unfold normalize_identifiers. apply norm_fold_rename; [done|].
  intros u _ _. by rewrite !lookup_empty.
Qed.

End Renaming.

Lemma jaccard_self (a : gset string) : (jaccard a a == 1)%Q.
Proof.
  unfold jaccard. destruct (decide (a = ∅)) as [->|Hne].
  - reflexivity.
  - rewrite (bool_decide_eq_false_2 (a = ∅)) by done. simpl.
    rewrite union_idemp_L, intersection_idemp_L.
    assert (size a ≠ 0) as Hsize.
    { apply size_non_empty_iff. by intros ?%leibniz_equiv. }
    rewrite bool_decide_eq_true_2 by done.
    apply Qmult_inv_r. unfold Qeq. simpl. lia.
Qed.

(** C6: for every token sequence and every renaming of its identifiers
    that are no keywords into identifiers that are no keywords, injective
    on them, the renamed sequence has the same normalized tokens, the same
    set of k-shingles and the same token bag as the original, and the
    Jaccard similarity of the two shingle sets is 1. *)
Theorem rename_leaves_normal_form (tokens : list string) (ρ : string → string)
  (k : Z) :
  (∀ t, t ∈ tokens → is_user_ident t = true → is_user_ident (ρ t) = true) →
  (∀ t u, t ∈ tokens → u ∈ tokens →
          is_user_ident t = true → is_user_ident u = true → ρ t = ρ u → t = u) →
  let original := normalize_identifiers tokens in
  let renamed := normalize_identifiers (rename ρ tokens) in
  renamed = original
  ∧ shingles renamed k = shingles original k
  ∧ Counter renamed = Counter original
  ∧ (jaccard (shingles original k) (shingles renamed k) == 1)%Q.
Proof.
  intros Hid Hinj original renamed.
  assert (renamed = original) as -> by by apply normalize_rename.
  repeat split. apply jaccard_self.
Qed.

Lemma rename_leaves_normal_form_witness :
  let tokens := ["int"; "foo"; "="; "foo"; "+"; "x"; ";"] in
  let ρ := fun t : string =>
             if bool_decide (t = "foo") then "bar"
             else if bool_decide (t = "x") then "y" else t in
  rename ρ tokens = ["int"; "bar"; "="; "bar"; "+"; "y"; ";"]
  ∧ normalize_identifiers (rename ρ tokens) = ["int"; "ID1"; "="; "ID1"; "+"; "ID2"; ";"]
  ∧ normalize_identifiers (rename ρ tokens) = normalize_identifiers tokens
  ∧ shingles (normalize_identifiers (rename ρ tokens)) 5
    = shingles (normalize_identifiers tokens) 5.
Proof.
  intros tokens ρ.
  split; [reflexivity|]. split; [reflexivity|].
  assert (∀ t, t ∈ tokens →
               t = "int" ∨ t = "foo" ∨ t = "=" ∨ t = "+" ∨ t = "x" ∨ t = ";")
    as Hcases.
  { intros t Ht. unfold tokens in Ht.
    repeat (apply elem_of_cons in Ht as [->|Ht]; [tauto|]).
    by apply elem_of_nil in Ht. }
  destruct (rename_leaves_normal_form tokens ρ 5) as (H1 & H2 & _).
  - intros t Ht%Hcases.
    destruct Ht as [-> | [-> | [-> | [-> | [-> | ->]]]]]; vm_compute; congruence.
  - intros t u Ht%Hcases Hu%Hcases.
    destruct Ht as [-> | [-> | [-> | [-> | [-> | ->]]]]];
      destruct Hu as [-> | [-> | [-> | [-> | [-> | ->]]]]]; vm_compute; congruence.
  - split; [exact H1|exact H2].
Defined.

(** ** Termination of the loop-signature scan *)

Lemma search_word_ge (w s : string) (pos p : nat) :
  Re.search_word w s pos = Some p →
  pos ≤ p ∧ String.prefix w (Str.drop p s) = true.
Proof.
  unfold Re.search_word. intros [Hin Hat]%find_some.
  apply in_seq in Hin. split; [lia|].
  unfold Re.word_at in Hat.
  by apply andb_prop in Hat as [[_ ?]%andb_prop _].
Qed.

Lemma next_keyword_span (code_clean : string) (i start stop : nat)
  (kind : loop_kind) :
  next_keyword code_clean i = Some (start, stop, kind) →
  i ≤ start
  ∧ stop = start + String.length (keyword_of kind)
  ∧ String.prefix (keyword_of kind) (Str.drop start code_clean) = true.
Proof.
  unfold next_keyword.
  destruct (Re.search_word "for" code_clean i) as [f|] eqn:Hf;
    destruct (Re.search_word "while" code_clean i) as [w|] eqn:Hw;
    try apply search_word_ge in Hf as [? ?];
    try apply search_word_ge in Hw as [? ?];
    [destruct (f <? w)|..]; intros [= <- <- <-]; by simpl.
Qed.

Lemma skip_space_go_ge (rest : string) (j : nat) : j ≤ skip_space_go rest j.
Proof.
  revert j. induction rest as [|c rest IH]; intros j; simpl; [lia|].
  destruct (Char.is_space c); [|lia]. specialize (IH (S j)). lia.
Qed.

Lemma find_paren_go_ge (rest : string) (i : nat) (depth : Z) (k : nat) :
  find_paren_go rest i depth = Some k → i ≤ k.
Proof.
  revert i depth. induction rest as [|ch rest IH]; intros i depth; simpl; [done|].
  destruct (Ascii.eqb ch "(").
  - intros ?%IH. lia.
  - destruct (Ascii.eqb ch ")").
    + destruct (depth - 1 =? 0)%Z; [intros [= ->]; lia|intros ?%IH; lia].
    + intros ?%IH. lia.
Qed.

(** What an iteration that goes on has done: it matched a keyword at or
    after [i], and its new position is past that match; the set grew by
    at most one signature of that keyword. *)
Lemma scan_step_next (code_clean : string) (i i' : nat) (sigs sigs' : gset string) :
  scan_step code_clean i sigs = Next i' sigs' →
  ∃ start stop kind,
    next_keyword code_clean i = Some (start, stop, kind)
    ∧ i ≤ start ∧ start < stop ∧ stop ≤ i'
    ∧ Str.substr start stop code_clean = keyword_of kind
    ∧ (sigs' = sigs ∨ ∃ inside, sigs' = {[signature_of kind inside]} ∪ sigs).
Proof.
  unfold scan_step.
  destruct (next_keyword code_clean i) as [[[start stop] kind]|] eqn:Hkw; [|done].
  apply next_keyword_span in Hkw as (Hge & Hstop & Hpre).
  assert (start < stop) as Hlt by (rewrite Hstop; destruct kind; simpl; lia).
  assert (Str.substr start stop code_clean = keyword_of kind) as Hsub.
  { unfold Str.substr. replace (stop - start) with (String.length (keyword_of kind)) by lia.
    revert Hpre. generalize (Str.drop start code_clean), (keyword_of kind).
    intros s w. revert s. induction w as [|c w IH]; intros [|d s]; simpl; try done.
    destruct (ascii_dec c d) as [->|]; [|done]. intros ?%IH. by f_equal. }
  pose proof (skip_space_go_ge (Str.drop stop code_clean) stop) as Hj.
  fold (skip_space code_clean stop) in Hj.
  destruct (_ || _).
  - intros [= <- <-]. exists start, stop, kind. eauto 10.
  - destruct (find_matching_paren _ _) as [k|] eqn:Hk.
    + apply find_paren_go_ge in Hk.
      intros [= <- <-]. exists start, stop, kind.
      repeat split; [lia..|done|]. right. eauto.
    + intros [= <- <-]. exists start, stop, kind. eauto 10.
Qed.

Lemma string_app_assoc (s1 s2 s3 : string) :
  (s1 +:+ s2) +:+ s3 = s1 +:+ s2 +:+ s3.
Proof.
  induction s1 as [|c s1 IH]; [done|].
  change (String c ((s1 +:+ s2) +:+ s3) = String c (s1 +:+ s2 +:+ s3)).
  by rewrite IH.
Qed.

Lemma signature_of_form (kind : loop_kind) (inside : string) :
  is_loop_signature (signature_of kind inside).
Proof.
  destruct kind; simpl.
  - unfold normalize_for_header.
    set (a := norm_init _). set (b := norm_cond _). set (c := norm_incr _).
    exists (a +:+ ";" +:+ b +:+ ";" +:+ c). left.
    by rewrite !string_app_assoc.
  - eexists. by right.
Qed.

Lemma scan_loop_enough (code_clean : string) (P : string → Prop) (fuel i : nat)
  (sigs : gset string) :
  String.length code_clean - i ≤ fuel →
  (∀ kind inside, P (signature_of kind inside)) →
  (∀ s, s ∈ sigs → P s) →
  ∃ r, (∀ fuel', String.length code_clean - i ≤ fuel' →
                 scan_loop fuel' code_clean i sigs = Some r)
       ∧ ∀ s, s ∈ r → P s.
Proof.
  intros Hfuel HP. revert i sigs Hfuel.
  induction fuel as [|fuel IH]; intros i sigs Hfuel Hsigs.
  - exists sigs. split; [|done]. intros fuel' _.
    destruct fuel'; simpl; by rewrite (proj2 (Nat.leb_le _ _)) by lia.
  - destruct (decide (String.length code_clean ≤ i)) as [Hle|Hgt].
    { exists sigs. split; [|done]. intros fuel' _.
      destruct fuel'; simpl; by rewrite (proj2 (Nat.leb_le _ _)) by lia. }
    destruct (scan_step code_clean i sigs) as [|i' sigs'] eqn:Hstep.
    + exists sigs. split; [|done]. intros [|fuel'] Hfuel'; [lia|].
      simpl. rewrite (proj2 (Nat.leb_gt _ _)) by lia. by rewrite Hstep.
    + pose proof Hstep as (start & stop & kind & _ & ? & ? & ? & _ & Hgrow)%scan_step_next.
      destruct (IH i' sigs') as (r & Hr & HrP); [lia| |].
      { destruct Hgrow as [->|[inside ->]]; [done|].
        intros s [->%elem_of_singleton|?]%elem_of_union; [apply HP|by apply Hsigs]. }
      exists r. split; [|done]. intros [|fuel'] Hfuel'; [lia|].
      simpl. rewrite (proj2 (Nat.leb_gt _ _)) by lia. rewrite Hstep.
      apply Hr. lia.
Qed.

(** C10: the scan ends on every text. An iteration that does not leave
    the loop has matched [for] or [while] at or after its position and
    goes on strictly past that match; the loop returns a set within as
    many iterations as the text has characters, whatever fuel is given
    beyond that; and every element of that set has the form [FOR[...]] or
    [WHILE[...]]. *)
Theorem loop_scan_terminates (code_clean : string) :
  (∀ i sigs i' sigs',
      scan_step code_clean i sigs = Next i' sigs' →
      ∃ start stop kind,
        next_keyword code_clean i = Some (start, stop, kind)
        ∧ Str.substr start stop code_clean = keyword_of kind
        ∧ i ≤ start ∧ start < stop ∧ stop ≤ i')
  ∧ ∃ sigs,
      extract_loop_signatures code_clean = Some sigs
      ∧ (∀ fuel, String.length code_clean ≤ fuel →
                 scan_loop fuel code_clean 0 ∅ = Some sigs)
      ∧ ∀ s, s ∈ sigs → is_loop_signature s.
Proof.
  split.
  - intros i sigs i' sigs' (start & stop & kind & ? & ? & ? & ? & ? & _)%scan_step_next.
    exists start, stop, kind. eauto.
  - destruct (scan_loop_enough code_clean is_loop_signature
                (String.length code_clean) 0 ∅) as (r & Hr & HrP).
    + lia.
    + apply signature_of_form.
    + intros s Hs. by apply elem_of_empty in Hs.
    + exists r. split; [apply Hr; lia|]. split; [|done].
      intros fuel Hfuel. apply Hr. lia.
Qed.

(** ** Edit distance *)

Section EditDistance.
Context {A : Type} `{EqDecision A}.
Implicit Types (a b : list A) (x y : A).

Local Arguments edit_distance : simpl never.

Lemma ed_nil_l b : edit_distance [] b = length b.
Proof. reflexivity. Qed.

Lemma ed_nil_r a : edit_distance a [] = length a.
Proof. by destruct a. Qed.

Lemma ed_cons x a y b :
  edit_distance (x :: a) (y :: b)
  = Nat.min (edit_distance (x :: a) b + 1)
            (Nat.min (edit_distance a (y :: b) + 1)
                     (edit_distance a b + subst_cost x y)).
Proof. reflexivity. Qed.

Lemma subst_cost_sym x y : subst_cost x y = subst_cost y x.
Proof. unfold subst_cost. repeat case_bool_decide; congruence. Qed.

Lemma subst_cost_refl x : subst_cost x x = 0.
Proof. unfold subst_cost. by rewrite bool_decide_eq_true_2. Qed.

Lemma subst_cost_le x y : subst_cost x y ≤ 1.
Proof. unfold subst_cost. case_bool_decide; lia. Qed.

Lemma ed_sym a b : edit_distance a b = edit_distance b a.
Proof.
  revert b. induction a as [|x a IHa]; intros b.
  - by rewrite ed_nil_l, ed_nil_r.
  - induction b as [|y b IHb]; [by rewrite ed_nil_l, ed_nil_r|].
    rewrite (ed_cons x a y b), (ed_cons y b x a).
    rewrite IHb, (IHa (y :: b)), (IHa b), (subst_cost_sym x y). lia.
Qed.

Lemma ed_self a : edit_distance a a = 0.
Proof.
  induction a as [|x a IH]; [done|].
  rewrite ed_cons, IH, subst_cost_refl. lia.
Qed.

Lemma ed_bound a b : edit_distance a b ≤ Nat.max (length a) (length b).
Proof.
  revert b. induction a as [|x a IH]; intros b.
  - rewrite ed_nil_l. lia.
  - destruct b as [|y b]; [rewrite ed_nil_r; lia|].
    rewrite ed_cons. specialize (IH b). pose proof (subst_cost_le x y).
    simpl. lia.
Qed.

Lemma nat_eq_by_le (n m : nat) : (∀ k, k ≤ n ↔ k ≤ m) → n = m.
Proof.
  intros Hle. apply Nat.le_antisymm; [apply (Hle n)|apply (Hle m)]; lia.
Qed.

(** The recurrence read at the last elements, which is how the table of
    [levenshtein] is filled. *)
Lemma ed_snoc a b x y :
  edit_distance (a ++ [x]) (b ++ [y])
  = Nat.min (edit_distance (a ++ [x]) b + 1)
            (Nat.min (edit_distance a (b ++ [y]) + 1)
                     (edit_distance a b + subst_cost x y)).
Proof.
  revert b. induction a as [|x0 a IHa]; intros b.
  - induction b as [|y0 b IHb]; [reflexivity|].
    pose proof (ed_cons x [] y0 (b ++ [y])) as E1.
    pose proof (ed_cons x [] y0 b) as E2.
    cbn [app] in *. rewrite !ed_nil_l in *. rewrite ?length_app in *.
    cbn [length] in *. lia.
  - induction b as [|y0 b IHb].
    + pose proof (ed_cons x0 (a ++ [x]) y []) as E1.
      pose proof (IHa []) as E2.
      pose proof (ed_cons x0 a y []) as E3.
      cbn [app] in *. rewrite !ed_nil_r in *. rewrite ?length_app in *.
      cbn [length] in *. lia.
    + pose proof (IHa (y0 :: b)) as IHa1. pose proof (IHa b) as IHa2.
      cbn [app] in *.
      rewrite (ed_cons x0 (a ++ [x]) y0 (b ++ [y])), IHb, IHa1, IHa2.
      rewrite (ed_cons x0 (a ++ [x]) y0 b), (ed_cons x0 a y0 (b ++ [y])).
      rewrite (ed_cons x0 a y0 b).
      rewrite <- ?Nat.add_min_distr_r.
      apply nat_eq_by_le. intros k. rewrite !Nat.min_glb_iff. lia.
Qed.

(** [edit_distance] is the cost of a cheapest edit script. *)
Lemma ed_insert_le a y b : edit_distance a (y :: b) ≤ edit_distance a b + 1.
Proof.
  destruct a as [|x a]; [rewrite !ed_nil_l; simpl; lia|]. rewrite ed_cons. lia.
Qed.

Lemma ed_delete_le x a b : edit_distance (x :: a) b ≤ edit_distance a b + 1.
Proof.
  destruct b as [|y b]; [rewrite !ed_nil_r; simpl; lia|]. rewrite ed_cons. lia.
Qed.

Lemma edit_script_lower a b n : edit_script a b n → edit_distance a b ≤ n.
Proof.
  induction 1 as [|y a b n _ IH|x a b n _ IH|x y a b n _ IH].
  - done.
  - pose proof (ed_insert_le a y b). lia.
  - pose proof (ed_delete_le x a b). lia.
  - rewrite ed_cons. lia.
Qed.

Lemma edit_script_inserts b : edit_script [] b (length b).
Proof. induction b as [|y b IH]; simpl; by constructor. Qed.

Lemma edit_script_deletes a : edit_script a [] (length a).
Proof. induction a as [|x a IH]; simpl; by constructor. Qed.

Lemma edit_script_reaches a b : edit_script a b (edit_distance a b).
Proof.
  revert b. induction a as [|x a IHa]; intros b.
  - rewrite ed_nil_l. apply edit_script_inserts.
  - induction b as [|y b IHb].
    + rewrite ed_nil_r. apply edit_script_deletes.
    + rewrite ed_cons.
      destruct (Nat.min_dec (edit_distance (x :: a) b + 1)
                  (Nat.min (edit_distance a (y :: b) + 1)
                           (edit_distance a b + subst_cost x y))) as [-> | ->];
        [rewrite Nat.add_1_r; by constructor|].
      destruct (Nat.min_dec (edit_distance a (y :: b) + 1)
                  (edit_distance a b + subst_cost x y)) as [-> | ->].
      * rewrite Nat.add_1_r. by constructor.
      * by constructor.
Qed.

(** ** The table of [levenshtein] *)

Section Table.
Variables a b : list A.

Lemma entry_0_l j : j ≤ length b → entry a b 0 j = j.
Proof. intros Hj. unfold entry. by rewrite take_0, ed_nil_l, length_take_le. Qed.

Lemma entry_0_r i : i ≤ length a → entry a b i 0 = i.
Proof. intros Hi. unfold entry. by rewrite take_0, ed_nil_r, length_take_le. Qed.

Lemma entry_step i j x y :
  a !! i = Some x → b !! j = Some y →
  entry a b (S i) (S j)
  = Nat.min (entry a b (S i) j + 1)
            (Nat.min (entry a b i (S j) + 1) (entry a b i j + subst_cost x y)).
Proof.
  intros Hx Hy. unfold entry.
  rewrite (take_S_r a i x Hx), (take_S_r b j y Hy). apply ed_snoc.
Qed.

Lemma lev_cell_inv r j st :
  r < length a → j < length b →
  cell_inv a b r j st → cell_inv a b r (S j) (lev_cell a b (S r) st (S j)).
Proof.
  intros Hr Hj. destruct st as [prev dp]. intros (Hlen & Hprev & Hdone & Hold).
  simpl in *. subst prev.
  destruct (lookup_lt_is_Some_2 a r Hr) as [x Hx].
  destruct (lookup_lt_is_Some_2 b j Hj) as [y Hy].
  rewrite !Nat.sub_0_r.
  rewrite (list_lookup_total_correct dp j _ (Hdone j (Nat.le_refl j))).
  rewrite (list_lookup_total_correct dp (S j) (entry a b r (S j))) by (apply Hold; lia).
  assert ((if bool_decide (a !! r = b !! j) then 0 else 1) = subst_cost x y) as ->.
  { rewrite Hx, Hy. unfold subst_cost. repeat case_bool_decide; congruence. }
  rewrite <- (entry_step r j x y Hx Hy).
  unfold cell_inv. simpl.
  split; [by rewrite length_insert|]. split; [done|]. split.
  - intros j' Hj'. destruct (decide (j' = S j)) as [->|Hne].
    + apply list_lookup_insert_eq. lia.
    + rewrite list_lookup_insert_ne by done. apply Hdone. lia.
  - intros j' Hj'. rewrite list_lookup_insert_ne by lia. apply Hold. lia.
Qed.

Lemma fold_left_seq_inv {S : Type} (f : S → nat → S) (Inv : nat → S → Prop)
  (len k : nat) (s : S) :
  Inv k s →
  (∀ j s, k ≤ j < k + len → Inv j s → Inv (Datatypes.S j) (f s (Datatypes.S j))) →
  Inv (k + len) (fold_left f (seq (Datatypes.S k) len) s).
Proof.
  revert k s. induction len as [|len IH]; intros k s Hs Hstep; simpl.
  - by rewrite Nat.add_0_r.
  - replace (k + Datatypes.S len) with (Datatypes.S k + len) by lia.
    apply IH; [apply Hstep; [lia|done]|].
    intros j s' Hj. apply Hstep. lia.
Qed.

Lemma lev_row_inv r dp :
  r < length a → row_inv a b r dp → row_inv a b (S r) (lev_row a b dp (S r)).
Proof.
  intros Hr [Hlen Hrow]. unfold lev_row.
  pose proof (fold_left_seq_inv (lev_cell a b (S r)) (cell_inv a b r) (length b) 0
                (dp !!! 0, <[0 := S r]> dp)) as Hfold.
  simpl in Hfold. destruct Hfold as (Hlen' & _ & Hdone & _).
  - unfold cell_inv. simpl. split; [by rewrite length_insert|]. split.
    { apply list_lookup_total_correct, Hrow. lia. }
    split.
    + intros j' Hj'. assert (j' = 0) as -> by lia.
      rewrite list_lookup_insert_eq by lia. f_equal. symmetry.
      apply entry_0_r. lia.
    + intros j' Hj'. rewrite list_lookup_insert_ne by lia. apply Hrow. lia.
  - intros j st Hj. apply lev_cell_inv; [done|lia].
  - split; [done|]. intros j Hj. by apply Hdone.
Qed.

Lemma levenshtein_edit_distance : levenshtein a b = edit_distance a b.
Proof.
  unfold levenshtein.
  destruct (length a =? 0) eqn:Ha.
  { apply Nat.eqb_eq, nil_length_inv in Ha. subst a. by rewrite ed_nil_l. }
  destruct (length b =? 0) eqn:Hb.
  { apply Nat.eqb_eq, nil_length_inv in Hb. subst b. by rewrite ed_nil_r. }
  pose proof (fold_left_seq_inv (lev_row a b)
                (fun r dp => r ≤ length a → row_inv a b r dp) (length a) 0
                (seq 0 (length b + 1))) as Hfold.
  simpl in Hfold. destruct Hfold as [_ Hrow].
  - intros _. split; [rewrite length_seq; lia|].
    intros j Hj. rewrite lookup_seq_lt by lia. simpl. f_equal. symmetry.
    by apply entry_0_l.
  - intros r dp Hr Hinv Hle. apply lev_row_inv; [lia|]. apply Hinv. lia.
  - done.
  - rewrite (list_lookup_total_correct _ _ _ (Hrow (length b) (Nat.le_refl _))).
    unfold entry. by rewrite !take_ge.
Qed.

End Table.
End EditDistance.

(** ** Edit similarity *)

Section EditSimilarity.
Context {A : Type} `{EqDecision A}.
Implicit Types x y : list A.

Lemma sim_edit_spec_eq x y : sim_edit x y = sim_edit_spec x y.
Proof.
  destruct x as [|x0 x], y as [|y0 y]; [done|..]; unfold sim_edit, sim_edit_spec;
    rewrite levenshtein_edit_distance; do 4 f_equal; simpl length; lia.
Qed.

(** [1 - d/m] for integers [0 <= d <= m], [1 <= m]. *)
Lemma ratio_range (d m : nat) :
  d ≤ m → 1 ≤ m →
  (0 <= 1 - inject_Z (Z.of_nat d) / inject_Z (Z.of_nat m)
   ∧ 1 - inject_Z (Z.of_nat d) / inject_Z (Z.of_nat m) <= 1)%Q.
Proof.
  intros Hd Hm.
  assert (0 < inject_Z (Z.of_nat m))%Q as Hpos.
  { change 0%Q with (inject_Z 0). rewrite <- Zlt_Qlt. lia. }
  assert (0 <= inject_Z (Z.of_nat d) / inject_Z (Z.of_nat m))%Q as H0.
  { apply Qle_shift_div_l; [done|]. rewrite Qmult_0_l.
    change 0%Q with (inject_Z 0). rewrite <- Zle_Qle. lia. }
  assert (inject_Z (Z.of_nat d) / inject_Z (Z.of_nat m) <= 1)%Q as H1.
  { apply Qle_shift_div_r; [done|]. rewrite Qmult_1_l.
    rewrite <- Zle_Qle. lia. }
  split; lra.
Qed.

Lemma sim_edit_range x y : (0 <= sim_edit x y ∧ sim_edit x y <= 1)%Q.
Proof.
  rewrite sim_edit_spec_eq.
  destruct x as [|x0 x], y as [|y0 y]; [split; discriminate|..];
    unfold sim_edit_spec; apply ratio_range;
    solve [apply ed_bound | simpl length; lia].
Qed.

Lemma sim_edit_refl x : (sim_edit x x == 1)%Q.
Proof.
  rewrite sim_edit_spec_eq. destruct x as [|x0 x]; [reflexivity|].
  unfold sim_edit_spec. rewrite ed_self. unfold Qdiv. simpl inject_Z at 1.
  rewrite Qmult_0_l. lra.
Qed.

Lemma sim_edit_sym x y : sim_edit x y = sim_edit y x.
Proof.
  rewrite !sim_edit_spec_eq.
  destruct x as [|x0 x], y as [|y0 y]; [done|..]; unfold sim_edit_spec;
    rewrite (ed_sym (A:=A)); do 4 f_equal; lia.
Qed.

End EditSimilarity.

(** C8: for all sequences [x] and [y], [sim_edit x y] lies between 0 and
    1, [sim_edit x x] is 1, [sim_edit] is symmetric, it is 1 on two empty
    sequences, and otherwise it is 1 minus the classical edit distance
    over the greater of the two lengths; [levenshtein] computes that
    distance, which is the cost of a cheapest edit script. *)
Theorem sim_edit_properties {A : Type} `{EqDecision A} (x y : list A) :
  (0 <= sim_edit x y)%Q
  ∧ (sim_edit x y <= 1)%Q
  ∧ (sim_edit x x == 1)%Q
  ∧ (sim_edit x y == sim_edit y x)%Q
  ∧ (sim_edit (@nil A) [] == 1)%Q
  ∧ (sim_edit x y == sim_edit_spec x y)%Q
  ∧ levenshtein x y = edit_distance x y
  ∧ edit_script x y (levenshtein x y)
  ∧ (∀ n, edit_script x y n → levenshtein x y ≤ n).
Proof.
  pose proof (sim_edit_range x y) as [Hlo Hhi].
  split_and!; [done|done|apply sim_edit_refl|..].
  - by rewrite sim_edit_sym.
  - reflexivity.
  - by rewrite sim_edit_spec_eq.
  - apply levenshtein_edit_distance.
  - rewrite levenshtein_edit_distance. apply edit_script_reaches.
  - intros n Hn. rewrite levenshtein_edit_distance. by apply edit_script_lower.
Qed.

(** ** Cosine of the token bags *)








(** * Further properties *)

(** ** Jaccard *)

Lemma Qdiv_eq_iff (x y q : Q) : ¬ (y == 0)%Q → (x / y == q ↔ x == q * y)%Q.
Proof.
  intros Hy. split; intros Heq.
  - rewrite <- Heq, Qmult_comm. symmetry. by apply Qmult_div_r.
  - rewrite Heq. by apply Qdiv_mult_l.
Qed.

Lemma inject_nat_nonzero (m : nat) :
  1 ≤ m → ¬ (inject_Z (Z.of_nat m) == 0)%Q.
Proof.
  intros Hm. change 0%Q with (inject_Z 0). rewrite inject_Z_injective. lia.
Qed.

(** [d/m] for naturals [d <= m], [1 <= m]. *)
Lemma nat_ratio_range (d m : nat) :
  d ≤ m → 1 ≤ m →
  (0 <= inject_Z (Z.of_nat d) / inject_Z (Z.of_nat m)
   ∧ inject_Z (Z.of_nat d) / inject_Z (Z.of_nat m) <= 1)%Q.
Proof.
  intros Hd Hm. pose proof (ratio_range d m Hd Hm) as [H0 H1]. split; lra.
Qed.

Lemma nat_ratio_one (d m : nat) :
  1 ≤ m → (inject_Z (Z.of_nat d) / inject_Z (Z.of_nat m) == 1)%Q ↔ d = m.
Proof.
  intros Hm. rewrite Qdiv_eq_iff by by apply inject_nat_nonzero.
  rewrite Qmult_1_l, inject_Z_injective. lia.
Qed.

Lemma nat_ratio_zero (d m : nat) :
  1 ≤ m → (inject_Z (Z.of_nat d) / inject_Z (Z.of_nat m) == 0)%Q ↔ d = 0.
Proof.
  intros Hm. rewrite Qdiv_eq_iff by by apply inject_nat_nonzero.
  rewrite Qmult_0_l. change 0%Q with (inject_Z 0).
  rewrite inject_Z_injective. lia.
Qed.

Lemma inter_subseteq_union (a b : gset string) : a ∩ b ⊆ a ∪ b.
Proof. intros x [Hx _]%elem_of_intersection. apply elem_of_union. by left. Qed.

(** [jaccard] outside its first branch. *)
Lemma jaccard_ratio (a b : gset string) :
  ¬ (a = ∅ ∧ b = ∅) →
  jaccard a b
  = (inject_Z (Z.of_nat (size (a ∩ b))) / inject_Z (Z.of_nat (size (a ∪ b))))%Q
  ∧ 1 ≤ size (a ∪ b)
  ∧ size (a ∩ b) ≤ size (a ∪ b).
Proof.
  intros Hne.
  assert (size (a ∪ b) ≠ 0) as Hsize.
  { rewrite size_non_empty_iff. intros Hempty%leibniz_equiv.
    apply Hne. by apply empty_union_L in Hempty. }
  unfold jaccard.
  assert (bool_decide (a = ∅) && bool_decide (b = ∅) = false) as ->.
  { apply andb_false_iff. rewrite !bool_decide_eq_false.
    destruct (decide (a = ∅)); [right|left]; tauto. }
  rewrite bool_decide_eq_true_2 by done.
  split; [done|]. split; [lia|]. apply subseteq_size, inter_subseteq_union.
Qed.

Lemma jaccard_sym (a b : gset string) : jaccard a b = jaccard b a.
Proof.
  unfold jaccard.
  by rewrite (union_comm_L a b), (intersection_comm_L a b), andb_comm.
Qed.

Lemma jaccard_range (a b : gset string) :
  (0 <= jaccard a b ∧ jaccard a b <= 1)%Q.
Proof.
  destruct (decide (a = ∅ ∧ b = ∅)) as [[-> ->]|Hne].
  - split; discriminate.
  - destruct (jaccard_ratio a b Hne) as (-> & ? & ?). by apply nat_ratio_range.
Qed.

(** X1: the Jaccard similarity of two sets lies between 0 and 1 and does
    not depend on the order of its arguments. *)
Theorem jaccard_bounds_sym (a b : gset string) :
  (0 <= jaccard a b)%Q ∧ (jaccard a b <= 1)%Q ∧ jaccard a b = jaccard b a.
Proof.
  pose proof (jaccard_range a b) as [? ?]. split_and!; [done..|].
  apply jaccard_sym.
Qed.

(** X2: the Jaccard similarity is 1 exactly for two equal sets. *)
Theorem jaccard_one_iff (a b : gset string) : (jaccard a b == 1)%Q ↔ a = b.
Proof.
  split; [|intros ->; apply jaccard_self].
  destruct (decide (a = ∅ ∧ b = ∅)) as [[-> ->]|Hne]; [done|].
  destruct (jaccard_ratio a b Hne) as (-> & Hpos & Hle).
  rewrite nat_ratio_one by done. intros Hsize.
  assert (a ∩ b = a ∪ b) as Heq.
  { apply set_subseteq_size_eq; [apply inter_subseteq_union|lia]. }
  apply set_eq. intros x. split; intros Hx.
  - assert (x ∈ a ∩ b) as Hin by (rewrite Heq; apply elem_of_union; by left).
    by apply elem_of_intersection in Hin as [_ ?].
  - assert (x ∈ a ∩ b) as Hin by (rewrite Heq; apply elem_of_union; by right).
    by apply elem_of_intersection in Hin as [? _].
Qed.

(** X3: the Jaccard similarity is 0 exactly for two disjoint sets that are
    not both empty; so it is 0 for a set that is not empty against the
    empty set. *)
Theorem jaccard_zero_iff (a b : gset string) :
  (jaccard a b == 0)%Q ↔ a ∩ b = ∅ ∧ ¬ (a = ∅ ∧ b = ∅).
Proof.
  destruct (decide (a = ∅ ∧ b = ∅)) as [[-> ->]|Hne].
  - split; [intros Heq; discriminate Heq|tauto].
  - destruct (jaccard_ratio a b Hne) as (-> & Hpos & Hle).
    rewrite nat_ratio_zero by done. rewrite size_empty_iff.
    split; [intros ?%leibniz_equiv; tauto|intros [-> _]; done].
Qed.

(** ** Edit distance as a metric *)

Section EditMetric.
Context {A : Type} `{EqDecision A}.
Implicit Types a b c : list A.

Lemma ed_zero_iff a b : edit_distance a b = 0 ↔ a = b.
Proof.
  split; [|intros ->; apply ed_self].
  revert b. induction a as [|x a IH]; intros [|y b].
  - done.
  - rewrite ed_nil_l. discriminate.
  - rewrite ed_nil_r. discriminate.
  - rewrite ed_cons. intros Hmin.
    assert (edit_distance a b = 0 ∧ subst_cost x y = 0) as [Hd Hc] by lia.
    apply IH in Hd as ->. unfold subst_cost in Hc.
    case_bool_decide; [congruence|discriminate].
Qed.

Lemma ed_length_diff a b : length a - length b ≤ edit_distance a b.
Proof.
  revert b. induction a as [|x a IHa]; intros b; [simpl; lia|].
  induction b as [|y b IHb]; [rewrite ed_nil_r; lia|].
  rewrite ed_cons. specialize (IHa b) as IH1.
  specialize (IHa (y :: b)) as IH2. cbn [length] in *. lia.
Qed.

Lemma subst_cost_triangle (x y z : A) :
  subst_cost x z ≤ subst_cost x y + subst_cost y z.
Proof. unfold subst_cost. repeat case_bool_decide; try lia. congruence. Qed.

Lemma ed_triangle a b c :
  edit_distance a c ≤ edit_distance a b + edit_distance b c.
Proof.
  remember (length a + length b + length c) as n eqn:Hn.
  revert a b c Hn. induction n as [n IH] using lt_wf_ind. intros a b c ->.
  destruct a as [|x a].
  { rewrite !ed_nil_l. pose proof (ed_length_diff c b) as Hd.
    rewrite (ed_sym c b) in Hd. lia. }
  destruct c as [|z c].
  { rewrite !ed_nil_r. pose proof (ed_length_diff (x :: a) b). lia. }
  destruct b as [|y b].
  { rewrite ed_nil_r, ed_nil_l. pose proof (ed_bound (x :: a) (z :: c)). lia. }
  assert (∀ a' b' c',
            length a' + length b' + length c'
            < length (x :: a) + length (y :: b) + length (z :: c) →
            edit_distance a' c' ≤ edit_distance a' b' + edit_distance b' c')
    as IH' by (intros a' b' c' Hlt; by eapply IH).
  pose proof (IH' (x :: a) (y :: b) c ltac:(cbn [length]; lia)) as IH1.
  pose proof (IH' (x :: a) b (z :: c) ltac:(cbn [length]; lia)) as IH2.
  pose proof (IH' (x :: a) b c ltac:(cbn [length]; lia)) as IH3.
  pose proof (IH' a (y :: b) (z :: c) ltac:(cbn [length]; lia)) as IH4.
  pose proof (IH' a b (z :: c) ltac:(cbn [length]; lia)) as IH5.
  pose proof (IH' a b c ltac:(cbn [length]; lia)) as IH6.
  pose proof (subst_cost_triangle x y z) as Hcost.
  pose proof (ed_cons x a z c) as E1. pose proof (ed_cons x a y b) as E2.
  pose proof (ed_cons y b z c) as E3.
  clear IH IH'. lia.
Qed.

Lemma one_minus_ratio_one (d m : nat) :
  1 ≤ m →
  (1 - inject_Z (Z.of_nat d) / inject_Z (Z.of_nat m) == 1)%Q → d = 0.
Proof.
  intros Hm Heq. apply (nat_ratio_zero d m Hm).
  set (q := (inject_Z (Z.of_nat d) / inject_Z (Z.of_nat m))%Q) in *. lra.
Qed.

(** X4: the edit similarity of two sequences is 1 exactly when they are
    equal. *)
Theorem sim_edit_one_iff (x y : list A) : (sim_edit x y == 1)%Q ↔ x = y.
Proof.
  split; [|intros ->; apply sim_edit_refl].
  rewrite sim_edit_spec_eq.
  destruct x as [|x0 x], y as [|y0 y]; [done|..]; unfold sim_edit_spec;
    intros Hd%one_minus_ratio_one; try (cbn [length]; lia);
    by apply ed_zero_iff in Hd.
Qed.

(** X5: [levenshtein] is a metric on sequences: it is 0 exactly for equal
    sequences, and going through a third sequence never is shorter. *)
Theorem levenshtein_metric (x y z : list A) :
  (levenshtein x y = 0 ↔ x = y)
  ∧ levenshtein x z ≤ levenshtein x y + levenshtein y z.
Proof.
  rewrite !levenshtein_edit_distance. split; [apply ed_zero_iff|apply ed_triangle].
Qed.

(** X6: [levenshtein] is at least the difference of the two lengths. *)
Theorem levenshtein_length_diff (x y : list A) :
  length x - length y ≤ levenshtein x y
  ∧ length y - length x ≤ levenshtein x y.
Proof.
  rewrite levenshtein_edit_distance. split; [apply ed_length_diff|].
  rewrite ed_sym. apply ed_length_diff.
Qed.

End EditMetric.

(** ** Composite score *)

Lemma score_of_components (a b : Bundle) (w : Weights) :
  Forall in_unit (components (score_of a b w).2)
  ∧ (score_of a b w).1 = composite w (score_of a b w).2.
Proof.
  split; [|done]. unfold score_of, components.
  cbn [snd br_jaccard br_control br_idents br_loops br_calls].
  constructor; [apply jaccard_range|].
  constructor; [apply sim_edit_range|].
  constructor; [apply jaccard_range|].
  constructor; [apply jaccard_range|].
  constructor; [apply jaccard_range|constructor].
Qed.

Lemma weight_term_range (w c : Q) :
  (0 <= w)%Q → in_unit c → (0 <= w * c ∧ w * c <= w)%Q.
Proof.
  intros Hw [H0 H1]. split; [by apply Qmult_le_0_compat|].
  rewrite <- (Qmult_1_r w) at 2. rewrite !(Qmult_comm w).
  by apply Qmult_le_compat_r.
Qed.

Lemma composite_range (w : Weights) (br : Breakdown) :
  nonneg_weights w → Forall in_unit (components br) →
  (0 <= composite w br ∧ composite w br <= weight_sum w)%Q.
Proof.
  intros (H1 & H2 & H3 & H4 & H5) Hbr.
  unfold components in Hbr.
  apply Forall_cons in Hbr as [C1 Hbr]. apply Forall_cons in Hbr as [C2 Hbr].
  apply Forall_cons in Hbr as [C3 Hbr]. apply Forall_cons in Hbr as [C4 Hbr].
  apply Forall_cons in Hbr as [C5 _].
  destruct (weight_term_range _ _ H1 C1), (weight_term_range _ _ H2 C2),
    (weight_term_range _ _ H3 C3), (weight_term_range _ _ H4 C4),
    (weight_term_range _ _ H5 C5).
  unfold composite, weight_sum.
  set (t1 := (w_jaccard w * br_jaccard br)%Q) in *.
  set (t2 := (w_control w * br_control br)%Q) in *.
  set (t3 := (w_idents w * br_idents br)%Q) in *.
  set (t4 := (w_loops w * br_loops br)%Q) in *.
  set (t5 := (w_calls w * br_calls br)%Q) in *.
  split; lra.
Qed.

(** X7: with weights that are not negative, the composite score of two
    files lies between 0 and the sum of the weights, each of its five
    components lies between 0 and 1, and the score is the weighted sum of
    the components, with the weights as given. *)
Theorem score_of_range (a b : Bundle) (w : Weights) :
  nonneg_weights w →
  (0 <= (score_of a b w).1)%Q
  ∧ ((score_of a b w).1 <= weight_sum w)%Q
  ∧ Forall in_unit (components (score_of a b w).2)
  ∧ (score_of a b w).1 = composite w (score_of a b w).2.
Proof.
  intros Hw. destruct (score_of_components a b w) as [Hbr Heq].
  destruct (composite_range w _ Hw Hbr) as [Hlo Hhi].
  rewrite Heq. by split_and!.
Qed.

(** X8: the composite score and its breakdown do not depend on the order
    of the two files, and a file compared with itself scores the sum of
    the weights. *)
Theorem score_of_sym_self (a b : Bundle) (w : Weights) :
  score_of a b w = score_of b a w
  ∧ ((score_of a a w).1 == weight_sum w)%Q.
Proof.
  split.
  - unfold score_of.
    by rewrite (jaccard_sym (f_shingles a)), (jaccard_sym (f_idents a)),
      (jaccard_sym (f_loopsigs a)), (jaccard_sym (f_calls a)),
      (sim_edit_sym (f_control a)).
  - unfold score_of, weight_sum. simpl.
    rewrite !jaccard_self, sim_edit_refl. ring.
Qed.

(** ** Pairs of a question *)

Lemma pair_step_none feats w (l : list (string * string)) :
  fold_left (pair_step feats w) l None = None.
Proof. induction l as [|ab l IH]; [done|]. simpl. exact IH. Qed.

Lemma question_pairs_from feats w (l : list (string * string))
  (acc pairs : list PairScore) (P : PairScore → Prop) :
  (∀ a b fa fb,
      feats !! a = Some (FeatOk fa) → feats !! b = Some (FeatOk fb) →
      P (a, b, (score_of fa fb w).1, (score_of fa fb w).2)) →
  Forall P acc →
  fold_left (pair_step feats w) l (Some acc) = Some pairs →
  Forall P pairs.
Proof.
  intros HP. revert acc. induction l as [|[a b] l IH]; intros acc Hacc; simpl.
  - by intros [= <-].
  - destruct (feats !! a) as [fa|] eqn:Ha; simpl; [|by rewrite pair_step_none].
    destruct (feats !! b) as [fb|] eqn:Hb; simpl; [|by rewrite pair_step_none].
    destruct (unusable fa || unusable fb) eqn:Hun; [by apply IH|].
    destruct fa as [msg| |fa]; simpl; try by rewrite pair_step_none.
    destruct fb as [msg| |fb]; simpl; try by rewrite pair_step_none.
    apply IH. apply Forall_app. split; [done|].
    apply Forall_singleton. by apply HP.
Qed.

(** X9: every pair that the loop of [main] scores joins two files whose
    features were extracted (no error, not too short), and carries the
    score and the breakdown of these features. *)
Theorem question_pairs_sound (feats : gmap string Features) (w : Weights)
  (plist : list string) (pairs : list PairScore) :
  question_pairs feats w plist = Some pairs →
  Forall (fun p : PairScore =>
            ∃ fa fb, feats !! p.1.1.1 = Some (FeatOk fa)
                     ∧ feats !! p.1.1.2 = Some (FeatOk fb)
                     ∧ (p.1.2, p.2) = score_of fa fb w) pairs.
Proof.
  apply question_pairs_from; [|done].
  intros a b fa fb Ha Hb. exists fa, fb. cbn [fst snd].
  split_and!; [done..|]. symmetry. apply surjective_pairing.
Qed.

Lemma score_of_range_witness :
  let a := bundle_of sample_source in
  let b := bundle_of "int f(){return 1;}" in
  (0 <= (score_of a b DEFAULT_WEIGHTS).1)%Q
  ∧ ((score_of a b DEFAULT_WEIGHTS).1 <= weight_sum DEFAULT_WEIGHTS)%Q.
Proof.
  intros a b.
  destruct (score_of_range a b DEFAULT_WEIGHTS) as (H0 & H1 & _).
  - unfold nonneg_weights, DEFAULT_WEIGHTS. cbn [w_jaccard w_control w_idents w_loops w_calls].
    repeat split; discriminate.
  - split; [exact H0|exact H1].
Defined.

Lemma question_pairs_sound_witness :
  ∃ pairs,
    question_pairs sample_feats DEFAULT_WEIGHTS sample_paths = Some pairs
    ∧ Forall (fun p : PairScore =>
                ∃ fa fb, sample_feats !! p.1.1.1 = Some (FeatOk fa)
                         ∧ sample_feats !! p.1.1.2 = Some (FeatOk fb)
                         ∧ (p.1.2, p.2) = score_of fa fb DEFAULT_WEIGHTS) pairs.
Proof.
  eexists. split; [vm_compute; reflexivity|].
  apply (question_pairs_sound sample_feats DEFAULT_WEIGHTS sample_paths).
  vm_compute. reflexivity.
Defined.

Lemma combinations2_filter {A} (f : A → bool) (l : list A) :
  List.filter (fun ab : A * A => f ab.1 && f ab.2) (combinations2 l)
  = combinations2 (List.filter f l).
Proof.
  induction l as [|x l IH]; [done|].
  cbn [combinations2 List.filter]. rewrite List.filter_app, IH.
  assert (List.filter (fun ab : A * A => f ab.1 && f ab.2) ((fun y => (x, y)) <$> l)
          = if f x then (fun y => (x, y)) <$> List.filter f l else []) as ->.
  { clear IH. induction l as [|y l IHl]; [by destruct (f x)|].
    cbn [fmap list_fmap List.filter]. simpl. rewrite IHl.
    destruct (f x), (f y); done. }
  by destruct (f x).
Qed.

Lemma combinations2_length {A} (l : list A) :
  2 * length (combinations2 l) = length l * (length l - 1).
Proof.
  induction l as [|x l IH]; [done|].
  cbn [combinations2 length]. rewrite length_app, length_fmap. nia.
Qed.

Lemma combinations2_elem {A} (l : list A) (x y : A) :
  (x, y) ∈ combinations2 l → x ∈ l ∧ y ∈ l.
Proof.
  induction l as [|z l IH]; [by intros ?%elem_of_nil|].
  cbn [combinations2]. rewrite elem_of_app, list_elem_of_fmap.
  intros [(y' & [= -> ->] & Hy)|[? ?]%IH]; split; by constructor.
Qed.

Lemma combinations2_lookup {A} (l : list A) (i j : nat) (x y : A) :
  i < j → l !! i = Some x → l !! j = Some y → (x, y) ∈ combinations2 l.
Proof.
  revert i j. induction l as [|z l IH]; intros i j Hij Hx Hy; [done|].
  cbn [combinations2]. apply elem_of_app.
  destruct i as [|i].
  - left. injection Hx as ->. destruct j as [|j]; [lia|]. simpl in Hy.
    apply list_elem_of_fmap. exists y. split; [done|].
    by eapply list_elem_of_lookup_2.
  - right. destruct j as [|j]; [lia|]. simpl in Hx, Hy.
    apply (IH i j); [lia|done..].
Qed.

(** The loop over pairs whose paths all have features, none of them an
    error with an empty message. *)
Lemma question_pairs_usable feats w (l : list (string * string))
  (acc : list PairScore) :
  (∀ a b, (a, b) ∈ l →
     ∃ fa fb, feats !! a = Some fa ∧ feats !! b = Some fb
              ∧ fa ≠ FeatError "" ∧ fb ≠ FeatError "") →
  fold_left (pair_step feats w) l (Some acc)
  = Some (acc ++ omap (scored feats w)
                   (List.filter (fun ab => usable_path feats ab.1
                                           && usable_path feats ab.2) l)).
Proof.
  revert acc. induction l as [|[a b] l IH]; intros acc Hl.
  - simpl. by rewrite app_nil_r.
  - destruct (Hl a b ltac:(left)) as (fa & fb & Ha & Hb & Hfa & Hfb).
    assert (∀ a' b', (a', b') ∈ l →
              ∃ fa fb, feats !! a' = Some fa ∧ feats !! b' = Some fb
                       ∧ fa ≠ FeatError "" ∧ fb ≠ FeatError "") as Hl'.
    { intros a' b' Hin. apply Hl. by right. }
    cbn [fold_left List.filter]. unfold pair_step at 2, usable_path.
    simpl. rewrite Ha, Hb. simpl.
    destruct fa as [ma| |fa], fb as [mb| |fb]; simpl;
      try (destruct (decide (ma = "")) as [->|Hma]; [done|];
           rewrite (bool_decide_eq_false_2 (ma = "")) by done; simpl);
      try (destruct (decide (mb = "")) as [->|Hmb]; [done|];
           rewrite (bool_decide_eq_false_2 (mb = "")) by done; simpl);
      rewrite ?andb_false_r; simpl; try by apply IH.
    rewrite IH by done. unfold scored at 2. simpl. rewrite Ha, Hb. simpl.
    by rewrite <- app_assoc.
Qed.

(** X10: where every path of the question has features and no extraction
    error has an empty message, the loop of [main] scores exactly the
    pairs of the usable files, in the order of [itertools.combinations]:
    leaving the unusable files out of the list first gives the same
    pairs, and [n] usable files give [n(n-1)/2] of them. *)
Theorem question_pairs_usable_files (feats : gmap string Features)
  (w : Weights) (plist : list string) :
  (∀ p, p ∈ plist → ∃ f, feats !! p = Some f ∧ f ≠ FeatError "") →
  ∃ pairs,
    question_pairs feats w plist = Some pairs
    ∧ pairs = omap (scored feats w)
                (combinations2 (List.filter (usable_path feats) plist))
    ∧ (fun x : PairScore => (x.1.1.1, x.1.1.2)) <$> pairs
      = combinations2 (List.filter (usable_path feats) plist)
    ∧ 2 * length pairs
      = length (List.filter (usable_path feats) plist)
        * (length (List.filter (usable_path feats) plist) - 1).
Proof.
  intros Hall. eexists. split.
  { unfold question_pairs. rewrite question_pairs_usable; [reflexivity|].
    intros a b [Ha Hb]%combinations2_elem.
    destruct (Hall a Ha) as (fa & ? & ?), (Hall b Hb) as (fb & ? & ?).
    by exists fa, fb. }
  rewrite app_nil_l, combinations2_filter.
  set (usable := List.filter (usable_path feats) plist).
  assert (∀ ab, ab ∈ combinations2 usable →
                ∃ s br, scored feats w ab = Some (ab.1, ab.2, s, br)) as Hsc.
  { intros [a b] [Ha Hb]%combinations2_elem.
    apply list_elem_of_In, filter_In in Ha as [Hina Ha].
    apply list_elem_of_In, filter_In in Hb as [Hinb Hb].
    apply list_elem_of_In, Hall in Hina as (fa & Hfa & Hnea).
    apply list_elem_of_In, Hall in Hinb as (fb & Hfb & Hneb).
    unfold usable_path in Ha, Hb. unfold scored. cbn [fst snd].
    rewrite Hfa in Ha |- *. rewrite Hfb in Hb |- *.
    destruct fa as [ma| |fa]; [|done|].
    { destruct (decide (ma = "")) as [->|Hma]; [done|].
      simpl in Ha. by rewrite (bool_decide_eq_false_2 (ma = "")) in Ha. }
    destruct fb as [mb| |fb]; [|done|].
    { destruct (decide (mb = "")) as [->|Hmb]; [done|].
      simpl in Hb. by rewrite (bool_decide_eq_false_2 (mb = "")) in Hb. }
    simpl. eauto. }
  assert ((fun x : PairScore => (x.1.1.1, x.1.1.2))
            <$> omap (scored feats w) (combinations2 usable)
          = combinations2 usable) as Hproj.
  { revert Hsc. generalize (combinations2 usable). intros l Hl.
    induction l as [|ab l IH]; [done|].
    destruct (Hl ab ltac:(left)) as (s & br & Hab).
    cbn [omap list_omap]. rewrite Hab. cbn [fmap list_fmap]. f_equal.
    - by destruct ab.
    - apply IH. intros ab' Hin. apply Hl. by right. }
  split; [done|]. split; [done|].
  rewrite <- (combinations2_length usable). f_equal.
  transitivity (length ((fun x : PairScore => (x.1.1.1, x.1.1.2))
                          <$> omap (scored feats w) (combinations2 usable))).
  - by rewrite length_fmap.
  - by rewrite Hproj.
Qed.

Lemma question_pairs_usable_files_witness :
  ∃ pairs,
    question_pairs mixed_feats DEFAULT_WEIGHTS mixed_paths = Some pairs
    ∧ (fun x : PairScore => (x.1.1.1, x.1.1.2)) <$> pairs
      = [("./q01_ab.c", "./q1_ab.c")].
Proof.
  destruct (question_pairs_usable_files mixed_feats DEFAULT_WEIGHTS mixed_paths)
    as (pairs & Hrun & _ & Hproj & _).
  - intros p Hp. unfold mixed_paths in Hp.
    repeat (apply elem_of_cons in Hp as [->|Hp];
            [eexists; split; [vm_compute; reflexivity|discriminate]|]).
    by apply elem_of_nil in Hp.
  - exists pairs. split; [exact Hrun|]. rewrite Hproj. reflexivity.
Defined.

Lemma pair_step_fails feats w (l : list (string * string)) (a b : string)
  (fa fb : Features) (acc : option (list PairScore)) :
  (a, b) ∈ l →
  feats !! a = Some fa → feats !! b = Some fb →
  unusable fa = false → unusable fb = false →
  compare_pair fa fb w = None →
  fold_left (pair_step feats w) l acc = None.
Proof.
  intros Hin Ha Hb Hua Hub Hcmp. revert acc.
  induction l as [|ab l IH]; intros acc; [by apply elem_of_nil in Hin|].
  apply elem_of_cons in Hin as [<-|Hin]; [|by apply IH].
  cbn [fold_left]. destruct acc as [pairs|]; [|apply pair_step_none].
  unfold pair_step at 2. cbn [fst snd]. simpl. rewrite Ha, Hb. simpl.
  rewrite Hua, Hub, Hcmp. simpl. apply pair_step_none.
Qed.

(** X11: an extraction error whose message is empty is not passed over:
    if the question also holds a file that is not passed over, the loop
    of [main] ends in a [KeyError] when it compares the two. *)
Theorem empty_error_message_raises (feats : gmap string Features)
  (w : Weights) (plist : list string) (i j : nat) (a b : string)
  (fb : Features) :
  i ≠ j →
  plist !! i = Some a → plist !! j = Some b →
  feats !! a = Some (FeatError "") →
  feats !! b = Some fb → unusable fb = false →
  question_pairs feats w plist = None.
Proof.
  intros Hij Ha Hb Hfa Hfb Hub. unfold question_pairs.
  destruct (decide (i < j)) as [Hlt|Hge].
  - apply (pair_step_fails feats w _ a b (FeatError "") fb); try done.
    by apply (combinations2_lookup plist i j).
  - apply (pair_step_fails feats w _ b a fb (FeatError "")); try done.
    + apply (combinations2_lookup plist j i); [lia|done..].
    + by destruct fb.
Qed.

Lemma empty_error_message_raises_witness :
  question_pairs (<["./q1_zz.c" := FeatError ""]> sample_feats)
                 DEFAULT_WEIGHTS mixed_paths = None.
Proof.
  apply (empty_error_message_raises _ DEFAULT_WEIGHTS mixed_paths 1 0
           "./q1_zz.c" "./q01_ab.c" (FeatOk (bundle_of sample_source)));
    [lia|reflexivity|reflexivity|reflexivity|reflexivity|reflexivity].
Defined.

(** ** Best match *)

Lemma Qgtb_lt (x y : Q) : Qgtb x y = true ↔ (y < x)%Q.
Proof.
  unfold Qgtb. rewrite negb_true_iff, <- not_true_iff_false, Qle_bool_iff.
  split; [apply Qnot_le_lt|apply Qlt_not_le].
Qed.

Lemma Qgtb_le (x y : Q) : Qgtb x y = false ↔ (x <= y)%Q.
Proof. unfold Qgtb. by rewrite negb_false_iff, Qle_bool_iff. Qed.

Lemma best_update_spec (m : gmap string Best) (p q : string) (s : Q)
  (br : Breakdown) (cur : Best) :
  m !! p = Some cur →
  ∃ m', best_update m p q s br = Some m'
        ∧ m' !! p = Some (take_offer cur (q, s, br))
        ∧ (∀ p', p' ≠ p → m' !! p' = m !! p')
        ∧ dom m' = dom m.
Proof.
  intros Hp.
  assert (best_update m p q s br
          = Some (if Qgtb s cur.1.2 then <[p := (Some q, s, Some br)]> m else m))
    as Heq by (unfold best_update; by rewrite Hp).
  eexists. split; [exact Heq|]. unfold take_offer. cbn [fst snd].
  destruct (Qgtb s cur.1.2); [|done].
  rewrite lookup_insert_eq. split; [done|]. split.
  - intros p' Hne. by rewrite lookup_insert_ne.
  - rewrite dom_insert_L. apply (elem_of_dom_2 (D:=gset string)) in Hp.
    apply set_eq. intros x. rewrite elem_of_union, elem_of_singleton.
    split; [intros [->|?]; done|tauto].
Qed.

(** What the two updates of a pair do to the entry of [p]. *)
Lemma best_step_lookup (m m' : gmap string Best) (pair : PairScore)
  (p : string) (cur : Best) :
  best_step (Some m) pair = Some m' → m !! p = Some cur →
  m' !! p = Some (fold_left take_offer (offers_of p pair) cur)
  ∧ dom m' = dom m.
Proof.
  destruct pair as [[[a b] s] br]. unfold best_step, offers_of. simpl.
  destruct (m !! a) as [ca|] eqn:Ha; [|by rewrite (proj2 (bind_None _ _))
    by (left; unfold best_update; by rewrite Ha)].
  destruct (best_update_spec m a b s br ca Ha) as (m1 & -> & Ha1 & Hoth1 & Hd1).
  simpl. intros Hstep Hp.
  destruct (m1 !! b) as [cb|] eqn:Hb;
    [|unfold best_update in Hstep; by rewrite Hb in Hstep].
  destruct (best_update_spec m1 b a s br cb Hb) as (m2 & Hm2 & Hb2 & Hoth2 & Hd2).
  rewrite Hm2 in Hstep. injection Hstep as <-.
  split; [|by rewrite Hd2, Hd1].
  destruct (decide (a = p)) as [->|Hna], (decide (b = p)) as [->|Hnb].
  - rewrite !(bool_decide_eq_true_2 (p = p)) by done. cbn [app fold_left].
    rewrite Hb2. simplify_eq. reflexivity.
  - rewrite (bool_decide_eq_true_2 (p = p)) by done.
    rewrite (bool_decide_eq_false_2 (b = p)) by done. cbn [app fold_left].
    rewrite Hoth2 by done. rewrite Ha1. simplify_eq. reflexivity.
  - rewrite (bool_decide_eq_true_2 (p = p)) by done.
    rewrite (bool_decide_eq_false_2 (a = p)) by done. cbn [app fold_left].
    rewrite Hb2. rewrite Hoth1 in Hb by done. simplify_eq. reflexivity.
  - rewrite (bool_decide_eq_false_2 (a = p)) by done.
    rewrite (bool_decide_eq_false_2 (b = p)) by done. cbn [app fold_left].
    rewrite Hoth2, Hoth1 by done. exact Hp.
Qed.

Lemma best_step_none (pairs : list PairScore) :
  fold_left best_step pairs None = None.
Proof. induction pairs as [|[[[a b] s] br] pairs IH]; [done|]. exact IH. Qed.

Lemma best_fold_lookup (pairs : list PairScore) (m m' : gmap string Best)
  (p : string) (cur : Best) :
  fold_left best_step pairs (Some m) = Some m' → m !! p = Some cur →
  m' !! p = Some (fold_left take_offer (offers_for p pairs) cur)
  ∧ dom m' = dom m.
Proof.
  revert m cur. induction pairs as [|pair pairs IH]; intros m cur.
  - simpl. by intros [= <-] Hp.
  - cbn [fold_left]. intros Hfold Hp.
    destruct (best_step (Some m) pair) as [m1|] eqn:Hstep;
      [|by rewrite best_step_none in Hfold].
    destruct (best_step_lookup m m1 pair p cur Hstep Hp) as [Hp1 Hd1].
    destruct (IH m1 _ Hfold Hp1) as [Hp' Hd'].
    split; [|by rewrite Hd', Hd1].
    rewrite Hp'. unfold offers_for. cbn [mbind list_bind].
    by rewrite fold_left_app.
Qed.

(** The entry that a run of offers leaves. *)
Lemma take_offers_max (offers : list (string * Q * Breakdown)) (cur : Best) :
  (cur.1.2 <= (fold_left take_offer offers cur).1.2)%Q
  ∧ Forall (fun o => (o.1.2 <= (fold_left take_offer offers cur).1.2)%Q) offers.
Proof.
  revert cur. induction offers as [|o offers IH]; intros cur.
  - simpl. split; [apply Qle_refl|constructor].
  - cbn [fold_left]. destruct (IH (take_offer cur o)) as [Hcur Hall].
    assert (cur.1.2 <= (take_offer cur o).1.2
            ∧ o.1.2 <= (take_offer cur o).1.2)%Q as [H1 H2].
    { unfold take_offer. destruct (Qgtb o.1.2 cur.1.2) eqn:Hgt.
      - apply Qgtb_lt in Hgt. simpl. split; [by apply Qlt_le_weak|apply Qle_refl].
      - apply Qgtb_le in Hgt. split; [apply Qle_refl|done]. }
    split; [by eapply Qle_trans|]. constructor; [by eapply Qle_trans|done].
Qed.

Lemma take_offers_first (offers : list (string * Q * Breakdown)) (cur : Best) :
  fold_left take_offer offers cur = cur
  ∨ ∃ i q s br,
      offers !! i = Some (q, s, br)
      ∧ fold_left take_offer offers cur = (Some q, s, Some br)
      ∧ (cur.1.2 < s)%Q
      ∧ ∀ i' o', i' < i → offers !! i' = Some o' → (o'.1.2 < s)%Q.
Proof.
  revert cur. induction offers as [|o offers IH]; intros cur; [by left|].
  cbn [fold_left]. destruct (IH (take_offer cur o)) as [Heq|Hlater].
  - rewrite Heq. unfold take_offer. destruct (Qgtb o.1.2 cur.1.2) eqn:Hgt;
      [|by left].
    right. exists 0, o.1.1, o.1.2, o.2. apply Qgtb_lt in Hgt.
    split; [by destruct o as [[? ?] ?]|]. split; [done|]. split; [done|].
    intros i' o' Hi'. lia.
  - destruct Hlater as (i & q & s & br & Hi & Hres & Hlt & Hbefore).
    right. exists (S i), q, s, br. split; [done|]. split; [done|].
    assert (cur.1.2 <= (take_offer cur o).1.2
            ∧ o.1.2 <= (take_offer cur o).1.2)%Q as [H1 H2].
    { unfold take_offer. destruct (Qgtb o.1.2 cur.1.2) eqn:Hgt.
      - apply Qgtb_lt in Hgt. simpl. split; [by apply Qlt_le_weak|apply Qle_refl].
      - apply Qgtb_le in Hgt. split; [apply Qle_refl|done]. }
    split; [by eapply Qle_lt_trans|].
    intros [|i'] o' Hi' Ho'.
    + injection Ho' as <-. by eapply Qle_lt_trans.
    + apply (Hbefore i' o'); [lia|done].
Qed.

Lemma best_init_lookup (plist : list string) (p : string) :
  p ∈ plist → best_init plist !! p = Some (None, (-1)%Q, None).
Proof.
  intros Hp. unfold best_init.
  destruct (list_to_map ((λ p0, (p0, (None, (-1)%Q, None))) <$> plist
              : list (string * Best)) !! p) as [cur|] eqn:Hlook.
  - apply elem_of_list_to_map_2, list_elem_of_fmap in Hlook
      as (p' & [= -> ->] & _). done.
  - apply not_elem_of_list_to_map_2 in Hlook. exfalso. apply Hlook.
    rewrite <- list_fmap_compose. apply list_elem_of_fmap. by exists p.
Qed.

(** X12: after the loop over the pairs, the entry of a file of the
    question holds the greatest score among the pairs the file is in;
    it is the initial entry [(None, -1, None)], or the peer, score and
    breakdown of the first such pair that reaches that score. *)
Theorem best_match_first_greatest (plist : list string)
  (pairs : list PairScore) (best : gmap string Best) (p : string) :
  best_match plist pairs = Some best → p ∈ plist →
  ∃ cur,
    best !! p = Some cur
    ∧ Forall (fun o => (o.1.2 <= cur.1.2)%Q) (offers_for p pairs)
    ∧ (cur = (None, (-1)%Q, None)
       ∨ ∃ i q s br,
           offers_for p pairs !! i = Some (q, s, br)
           ∧ cur = (Some q, s, Some br)
           ∧ (-1 < s)%Q
           ∧ ∀ i' o', i' < i → offers_for p pairs !! i' = Some o' →
                      (o'.1.2 < s)%Q).
Proof.
  intros Hbest Hp. unfold best_match in Hbest.
  destruct (best_fold_lookup pairs _ best p _ Hbest (best_init_lookup plist p Hp))
    as [Hlook _].
  eexists. split; [exact Hlook|]. split; [apply take_offers_max|].
  destruct (take_offers_first (offers_for p pairs) (None, (-1)%Q, None))
    as [->|Hfirst]; [by left|by right].
Qed.

Lemma best_match_first_greatest_witness :
  ∃ best cur,
    best_match tie_paths tie_pairs = Some best
    ∧ best !! "a" = Some cur
    ∧ Forall (fun o => (o.1.2 <= cur.1.2)%Q) (offers_for "a" tie_pairs).
Proof.
  eexists.
  assert (best_match tie_paths tie_pairs = Some _) as Hbest
    by (vm_compute; reflexivity).
  destruct (best_match_first_greatest tie_paths tie_pairs _ "a" Hbest)
    as (cur & Hcur & Hmax & _).
  - repeat constructor.
  - exists cur. split; [exact Hbest|]. split; [exact Hcur|exact Hmax].
Defined.

(** ** The report of a question *)

Lemma question_pairs_inv feats w (l : list (string * string))
  (acc pairs : list PairScore) (P : PairScore → Prop) :
  (∀ a b fa fb s br,
      (a, b) ∈ l →
      feats !! a = Some (FeatOk fa) → feats !! b = Some (FeatOk fb) →
      P (a, b, s, br)) →
  Forall P acc →
  fold_left (pair_step feats w) l (Some acc) = Some pairs →
  Forall P pairs.
Proof.
  revert acc. induction l as [|[a b] l IH]; intros acc HP Hacc; simpl.
  - by intros [= <-].
  - assert (∀ a' b' fa fb s br,
              (a', b') ∈ l →
              feats !! a' = Some (FeatOk fa) → feats !! b' = Some (FeatOk fb) →
              P (a', b', s, br)) as HP'.
    { intros a' b' fa fb s br Hin. apply HP. by right. }
    destruct (feats !! a) as [fa|] eqn:Ha; simpl; [|by rewrite pair_step_none].
    destruct (feats !! b) as [fb|] eqn:Hb; simpl; [|by rewrite pair_step_none].
    destruct (unusable fa || unusable fb) eqn:Hun; [by apply IH|].
    destruct fa as [msg| |fa]; simpl; try by rewrite pair_step_none.
    destruct fb as [msg| |fb]; simpl; try by rewrite pair_step_none.
    apply IH; [done|]. apply Forall_app. split; [done|].
    apply Forall_singleton. apply (HP a b fa fb); [by left|done..].
Qed.

Lemma best_fold_total (pairs : list PairScore) (m : gmap string Best) :
  Forall (fun x : PairScore => x.1.1.1 ∈ dom m ∧ x.1.1.2 ∈ dom m) pairs →
  ∃ m', fold_left best_step pairs (Some m) = Some m' ∧ dom m' = dom m.
Proof.
  revert m. induction pairs as [|[[[a b] s] br] pairs IH]; intros m Hall.
  - by exists m.
  - apply Forall_cons in Hall as [[Ha Hb] Hall]. cbn [fst snd] in Ha, Hb.
    apply elem_of_dom in Ha as [ca Ha].
    destruct (best_update_spec m a b s br ca Ha) as (m1 & Hm1 & _ & _ & Hd1).
    rewrite <- Hd1 in Hb. apply elem_of_dom in Hb as [cb Hb].
    destruct (best_update_spec m1 b a s br cb Hb) as (m2 & Hm2 & _ & _ & Hd2).
    destruct (IH m2) as (m' & Hm' & Hd').
    { eapply Forall_impl; [exact Hall|]. intros x. by rewrite Hd2, Hd1. }
    exists m'. split; [|by rewrite Hd', Hd2, Hd1].
    cbn [fold_left]. unfold best_step at 2. simpl. rewrite Hm1. simpl.
    by rewrite Hm2.
Qed.

Lemma best_init_dom (plist : list string) :
  dom (best_init plist) = list_to_set plist.
Proof.
  unfold best_init. rewrite dom_list_to_map_L, <- list_fmap_compose.
  f_equal. by rewrite <- (list_fmap_id plist) at 2.
Qed.

(** X13: the pairs that the loop of [main] scores only name files of the
    question, so the loop that picks the best match of each file raises
    no [KeyError], and its result has an entry for each file of the
    question and for nothing else. *)
Theorem best_match_of_question_pairs (feats : gmap string Features)
  (w : Weights) (plist : list string) (pairs : list PairScore) :
  question_pairs feats w plist = Some pairs →
  ∃ best, best_match plist pairs = Some best ∧ dom best = list_to_set plist.
Proof.
  intros Hpairs.
  assert (Forall (fun x : PairScore => x.1.1.1 ∈ plist ∧ x.1.1.2 ∈ plist) pairs)
    as Hends.
  { apply (question_pairs_inv feats w (combinations2 plist) [] pairs);
      [|done|exact Hpairs].
    intros a b fa fb s br Hin _ _. by apply combinations2_elem. }
  destruct (best_fold_total pairs (best_init plist)) as (best & Hbest & Hdom).
  { eapply Forall_impl; [exact Hends|]. intros x.
    rewrite best_init_dom, !elem_of_list_to_set. tauto. }
  exists best. split; [exact Hbest|]. by rewrite Hdom, best_init_dom.
Qed.

Lemma best_match_of_question_pairs_witness :
  ∃ pairs best,
    question_pairs mixed_feats DEFAULT_WEIGHTS mixed_paths = Some pairs
    ∧ best_match mixed_paths pairs = Some best
    ∧ dom best = list_to_set mixed_paths.
Proof.
  eexists.
  assert (question_pairs mixed_feats DEFAULT_WEIGHTS mixed_paths = Some _)
    as Hpairs by (vm_compute; reflexivity).
  destruct (best_match_of_question_pairs mixed_feats DEFAULT_WEIGHTS
              mixed_paths _ Hpairs) as (best & Hbest & Hdom).
  exists best. split; [exact Hpairs|]. split; [exact Hbest|exact Hdom].
Defined.

Lemma Qgeb_zero_scaled (th : Q) :
  Qgeb 0 th = false → Qgeb 0 (th * (85 # 100)) = false.
Proof.
  unfold Qgeb. rewrite <- !not_true_iff_false, !Qle_bool_iff.
  intros Hth Hscaled. apply Hth. lra.
Qed.

(** The status of a file without a pair. *)
Lemma status_zero (th : Q) (policy : string) :
  status_from_policy 0 zero_breakdown th policy
  = if Qgeb 0 th then "SUSPEITO" else "OK".
Proof.
  unfold status_from_policy, components, zero_breakdown.
  cbn [br_jaccard br_control br_idents br_loops br_calls fmap list_fmap].
  destruct (Qgeb 0 th) eqn:Hth.
  - repeat case_bool_decide; reflexivity.
  - rewrite (Qgeb_zero_scaled th Hth). repeat case_bool_decide; reflexivity.
Qed.

Lemma offers_for_nil (p : string) (pairs : list PairScore) :
  Forall (fun x : PairScore => x.1.1.1 ≠ p ∧ x.1.1.2 ≠ p) pairs →
  offers_for p pairs = [].
Proof.
  induction pairs as [|[[[a b] s] br] pairs IH]; [done|].
  intros [[Ha Hb] Hall]%Forall_cons. cbn [fst snd] in Ha, Hb.
  unfold offers_for. cbn [mbind list_bind]. unfold offers_of at 1.
  rewrite (bool_decide_eq_false_2 (a = p)) by done.
  rewrite (bool_decide_eq_false_2 (b = p)) by done. by apply IH.
Qed.

(** X14: in the report of a question, a file whose features are unusable
    (an error with a message, or too short) has a row, at its place in
    the list, with no peer, the score 0 and an all-zero breakdown; its
    status is OK when the threshold is positive and SUSPEITO when it is
    not, under every policy. *)
Theorem unusable_file_row (feats : gmap string Features) (w : Weights)
  (roster : gmap string string) (th : Q) (policy : string) (qnum : nat)
  (plist : list string) (pairs : list PairScore) (baseline : pyval)
  (rows : list Row) (i : nat) (p : string) (f : Features) :
  question_report feats w roster th policy qnum plist
  = Some (pairs, baseline, rows) →
  plist !! i = Some p → feats !! p = Some f → unusable f = true →
  ∃ row,
    rows !! i = Some row
    ∧ r_file row = basename p
    ∧ r_best_with row = None
    ∧ r_score row = 0%Q
    ∧ r_br row = zero_breakdown
    ∧ r_status row = (if Qgeb 0 th then "SUSPEITO" else "OK").
Proof.
  unfold question_report. intros Hrep Hi Hf Hun.
  destruct (question_pairs feats w plist) as [pairs'|] eqn:Hpairs; [|done].
  cbn [mbind option_bind] in Hrep.
  destruct (best_match plist pairs') as [best|] eqn:Hbest; [|done].
  cbn [mbind option_bind] in Hrep.
  destruct (mapM (row_of roster th policy qnum best) plist) as [rows'|] eqn:Hrows;
    [|done].
  cbn [mbind option_bind] in Hrep. injection Hrep as <- <- <-.
  apply mapM_Some in Hrows.
  destruct (Forall2_lookup_l _ _ _ _ _ Hrows Hi) as (row & Hrow & Hrowof).
  exists row. split; [exact Hrow|].
  assert (offers_for p pairs' = []) as Hoffers.
  { apply offers_for_nil.
    apply (question_pairs_inv feats w (combinations2 plist) [] pairs');
      [|done|exact Hpairs].
    intros a b fa fb s br _ Ha Hb. cbn [fst snd].
    split; intros ->; rewrite Hf in *; simplify_eq; done. }
  assert (best !! p = Some (None, (-1)%Q, None)) as Hlook.
  { destruct (best_fold_lookup pairs' _ best p _ Hbest
                (best_init_lookup plist p (list_elem_of_lookup_2 _ _ _ Hi)))
      as [Hlook _].
    by rewrite Hoffers in Hlook. }
  unfold row_of in Hrowof.
  destruct (parse_qsigla p) as [parsed|]; [|done].
  cbn [mbind option_bind] in Hrowof. rewrite Hlook in Hrowof.
  cbn [mbind option_bind] in Hrowof. injection Hrowof as <-.
  cbn [r_file r_best_with r_score r_br r_status mbind option_bind].
  split_and!; try reflexivity. apply status_zero.
Qed.

Lemma unusable_file_row_witness :
  ∃ pairs baseline rows row,
    question_report mixed_feats DEFAULT_WEIGHTS ∅ (7 # 10) "weighted" 1
      mixed_paths = Some (pairs, baseline, rows)
    ∧ rows !! 1 = Some row
    ∧ r_best_with row = None
    ∧ r_status row = "OK".
Proof.
  destruct (question_report mixed_feats DEFAULT_WEIGHTS ∅ (7 # 10) "weighted" 1
              mixed_paths) as [[[pairs baseline] rows]|] eqn:Hrep;
    [|by vm_compute in Hrep].
  assert (mixed_feats !! "./q1_zz.c" = Some FeatTooShort) as Hf
    by (vm_compute; reflexivity).
  destruct (unusable_file_row mixed_feats DEFAULT_WEIGHTS ∅ (7 # 10) "weighted"
              1 mixed_paths pairs baseline rows 1 "./q1_zz.c" FeatTooShort
              Hrep eq_refl Hf eq_refl)
    as (row & Hrow & _ & Hmate & _ & _ & Hstatus).
  exists pairs, baseline, rows, row. split_and!; [reflexivity|exact Hrow|exact Hmate|exact Hstatus].
Defined.

(** ** Status under the three policies *)

Lemma Qgeb_true (x y : Q) : Qgeb x y = true ↔ (y <= x)%Q.
Proof. unfold Qgeb. apply Qle_bool_iff. Qed.

Lemma Qgeb_false (x y : Q) : Qgeb x y = false ↔ (x < y)%Q.
Proof.
  unfold Qgeb. rewrite <- not_true_iff_false, Qle_bool_iff.
  split; [apply Qnot_le_lt|apply Qlt_not_le].
Qed.

(** X15: under the policy weighted the status only depends on the score
    and grows with it, in the order OK, REVISAR, SUSPEITO; the breakdown
    plays no part. *)
Theorem weighted_status_monotone (s1 s2 th : Q) (br1 br2 : Breakdown) :
  (s1 <= s2)%Q →
  status_rank (status_from_policy s1 br1 th "weighted")
  ≤ status_rank (status_from_policy s2 br2 th "weighted").
Proof.
  intros Hle. unfold status_from_policy.
  rewrite (bool_decide_eq_true_2 ("weighted" = "weighted")) by done.
  destruct (Qgeb s2 th) eqn:H2.
  - destruct (Qgeb s1 th); [done|].
    destruct (Qgeb s1 (th * (85 # 100))); vm_compute; lia.
  - apply Qgeb_false in H2.
    assert (Qgeb s1 th = false) as -> by (apply Qgeb_false; lra).
    destruct (Qgeb s2 (th * (85 # 100))) eqn:H2'.
    + destruct (Qgeb s1 (th * (85 # 100))); vm_compute; lia.
    + apply Qgeb_false in H2'.
      assert (Qgeb s1 (th * (85 # 100)) = false) as ->
        by (apply Qgeb_false; lra).
      done.
Qed.

Lemma weighted_status_monotone_witness :
  ((1 # 2) <= (3 # 4))%Q
  ∧ status_rank (status_from_policy (1 # 2) zero_breakdown (7 # 10) "weighted")
    ≤ status_rank (status_from_policy (3 # 4) zero_breakdown (7 # 10) "weighted").
Proof.
  assert ((1 # 2) <= (3 # 4))%Q as Hle by (vm_compute; discriminate).
  split; [exact Hle|].
  exact (weighted_status_monotone (1 # 2) (3 # 4) (7 # 10) zero_breakdown
           zero_breakdown Hle).
Defined.

(** ** The report of [c_similarity_final.py] *)

(** X17: in that report the status of a file that has a pair (its best
    Jaccard is not negative) is the same under the three policies:
    SUSPEITO from the threshold on, REVISAR from 85% of it, else OK. *)
Theorem final_row_status_policy_free (best_j th_j : Q) (policy : string) :
  (0 <= best_j)%Q →
  FinalReport.row_status best_j th_j policy
  = if Qgeb best_j th_j then "SUSPEITO"
    else if Qgeb best_j (th_j * (85 # 100)) then "REVISAR" else "OK".
Proof.
  intros Hj. unfold FinalReport.row_status, FinalReport.shown.
  rewrite (proj2 (Qgeb_true best_j 0) Hj).
  unfold FinalReport.status_from_scores.
  change (FinalReport.or_zero (Some best_j)) with best_j.
  cbn [List.filter FinalReport.meets FinalReport.passes fst snd List.forallb].
  destruct (Qgeb best_j th_j) eqn:E;
    cbn [fmap list_fmap existsb id andb orb];
    repeat case_bool_decide; reflexivity.
Qed.

Lemma final_row_status_policy_free_witness :
  (0 <= 3 # 4)%Q
  ∧ FinalReport.row_status (3 # 4) (7 # 10) "all" = "SUSPEITO".
Proof.
  assert (0 <= 3 # 4)%Q as Hj by (vm_compute; discriminate).
  split; [exact Hj|].
  exact (final_row_status_policy_free (3 # 4) (7 # 10) "all" Hj).
Defined.

(** X18: a file without a pair (its best Jaccard is still negative, the
    initial [-1.0]) is SUSPEITO under the policy all, whatever the
    threshold; under any and under weighted it is OK when the threshold
    is positive. *)
Theorem final_row_status_no_pair (best_j th_j : Q) :
  (best_j < 0)%Q →
  FinalReport.row_status best_j th_j "all" = "SUSPEITO"
  ∧ ((0 < th_j)%Q →
     FinalReport.row_status best_j th_j "any" = "OK"
     ∧ FinalReport.row_status best_j th_j "weighted" = "OK").
Proof.
  intros Hj. unfold FinalReport.row_status, FinalReport.shown.
  rewrite (proj2 (Qgeb_false best_j 0) Hj).
  unfold FinalReport.status_from_scores.
  change (FinalReport.or_zero None) with 0%Q.
  cbn [List.filter FinalReport.meets FinalReport.passes fst snd
       List.forallb fmap list_fmap existsb].
  split; [reflexivity|]. intros Hth.
  rewrite (bool_decide_eq_true_2 ("any" = "any")) by done.
  rewrite (bool_decide_eq_false_2 ("weighted" = "any")) by done.
  rewrite (bool_decide_eq_false_2 ("weighted" = "all")) by done.
  assert (Qgeb 0 th_j = false) as -> by (by apply Qgeb_false).
  assert (Qgeb 0 (th_j * (85 # 100)) = false) as ->
    by (apply Qgeb_false; lra).
  done.
Qed.

Lemma final_row_status_no_pair_witness :
  (-1 < 0)%Q ∧ FinalReport.row_status (-1) (7 # 10) "all" = "SUSPEITO".
Proof.
  assert (-1 < 0)%Q as Hj by reflexivity.
  split; [exact Hj|].
  exact (proj1 (final_row_status_no_pair (-1) (7 # 10) Hj)).
Defined.

(** ** The baseline of a question *)

Lemma Qsum_nonneg (l : list Q) :
  Forall (fun x => 0 <= x)%Q l → (0 <= Qsum l)%Q.
Proof.
  induction 1 as [|x l Hx _ IH]; [discriminate|].
  change (Qsum (x :: l)) with (x + Qsum l)%Q. lra.
Qed.

Lemma Qsum_zero (l : list Q) :
  Forall (fun x => 0 <= x)%Q l → (Qsum l == 0)%Q →
  Forall (fun x => x == 0)%Q l.
Proof.
  induction 1 as [|x l Hx Hl IH]; [done|].
  change (Qsum (x :: l)) with (x + Qsum l)%Q. intros Hsum.
  pose proof (Qsum_nonneg l Hl) as Hnn.
  constructor; [lra|]. apply IH. lra.
Qed.

Lemma Qsum_all_zero (l : list Q) :
  Forall (fun x => x == 0)%Q l → (Qsum l == 0)%Q.
Proof.
  induction 1 as [|x l Hx _ IH]; [reflexivity|].
  change (Qsum (x :: l)) with (x + Qsum l)%Q. lra.
Qed.

Lemma Qsum_const (c : Q) (l : list Q) :
  Forall (fun x => x == c)%Q l →
  (Qsum l == inject_Z (Z.of_nat (length l)) * c)%Q.
Proof.
  induction 1 as [|x l Hx _ IH].
  - change (Qsum []) with 0%Q. change (inject_Z (Z.of_nat (length []))) with 0%Q.
    lra.
  - change (Qsum (x :: l)) with (x + Qsum l)%Q. cbn [length].
    rewrite Nat2Z.inj_succ, <- Z.add_1_r, inject_Z_plus, IH, Hx.
    change (inject_Z 1) with 1%Q. ring.
Qed.

Lemma fmean_const (c : Q) (l : list Q) :
  1 ≤ length l → Forall (fun x => x == c)%Q l → (fmean l == c)%Q.
Proof.
  intros Hlen Hall. unfold fmean.
  rewrite Qdiv_eq_iff by by apply inject_nat_nonzero.
  rewrite (Qsum_const c l Hall). ring.
Qed.

Lemma square_nonneg (y : Q) : (0 <= y * y)%Q.
Proof.
  destruct (Qlt_le_dec y 0) as [Hneg|Hpos].
  - assert (y * y == (- y) * (- y))%Q as -> by ring.
    apply Qmult_le_0_compat; lra.
  - by apply Qmult_le_0_compat.
Qed.

Lemma square_zero (y : Q) : (y * y == 0)%Q → (y == 0)%Q.
Proof. by intros [H|H]%Qmult_integral. Qed.

Lemma deviations_nonneg (mu : Q) (l : list Q) :
  Forall (fun x => 0 <= x)%Q ((fun x => (x - mu) * (x - mu))%Q <$> l).
Proof. apply Forall_fmap, Forall_forall. intros x _. apply square_nonneg. Qed.

Lemma pvariance_nonneg (l : list Q) : (0 <= pvariance l)%Q.
Proof.
  unfold pvariance. destruct l as [|x l]; [discriminate|].
  apply Qle_shift_div_l.
  - change 0%Q with (inject_Z 0). rewrite <- Zlt_Qlt. cbn [length]. lia.
  - rewrite Qmult_0_l. apply Qsum_nonneg, deviations_nonneg.
Qed.

(** The variance is 0 exactly when the values are all equal. *)
Lemma pvariance_zero_iff (l : list Q) :
  1 ≤ length l →
  (pvariance l == 0)%Q ↔ Forall (fun x => x == hd 0 l)%Q l.
Proof.
  intros Hlen. unfold pvariance.
  rewrite Qdiv_eq_iff by by apply inject_nat_nonzero.
  rewrite Qmult_0_l. split.
  - intros Hsum.
    apply Qsum_zero in Hsum; [|apply deviations_nonneg].
    apply Forall_fmap in Hsum.
    assert (Forall (fun x => x == fmean l)%Q l) as Hmean.
    { eapply Forall_impl; [exact Hsum|]. intros x Hx. cbn in Hx.
      apply square_zero in Hx. lra. }
    destruct l as [|y l]; [done|]. cbn [hd].
    pose proof (Forall_inv Hmean) as Hy. cbn in Hy.
    eapply Forall_impl; [exact Hmean|]. intros x Hx. cbn in Hx. lra.
  - intros Hall. pose proof (fmean_const _ l Hlen Hall) as Hmu.
    apply Qsum_all_zero, Forall_fmap.
    eapply Forall_impl; [exact Hall|]. intros x Hx. cbn in Hx |- *.
    rewrite Hx, Hmu. ring.
Qed.

Lemma forallb_Qeq (c : Q) (l : list Q) :
  forallb (Qeq_bool c) l = true ↔ Forall (fun x => x == c)%Q l.
Proof.
  rewrite forallb_forall, Forall_forall. split; intros H x Hx.
  - symmetry. apply Qeq_bool_iff, H. by apply list_elem_of_In.
  - apply Qeq_bool_iff. symmetry. apply H. by apply list_elem_of_In.
Qed.

Lemma baseline_stats_equal (values : list Q) :
  2 ≤ length values →
  forallb (Qeq_bool (hd 0%Q values)) values = true →
  baseline_stats values
  = PyTuple (PyFloat (fmean values))
      (PyTuple (PyFloat (fmean values)) (PyFloat 0)).
Proof.
  intros Hlen Hall. unfold baseline_stats.
  rewrite (proj2 (Nat.ltb_ge _ _) Hlen).
  apply forallb_Qeq, pvariance_zero_iff in Hall; [|lia].
  destruct (Qlt_le_dec 0 (pvariance values)) as [Hlt|_]; [|done]. lra.
Qed.

(** X19: for two values or more, the first component of the baseline is
    their mean; the second is a standard deviation, the root of a
    positive variance, exactly when two of the values differ, and is the
    pair of the mean and 0.0 when the values are all equal. *)
Theorem baseline_stats_shape (values : list Q) :
  2 ≤ length values →
  baseline_stats values
  = PyTuple (PyFloat (fmean values))
      (if forallb (Qeq_bool (hd 0%Q values)) values
       then PyTuple (PyFloat (fmean values)) (PyFloat 0)
       else PySqrt (pvariance values))
  ∧ (forallb (Qeq_bool (hd 0%Q values)) values = false →
     (0 < pvariance values)%Q).
Proof.
  intros Hlen.
  destruct (forallb (Qeq_bool (hd 0%Q values)) values) eqn:Hall.
  - split; [|done]. by apply baseline_stats_equal.
  - pose proof (pvariance_zero_iff values ltac:(lia)) as Hzero.
    pose proof (pvariance_nonneg values) as Hnn.
    assert (¬ (pvariance values == 0)%Q) as Hne.
    { intros Heq%Hzero%forallb_Qeq. congruence. }
    assert (0 < pvariance values)%Q as Hpos by lra. split; [|done].
    by apply baseline_stats_positive.
Qed.

Lemma baseline_stats_shape_witness :
  2 ≤ length [1 # 2; 1 # 4; 1 # 2]%Q
  ∧ baseline_stats [1 # 2; 1 # 4; 1 # 2]%Q
    = PyTuple (PyFloat (fmean [1 # 2; 1 # 4; 1 # 2]%Q))
        (PySqrt (pvariance [1 # 2; 1 # 4; 1 # 2]%Q)).
Proof.
  assert (2 ≤ length [1 # 2; 1 # 4; 1 # 2]%Q) as Hlen by (cbn [length]; lia).
  split; [exact Hlen|].
  exact (proj1 (baseline_stats_shape [1 # 2; 1 # 4; 1 # 2]%Q Hlen)).
Defined.

(** X20: in [main] of [c_similarity_final.py], when a question has two
    pairs or more and their Jaccard values are all equal, the z-score of
    a file that has a pair divides by the pair [(mean, 0.0)] and raises
    [TypeError]. *)
Theorem zscore_raises_on_equal_scores (jvals : list Q) (c j : Q) :
  2 ≤ length jvals → Forall (fun x => x == c)%Q jvals →
  ∃ mean sd,
    FinalReport.unpack_baseline (baseline_stats jvals) = Some (Some mean, sd)
    ∧ (mean == c)%Q
    ∧ FinalReport.zscore (Some j) (Some mean) sd = None.
Proof.
  intros Hlen Hall.
  assert (forallb (Qeq_bool (hd 0%Q jvals)) jvals = true) as Heq.
  { apply forallb_Qeq. destruct jvals as [|y l]; [done|]. cbn [hd].
    pose proof (Forall_inv Hall) as Hy. cbn in Hy.
    eapply Forall_impl; [exact Hall|]. intros x Hx. cbn in Hx. lra. }
  rewrite (baseline_stats_equal jvals Hlen Heq).
  exists (fmean jvals), (PyTuple (PyFloat (fmean jvals)) (PyFloat 0)).
  split_and!; [reflexivity| |reflexivity].
  apply fmean_const; [lia|done].
Qed.

Lemma zscore_raises_on_equal_scores_witness :
  ∃ mean sd,
    FinalReport.unpack_baseline (baseline_stats [1 # 2; 1 # 2]%Q)
    = Some (Some mean, sd)
    ∧ FinalReport.zscore (Some (1 # 2)) (Some mean) sd = None.
Proof.
  assert (2 ≤ length [1 # 2; 1 # 2]%Q) as Hlen by (cbn [length]; lia).
  assert (Forall (fun x => x == 1 # 2)%Q [1 # 2; 1 # 2]%Q) as Hall
    by (repeat constructor).
  destruct (zscore_raises_on_equal_scores [1 # 2; 1 # 2]%Q (1 # 2) (1 # 2)
              Hlen Hall) as (mean & sd & Hbase & _ & Hz).
  by exists mean, sd.
Defined.

(** ** Identifiers, calls and the control alphabet *)

Lemma calls_fold (tokens : list string) (l : list nat) (acc : gset string)
  (t : string) :
  t ∈ fold_left (fun calls i =>
                   match tokens !! i, tokens !! (i + 1) with
                   | Some t, Some t' =>
                       if is_user_ident t && bool_decide (t' = "(")
                       then {[t]} ∪ calls else calls
                   | _, _ => calls
                   end) l acc
  ↔ t ∈ acc ∨ ∃ i, i ∈ l ∧ tokens !! i = Some t
                   ∧ tokens !! (i + 1) = Some "(" ∧ is_user_ident t = true.
Proof.
  revert acc. induction l as [|i l IH]; intros acc; cbn [fold_left].
  - split; [by left|]. intros [H|(i & Hi & _)]; [done|]. by apply elem_of_nil in Hi.
  - rewrite IH. split.
    + intros [Hacc|(i' & Hi' & Hrest)].
      * destruct (tokens !! i) as [u|] eqn:Hu; [|by left].
        destruct (tokens !! (i + 1)) as [u'|] eqn:Hu'; [|by left].
        destruct (is_user_ident u && bool_decide (u' = "(")) eqn:Htest;
          [|by left].
        apply elem_of_union in Hacc as [->%elem_of_singleton|Hacc]; [|by left].
        apply andb_true_iff in Htest as [Hid ->%bool_decide_eq_true].
        right. exists i. split_and!; [by left|done..].
      * right. exists i'. split; [by right|done].
    + intros [Hacc|(i' & Hi' & Ht & Hp & Hid)].
      * left. destruct (tokens !! i) as [u|]; [|done].
        destruct (tokens !! (i + 1)) as [u'|]; [|done].
        destruct (is_user_ident u && bool_decide (u' = "(")); [|done].
        apply elem_of_union. by right.
      * apply elem_of_cons in Hi' as [->|Hi'].
        -- left. rewrite Ht, Hp, Hid. cbn [andb].
           rewrite (bool_decide_eq_true_2 ("(" = "(")) by done.
           apply elem_of_union. left. by apply elem_of_singleton.
        -- right. exists i'. by split.
Qed.

(** X21: the calls of a file are the names that are no keyword and stand
    right before an opening parenthesis, and each of them is among the
    identifiers of the file. *)
Theorem extract_function_calls_spec (tokens : list string) :
  (∀ t, t ∈ extract_function_calls tokens
        ↔ is_user_ident t = true
          ∧ ∃ i, tokens !! i = Some t ∧ tokens !! (i + 1) = Some "(")
  ∧ extract_function_calls tokens ⊆ extract_identifiers tokens.
Proof.
  assert (∀ t, t ∈ extract_function_calls tokens
               ↔ is_user_ident t = true
                 ∧ ∃ i, tokens !! i = Some t ∧ tokens !! (i + 1) = Some "(")
    as Hspec.
  { intros t. unfold extract_function_calls. rewrite calls_fold. split.
    - intros [Hemp|(i & _ & Ht & Hp & Hid)]; [by apply elem_of_empty in Hemp|].
      split; [done|]. by exists i.
    - intros (Hid & i & Ht & Hp). right. exists i. split_and!; [|done..].
      apply elem_of_seq. apply lookup_lt_Some in Hp. lia. }
  split; [exact Hspec|].
  intros t (Hid & i & Ht & _)%Hspec. unfold extract_identifiers.
  apply elem_of_list_to_set, list_elem_of_In, filter_In. split; [|done].
  apply list_elem_of_In. by eapply list_elem_of_lookup_2.
Qed.

(** The symbols of the control stream. *)
Lemma emit_alphabet (t x : string) :
  emit t = Some x →
  x ∈ ["IF"; "ELSE"; "FOR"; "WHILE"; "DO"; "SWITCH"; "CASE"; "DEFAULT";
       "RETURN"; "BREAK"; "CONTINUE"; "BRACE{"; "BRACE}"; "SEMI"].
Proof.
  unfold emit. destruct (map_ctrl !! Str.lower t) as [tag|] eqn:Htag.
  - intros [= <-]. unfold map_ctrl in Htag.
    apply elem_of_list_to_map_2 in Htag.
    repeat (apply elem_of_cons in Htag as [Heq|Htag];
            [injection Heq as _ <-; repeat first [by left | right]|]).
    by apply elem_of_nil in Htag.
  - case_bool_decide as Hbrace.
    + intros [= <-].
      apply elem_of_union in Hbrace as [->%elem_of_singleton | ->%elem_of_singleton];
        repeat first [by left | right].
    + case_bool_decide as Hsemi; [|done]. intros [= <-].
      repeat first [by left | right].
Qed.

Lemma compress_step_length (comp : list string) (s : string) :
  length (compress_step comp s) ≤ S (length comp).
Proof.
  unfold compress_step. destruct (last comp) as [s'|].
  - case_bool_decide; rewrite ?length_app; cbn [length]; lia.
  - rewrite length_app. cbn [length]. lia.
Qed.

Lemma compress_from_length (stream comp : list string) :
  length (fold_left compress_step stream comp) ≤ length comp + length stream.
Proof.
  revert comp. induction stream as [|s stream IH]; intros comp; cbn [fold_left length].
  - lia.
  - pose proof (IH (compress_step comp s)).
    pose proof (compress_step_length comp s). lia.
Qed.

Lemma omap_length_le {A B} (f : A → option B) (l : list A) :
  length (omap f l) ≤ length l.
Proof.
  induction l as [|x l IH]; [done|]. cbn [omap list_omap length].
  destruct (f x); cbn [length]; lia.
Qed.

(** X22: the control stream of a file is written with fourteen symbols,
    the tags of the eleven control keywords, the two braces and the
    semicolon, and is no longer than the token list. *)
Theorem control_stream_alphabet (tokens : list string) :
  Forall (fun x => x ∈ ["IF"; "ELSE"; "FOR"; "WHILE"; "DO"; "SWITCH"; "CASE";
                         "DEFAULT"; "RETURN"; "BREAK"; "CONTINUE"; "BRACE{";
                         "BRACE}"; "SEMI"])
         (control_stream tokens)
  ∧ length (control_stream tokens) ≤ length tokens.
Proof.
  unfold control_stream. rewrite raw_stream_omap. split.
  - apply Forall_forall. intros x Hx.
    apply (proj1 (compress_elem _ _)) in Hx.
    apply list_elem_of_omap in Hx as (t & _ & Ht). by eapply emit_alphabet.
  - unfold compress.
    pose proof (compress_from_length (omap emit tokens) []) as Hlen.
    pose proof (omap_length_le emit tokens). cbn [length] in Hlen. lia.
Qed.

(** ** Identifier normalisation as a renaming *)

Lemma pretty_N_go_digits (x : N) (s : string) :
  Str.forallb Char.is_digit s = true →
  Str.forallb Char.is_digit (pretty_N_go x s) = true.
Proof.
  revert s. induction (N.lt_wf_0 x) as [x _ IH]; intros s Hs.
  destruct (decide (0 < x)%N) as [Hpos|Hzero].
  - rewrite pretty_N_go_step by done. apply IH.
    + by apply N.div_lt.
    + cbn [Str.forallb]. rewrite Hs, andb_true_r.
      assert (x `mod` 10 < 10)%N as Hlt by by apply N.mod_lt.
      unfold pretty_N_char.
      destruct (x `mod` 10)%N as [|p]; [done|].
      do 4 (destruct p as [p|p|]; try done).
  - assert (x = 0%N) as -> by lia. by rewrite pretty_N_go_0.
Qed.

Lemma of_nat_digits (n : nat) : Str.forallb Char.is_digit (Str.of_nat n) = true.
Proof.
  unfold Str.of_nat, pretty, pretty_nat, pretty, pretty_N.
  case_decide; [done|]. by apply pretty_N_go_digits.
Qed.

Lemma digits_ident_chars (s : string) :
  Str.forallb Char.is_digit s = true → Str.forallb Char.is_ident_char s = true.
Proof.
  induction s as [|c s IH]; [done|]. cbn [Str.forallb].
  intros [Hc Hs]%andb_true_iff. rewrite (IH Hs), andb_true_r.
  unfold Char.is_ident_char. by rewrite Hc, orb_true_r.
Qed.

(** An alias is an identifier and no keyword. *)
Lemma alias_user_ident (n : nat) :
  is_user_ident ("ID" +:+ Str.of_nat n) = true.
Proof.
  unfold is_user_ident. apply andb_true_iff. split.
  - change ("ID" +:+ Str.of_nat n) with (String "I" (String "D" (Str.of_nat n))).
    cbn [is_identifier Str.forallb].
    by rewrite (digits_ident_chars _ (of_nat_digits n)).
  - apply negb_true_iff, bool_decide_eq_false_2.
    unfold C_KEYWORDS. rewrite elem_of_list_to_set.
    change ("ID" +:+ Str.of_nat n) with (String "I" (String "D" (Str.of_nat n))).
    intros Hin.
    repeat (apply elem_of_cons in Hin as [Hin|Hin]; [discriminate Hin|]).
    by apply elem_of_nil in Hin.
Qed.

Lemma alias_inj (n m : nat) :
  "ID" +:+ Str.of_nat n = "ID" +:+ Str.of_nat m → n = m.
Proof.
  change ("ID" +:+ Str.of_nat n) with (String "I" (String "D" (Str.of_nat n))).
  change ("ID" +:+ Str.of_nat m) with (String "I" (String "D" (Str.of_nat m))).
  intros [= H]. by apply (inj pretty) in H.
Qed.

Lemma rename_ext (ρ ρ' : string → string) (l : list string) :
  (∀ t, t ∈ l → is_user_ident t = true → ρ t = ρ' t) →
  rename ρ l = rename ρ' l.
Proof.
  intros Hext. unfold rename. apply list_fmap_ext. intros i t Ht.
  destruct (is_user_ident t) eqn:Hid; [|done].
  apply Hext; [|done]. by eapply list_elem_of_lookup_2.
Qed.

Lemma rename_snoc (ρ : string → string) (l : list string) (t : string) :
  rename ρ (l ++ [t])
  = rename ρ l ++ [if is_user_ident t then ρ t else t].
Proof. unfold rename. by rewrite fmap_app. Qed.

Lemma norm_step_inv (pre : list string) (t : string)
  (st : gmap string string * list string * nat) :
  norm_inv pre st → norm_inv (pre ++ [t]) (norm_step st t).
Proof.
  destruct st as [[m out] nxt]. intros (Hout & Hnxt & Hdom & Halias & Hinj).
  unfold norm_step. destruct (is_user_ident t) eqn:Hid.
  - destruct (m !! t) as [a|] eqn:Hlook.
    + split_and!; [|done| |done|done].
      * rewrite rename_snoc, Hid, Hout. do 2 f_equal.
        unfold alias_of. by rewrite Hlook.
      * intros u [Hu | ->%list_elem_of_singleton]%elem_of_app Hidu;
          [by apply Hdom|by rewrite Hlook].
    + split_and!; [|lia|..].
      * rewrite rename_snoc, Hid, Hout. f_equal.
        -- apply rename_ext. intros u Hu Hidu. unfold alias_of.
           rewrite lookup_insert_ne; [done|]. intros <-.
           destruct (Hdom t Hu Hidu) as [a Ha]. congruence.
        -- unfold alias_of. by rewrite lookup_insert_eq.
      * intros u [Hu | ->%list_elem_of_singleton]%elem_of_app Hidu.
        -- destruct (decide (t = u)) as [->|Hne];
             [by rewrite lookup_insert_eq|].
           rewrite lookup_insert_ne by done. by apply Hdom.
        -- by rewrite lookup_insert_eq.
      * intros u a. destruct (decide (t = u)) as [->|Hne].
        -- rewrite lookup_insert_eq. intros [= <-]. exists nxt. split; [lia|done].
        -- rewrite lookup_insert_ne by done. intros Ha.
           destruct (Halias u a Ha) as (n & Hn & ->). exists n. split; [lia|done].
      * intros u v a.
        destruct (decide (u = t)) as [->|Hu]; destruct (decide (v = t)) as [->|Hv];
          rewrite ?lookup_insert_eq, ?lookup_insert_ne by done.
        -- done.
        -- intros [= <-] Hv'. destruct (Halias v _ Hv') as (n & Hn & Heq).
           apply alias_inj in Heq. lia.
        -- intros Hu' [= <-]. destruct (Halias u _ Hu') as (n & Hn & Heq).
           apply alias_inj in Heq. lia.
        -- apply Hinj.
  - split_and!; [|done| |done|done].
    + by rewrite rename_snoc, Hid, Hout.
    + intros u [Hu | ->%list_elem_of_singleton]%elem_of_app Hidu;
        [by apply Hdom|congruence].
Qed.

Lemma norm_fold_inv (l pre : list string)
  (st : gmap string string * list string * nat) :
  norm_inv pre st → norm_inv (pre ++ l) (fold_left norm_step l st).
Proof.
  revert pre st. induction l as [|t l IH]; intros pre st Hinv.
  - by rewrite app_nil_r.
  - cbn [fold_left]. rewrite (assoc_L (++) pre [t] l : pre ++ t :: l = _) .
    apply IH. by apply norm_step_inv.
Qed.

(** The normalisation is a renaming of the identifiers that are no
    keywords into aliases, one alias for each. *)
Lemma normalize_is_rename (tokens : list string) :
  ∃ ρ : string → string,
    normalize_identifiers tokens = rename ρ tokens
    ∧ (∀ t, t ∈ tokens → is_user_ident t = true →
            ∃ n, 1 ≤ n ∧ ρ t = "ID" +:+ Str.of_nat n)
    ∧ (∀ t u, t ∈ tokens → u ∈ tokens →
              is_user_ident t = true → is_user_ident u = true →
              ρ t = ρ u → t = u).
Proof.
  pose proof (norm_fold_inv tokens [] (∅, [], 1)) as Hinv.
  unfold normalize_identifiers.
  destruct (fold_left norm_step tokens (∅, [], 1)) as [[m out] nxt].
  destruct Hinv as (Hout & Hnxt & Hdom & Halias & Hinj).
  { split_and!; [done|lia|by intros t ?%elem_of_nil|..];
      intros *; by rewrite lookup_empty. }
  rewrite app_nil_l in Hout, Hdom.
  exists (alias_of m). split_and!; [done|..].
  - intros t Ht Hid. destruct (Hdom t Ht Hid) as [a Ha].
    destruct (Halias t a Ha) as (n & Hn & ->). exists n.
    split; [lia|]. unfold alias_of. by rewrite Ha.
  - intros t u Ht Hu Hidt Hidu. unfold alias_of.
    destruct (Hdom t Ht Hidt) as [a Ha]. destruct (Hdom u Hu Hidu) as [b Hb].
    rewrite Ha, Hb. cbn. intros <-. by eapply Hinj.
Qed.

(** X23: the normalisation keeps the number of tokens and every token
    that is a keyword or no identifier; an identifier that is no keyword
    becomes an alias [IDn] with [n] from 1, itself an identifier and no
    keyword, and two of them get the same alias exactly when they are
    the same name. *)
Theorem normalize_identifiers_positions (tokens : list string) :
  let out := normalize_identifiers tokens in
  length out = length tokens
  ∧ (∀ i t, tokens !! i = Some t → is_user_ident t = false →
            out !! i = Some t)
  ∧ (∀ i t, tokens !! i = Some t → is_user_ident t = true →
            ∃ n, 1 ≤ n ∧ out !! i = Some ("ID" +:+ Str.of_nat n)
                 ∧ is_user_ident ("ID" +:+ Str.of_nat n) = true)
  ∧ (∀ i j t u, tokens !! i = Some t → tokens !! j = Some u →
                is_user_ident t = true → is_user_ident u = true →
                (out !! i = out !! j ↔ t = u)).
Proof.
  intros out. unfold out.
  destruct (normalize_is_rename tokens) as (ρ & -> & Halias & Hinj).
  unfold rename. split_and!.
  - by rewrite length_fmap.
  - intros i t Ht Hid. by rewrite list_lookup_fmap, Ht; cbn; rewrite Hid.
  - intros i t Ht Hid.
    destruct (Halias t (list_elem_of_lookup_2 _ _ _ Ht) Hid) as (n & Hn & Hρ).
    exists n. split_and!; [done| |apply alias_user_ident].
    by rewrite list_lookup_fmap, Ht; cbn; rewrite Hid, Hρ.
  - intros i j t u Ht Hu Hidt Hidu.
    rewrite !list_lookup_fmap, Ht, Hu. cbn. rewrite Hidt, Hidu. split.
    + intros [= Heq]. apply Hinj; [by eapply list_elem_of_lookup_2..|done|done|done].
    + by intros ->.
Qed.

(** X24: normalising twice is normalising once. *)
Theorem normalize_identifiers_idempotent (tokens : list string) :
  normalize_identifiers (normalize_identifiers tokens)
  = normalize_identifiers tokens.
Proof.
  destruct (normalize_is_rename tokens) as (ρ & Hren & Halias & Hinj).
  rewrite Hren at 1. apply normalize_rename; [|done].
  intros t Ht Hid. destruct (Halias t Ht Hid) as (n & _ & ->).
  apply alias_user_ident.
Qed.

(** ** The shape of the tokens *)

Lemma forallb_app (p : ascii → bool) (a b : string) :
  Str.forallb p (a +:+ b) = Str.forallb p a && Str.forallb p b.
Proof.
  induction a as [|c a IH]; [done|].
  change (String c a +:+ b) with (String c (a +:+ b)). cbn [Str.forallb].
  by rewrite IH, andb_assoc.
Qed.

Lemma forallb_impl (p q : ascii → bool) (s : string) :
  (∀ c, p c = true → q c = true) →
  Str.forallb p s = true → Str.forallb q s = true.
Proof.
  intros Himpl. induction s as [|c s IH]; [done|]. cbn [Str.forallb].
  intros [Hc Hs]%andb_true_iff. by rewrite (Himpl c Hc), (IH Hs).
Qed.

Lemma span_forallb (p : ascii → bool) (s a b : string) :
  Str.span p s = (a, b) → Str.forallb p a = true.
Proof.
  revert a b. induction s as [|c s IH]; intros a b; cbn [Str.span].
  - by intros [= <- <-].
  - destruct (p c) eqn:Hc; [|by intros [= <- <-]].
    destruct (Str.span p s) as [a' b'] eqn:Hspan.
    intros [= <- <-]. cbn [Str.forallb]. by rewrite Hc, (IH a' b').
Qed.

Lemma ident_start_token_char (c : ascii) :
  Char.is_ident_start c = true → token_char c = true.
Proof.
  intros Hc. unfold token_char, Char.is_ident_char. by rewrite Hc.
Qed.

Lemma ident_char_token_char (c : ascii) :
  Char.is_ident_char c = true → token_char c = true.
Proof. intros Hc. unfold token_char. by rewrite Hc. Qed.

Lemma digit_token_char (c : ascii) :
  Char.is_digit c = true → token_char c = true.
Proof.
  intros Hc. unfold token_char, Char.is_ident_char.
  by rewrite Hc, orb_true_r.
Qed.

Lemma hex_token_char (c : ascii) :
  Char.is_hex c = true → token_char c = true.
Proof.
  destruct c as [[] [] [] [] [] [] [] []]; vm_compute; congruence.
Qed.

(** A match of [TOKEN_RE] is not empty and holds only characters of
    identifiers and punctuation. *)
Lemma token_at_chars (s t rest : string) :
  Lexer.token_at s = Some (t, rest) →
  t ≠ "" ∧ Str.forallb token_char t = true.
Proof.
  unfold Lexer.token_at, Lexer.first_of. cbn [fold_right].
  destruct (Lexer.ident s) as [[t1 r1]|] eqn:Hident.
  { intros [= <- <-]. unfold Lexer.ident in Hident.
    destruct s as [|c s]; [done|].
    destruct (Char.is_ident_start c) eqn:Hc; [|done].
    destruct (Str.span _ s) as [a b] eqn:Hspan. injection Hident as <- <-.
    split; [done|]. cbn [Str.forallb].
    rewrite (ident_start_token_char c Hc). cbn [andb].
    eapply forallb_impl; [apply ident_char_token_char|].
    by eapply span_forallb. }
  destruct (Lexer.hex s) as [[t2 r2]|] eqn:Hhex.
  { intros [= <- <-]. unfold Lexer.hex in Hhex.
    destruct s as [|c0 [|c1 s]]; [done|by destruct c0 as [[] [] [] [] [] [] [] []]|].
    destruct (Str.span Char.is_hex s) as [a b] eqn:Hspan.
    apply span_forallb in Hspan.
    apply (forallb_impl _ _ _ hex_token_char) in Hspan.
    destruct c0 as [[] [] [] [] [] [] [] []]; try done;
      destruct c1 as [[] [] [] [] [] [] [] []]; try done;
      destruct a; try done; injection Hhex as <- <-;
      (split; [done|]);
      change ("0x" +:+ String a a0) with (String "0" (String "x" (String a a0)));
      cbn [Str.forallb] in *; by rewrite Hspan. }
  destruct (Lexer.number s) as [[t3 r3]|] eqn:Hnum.
  { intros [= <- <-]. unfold Lexer.number in Hnum.
    destruct (Str.span Char.is_digit s) as [a b] eqn:Hspan.
    apply span_forallb in Hspan.
    apply (forallb_impl _ _ _ digit_token_char) in Hspan.
    destruct a as [|d a].
    - destruct s as [|c s]; [done|].
      destruct (Str.span Char.is_digit s) as [a' b'] eqn:Hspan'.
      apply span_forallb in Hspan'.
      apply (forallb_impl _ _ _ digit_token_char) in Hspan'.
      destruct c as [[] [] [] [] [] [] [] []]; try done;
        destruct a'; try done; injection Hnum as <- <-;
        (split; [done|]); cbn [Str.forallb] in *; by rewrite Hspan'.
    - destruct b as [|c b]; [injection Hnum as <- <-; by split|].
      destruct (Str.span Char.is_digit b) as [f b'] eqn:Hspan'.
      apply span_forallb in Hspan'.
      apply (forallb_impl _ _ _ digit_token_char) in Hspan'.
      destruct c as [[] [] [] [] [] [] [] []];
        injection Hnum as <- <-; (split; [done|]); try done.
      rewrite !forallb_app, Hspan, Hspan'. done. }
  destruct (Lexer.operator s) as [[t4 r4]|] eqn:Hop.
  { intros [= <- <-]. unfold Lexer.operator in Hop.
    destruct s as [|c0 [|c1 s]]; [done..|].
    case_bool_decide as Hin; [|done]. injection Hop as <- <-.
    split; [done|]. unfold Lexer.operators in Hin.
    repeat (apply elem_of_cons in Hin as [Hin|Hin];
            [injection Hin as -> ->; reflexivity|]).
    by apply elem_of_nil in Hin. }
  unfold Lexer.punct. destruct s as [|c s]; [done|].
  destruct (Str.contains _ _) eqn:Hp; [|done]. intros [= <- <-].
  split; [done|]. cbn [Str.forallb]. unfold token_char, is_punct.
  by rewrite Hp, orb_true_r.
Qed.

Lemma finditer_chars (fuel : nat) (s : string) :
  Forall (fun t => t ≠ "" ∧ Str.forallb token_char t = true)
         (Lexer.finditer fuel s).
Proof.
  revert s. induction fuel as [|fuel IH]; intros s; [constructor|].
  cbn [Lexer.finditer]. destruct s as [|c s]; [constructor|].
  destruct (Lexer.token_at (String c s)) as [[t rest]|] eqn:Htok; [|apply IH].
  constructor; [by eapply token_at_chars|apply IH].
Qed.

Lemma token_char_allowed (c : ascii) :
  token_char c = true → never_in_token c = false.
Proof.
  destruct c as [[] [] [] [] [] [] [] []]; vm_compute; congruence.
Qed.

(** X25: no token is empty, and no token holds a white-space character
    or an ASCII character other than the letters, the digits, the
    underscore and the punctuation of the last alternative of the
    pattern: quotes, the backslash, [#], [$], [@], the backquote and the
    control characters are in no token. *)
Theorem tokenize_token_chars (code : string) :
  Forall (fun t => t ≠ ""
                   ∧ Str.forallb (fun c => negb (never_in_token c)) t = true)
         (tokenize code).
Proof.
  unfold tokenize.
  eapply Forall_impl; [apply finditer_chars|].
  intros t [Hne Hchars]. split; [done|].
  eapply forallb_impl; [|exact Hchars].
  intros c Hc. by rewrite (token_char_allowed c Hc).
Qed.

(** ** White space between tokens *)

Section Separator.
Variable c : ascii.
Variable b : string.
Hypothesis c_space : Char.is_space c = true.

Lemma span_app_stop (p : ascii → bool) (s : string) :
  p c = false →
  Str.span p (s +:+ String c b)
  = ((Str.span p s).1, (Str.span p s).2 +:+ String c b).
Proof.
  intros Hp. induction s as [|x s IH].
  - change ("" +:+ String c b) with (String c b). cbn [Str.span].
    by rewrite Hp.
  - change (String x s +:+ String c b) with (String x (s +:+ String c b)).
    cbn [Str.span]. destruct (p x); [|done].
    rewrite IH. by destruct (Str.span p s).
Qed.

Lemma space_not_ident_char : Char.is_ident_char c = false.
Proof.
  clear b. revert c_space.
  destruct c as [[] [] [] [] [] [] [] []]; vm_compute; congruence.
Qed.

Lemma space_not_hex : Char.is_hex c = false.
Proof.
  clear b. revert c_space.
  destruct c as [[] [] [] [] [] [] [] []]; vm_compute; congruence.
Qed.

Lemma space_not_digit : Char.is_digit c = false.
Proof.
  clear b. revert c_space.
  destruct c as [[] [] [] [] [] [] [] []]; vm_compute; congruence.
Qed.

Lemma ident_app (x : ascii) (s : string) :
  Lexer.ident (String x s +:+ String c b) = push (String c b) (Lexer.ident (String x s)).
Proof.
  change (String x s +:+ String c b) with (String x (s +:+ String c b)).
  unfold Lexer.ident. destruct (Char.is_ident_start x); [|done].
  rewrite (span_app_stop _ _ space_not_ident_char).
  by destruct (Str.span Char.is_ident_char s).
Qed.

Lemma hex_unfold (x y : ascii) (s : string) :
  Lexer.hex (String x (String y s))
  = if Ascii.eqb x "0" && Ascii.eqb y "x" then
      match Str.span Char.is_hex s with
      | (EmptyString, _) => None
      | (a, r) => Some ("0x" +:+ a, r)
      end
    else None.
Proof.
  unfold Lexer.hex.
  destruct x as [[] [] [] [] [] [] [] []]; try reflexivity.
  destruct y as [[] [] [] [] [] [] [] []]; reflexivity.
Qed.

Lemma hex_short (x : ascii) : Lexer.hex (String x "") = None.
Proof. by destruct x as [[] [] [] [] [] [] [] []]. Qed.

Lemma space_not_x : Ascii.eqb c "x" = false.
Proof.
  clear b. revert c_space.
  destruct c as [[] [] [] [] [] [] [] []]; vm_compute; congruence.
Qed.

Lemma hex_app (x : ascii) (s : string) :
  Lexer.hex (String x s +:+ String c b) = push (String c b) (Lexer.hex (String x s)).
Proof.
  destruct s as [|y s].
  - change (String x "" +:+ String c b) with (String x (String c b)).
    by rewrite hex_unfold, hex_short, space_not_x, andb_false_r.
  - change (String x (String y s) +:+ String c b)
      with (String x (String y (s +:+ String c b))).
    rewrite !hex_unfold. destruct (Ascii.eqb x "0" && Ascii.eqb y "x"); [|done].
    rewrite (span_app_stop _ _ space_not_hex).
    destruct (Str.span Char.is_hex s) as [[|a0 a] r]; done.
Qed.

Lemma number_unfold (s : string) :
  Lexer.number s
  = match Str.span Char.is_digit s with
    | (EmptyString, _) =>
        match s with
        | String d s' =>
            if Ascii.eqb d "." then
              match Str.span Char.is_digit s' with
              | (EmptyString, _) => None
              | (a, r) => Some (String "." a, r)
              end
            else None
        | EmptyString => None
        end
    | (a, String d s') =>
        if Ascii.eqb d "." then
          let '(f, r) := Str.span Char.is_digit s' in Some (a +:+ "." +:+ f, r)
        else Some (a, String d s')
    | (a, EmptyString) => Some (a, EmptyString)
    end.
Proof.
  unfold Lexer.number.
  destruct (Str.span Char.is_digit s) as [[|a0 a] r].
  - destruct s as [|d s']; [done|].
    by destruct d as [[] [] [] [] [] [] [] []].
  - destruct r as [|d s']; [done|].
    by destruct d as [[] [] [] [] [] [] [] []].
Qed.

Lemma space_not_zero : Ascii.eqb c "0" = false.
Proof.
  clear b. revert c_space.
  destruct c as [[] [] [] [] [] [] [] []]; vm_compute; congruence.
Qed.

Lemma space_not_punct :
  Str.contains (String c "") Lexer.punctuation = false.
Proof.
  clear b. revert c_space.
  destruct c as [[] [] [] [] [] [] [] []]; vm_compute; congruence.
Qed.

Lemma space_not_dot : Ascii.eqb c "." = false.
Proof.
  clear b. revert c_space.
  destruct c as [[] [] [] [] [] [] [] []]; vm_compute; congruence.
Qed.

Lemma number_app (x : ascii) (s : string) :
  Lexer.number (String x s +:+ String c b) = push (String c b) (Lexer.number (String x s)).
Proof.
  rewrite !number_unfold.
  rewrite (span_app_stop _ _ space_not_digit).
  destruct (Str.span Char.is_digit (String x s)) as [[|a0 a] r] eqn:Hspan;
    cbn [fst snd].
  - destruct r as [|d r'].
    + apply span_length in Hspan. cbn [String.length] in Hspan. lia.
    + change (String d r' +:+ String c b) with (String d (r' +:+ String c b)).
      change (String x s +:+ String c b) with (String x (s +:+ String c b)).
      cbv beta iota. destruct (Ascii.eqb x "."); [|done].
      rewrite (span_app_stop _ _ space_not_digit).
      by destruct (Str.span Char.is_digit s) as [[|f0 f] r''].
  - destruct r as [|d r'].
    + change ("" +:+ String c b) with (String c b). cbv beta iota.
      by rewrite space_not_dot.
    + change (String d r' +:+ String c b) with (String d (r' +:+ String c b)).
      cbv beta iota. destruct (Ascii.eqb d "."); [|done].
      rewrite (span_app_stop _ _ space_not_digit).
      by destruct (Str.span Char.is_digit r').
Qed.

Lemma operator_space_second (x : ascii) :
  bool_decide (String x (String c "") ∈ Lexer.operators) = false.
Proof.
  apply bool_decide_eq_false_2. unfold Lexer.operators. intros Hin.
  pose proof c_space as Hc.
  repeat (apply elem_of_cons in Hin as [Hin|Hin];
          [injection Hin as _ ->; discriminate Hc|]).
  by apply elem_of_nil in Hin.
Qed.

Lemma operator_space_first (y : ascii) :
  bool_decide (String c (String y "") ∈ Lexer.operators) = false.
Proof.
  apply bool_decide_eq_false_2. unfold Lexer.operators. intros Hin.
  pose proof c_space as Hc.
  repeat (apply elem_of_cons in Hin as [Hin|Hin];
          [injection Hin as -> ->; discriminate Hc|]).
  by apply elem_of_nil in Hin.
Qed.

Lemma operator_app (x : ascii) (s : string) :
  Lexer.operator (String x s +:+ String c b)
  = push (String c b) (Lexer.operator (String x s)).
Proof.
  destruct s as [|y s].
  - change (String x "" +:+ String c b) with (String x (String c b)).
    unfold Lexer.operator. by rewrite operator_space_second.
  - change (String x (String y s) +:+ String c b)
      with (String x (String y (s +:+ String c b))).
    unfold Lexer.operator. by case_bool_decide.
Qed.

Lemma punct_app (x : ascii) (s : string) :
  Lexer.punct (String x s +:+ String c b) = push (String c b) (Lexer.punct (String x s)).
Proof.
  change (String x s +:+ String c b) with (String x (s +:+ String c b)).
  unfold Lexer.punct. by destruct (Str.contains _ _).
Qed.

Lemma token_at_app (x : ascii) (s : string) :
  Lexer.token_at (String x s +:+ String c b)
  = push (String c b) (Lexer.token_at (String x s)).
Proof.
  unfold Lexer.token_at, Lexer.first_of. cbn [fold_right].
  rewrite ident_app, hex_app, number_app, operator_app, punct_app.
  destruct (Lexer.ident (String x s)) as [[? ?]|]; [done|].
  destruct (Lexer.hex (String x s)) as [[? ?]|]; [done|].
  destruct (Lexer.number (String x s)) as [[? ?]|]; [done|].
  destruct (Lexer.operator (String x s)) as [[? ?]|]; [done|].
  by destruct (Lexer.punct (String x s)) as [[? ?]|].
Qed.

Lemma token_at_space : Lexer.token_at (String c b) = None.
Proof.
  unfold Lexer.token_at, Lexer.first_of. cbn [fold_right].
  assert (Lexer.ident (String c b) = None) as ->.
  { unfold Lexer.ident.
    assert (Char.is_ident_start c = false) as ->; [|done].
    pose proof space_not_ident_char as H. unfold Char.is_ident_char in H.
    by apply orb_false_iff in H as [? _]. }
  assert (Lexer.hex (String c b) = None) as ->.
  { destruct b as [|y s]; [apply hex_short|]. rewrite hex_unfold.
    by rewrite space_not_zero. }
  assert (Lexer.number (String c b) = None) as ->.
  { rewrite number_unfold. cbn [Str.span].
    by rewrite space_not_digit, space_not_dot. }
  assert (Lexer.operator (String c b) = None) as ->.
  { unfold Lexer.operator. destruct b as [|y s]; [done|].
    by rewrite operator_space_first. }
  unfold Lexer.punct.
  by rewrite space_not_punct.
Qed.

Lemma finditer_app (fuel : nat) (s : string) :
  String.length s ≤ fuel →
  Lexer.finditer (fuel + S (String.length b)) (s +:+ String c b)
  = Lexer.finditer fuel s ++ Lexer.finditer (String.length b) b.
Proof.
  revert s. induction fuel as [|fuel IH]; intros s Hlen.
  - destruct s as [|x s]; [|cbn [String.length] in Hlen; lia].
    change ("" +:+ String c b) with (String c b).
    cbn [Nat.add Lexer.finditer]. by rewrite token_at_space.
  - destruct s as [|x s].
    + change ("" +:+ String c b) with (String c b).
      cbn [Nat.add Lexer.finditer]. rewrite token_at_space.
      apply finditer_enough; lia.
    + cbn [Nat.add]. cbn [Lexer.finditer]. rewrite token_at_app.
      change (String x s +:+ String c b) with (String x (s +:+ String c b)).
      cbn [String.length] in Hlen.
      destruct (Lexer.token_at (String x s)) as [[t rest]|] eqn:Htok;
        cbn [push fmap option_fmap option_map fst snd].
      * apply token_at_shorter in Htok. cbn [String.length] in Htok.
        rewrite IH by lia. done.
      * rewrite IH by lia. done.
Qed.

End Separator.

Lemma string_length_app (a b : string) :
  String.length (a +:+ b) = String.length a + String.length b.
Proof.
  induction a as [|x a IH]; [done|].
  change (String x a +:+ b) with (String x (a +:+ b)).
  cbn [String.length]. by rewrite IH.
Qed.

(** X26: white space separates tokens: the tokens of two texts joined by
    a white-space character are the tokens of the first followed by the
    tokens of the second. *)
Theorem tokenize_space_separates (a b : string) (c : ascii) :
  Char.is_space c = true →
  tokenize (a +:+ String c b) = tokenize a ++ tokenize b.
Proof.
  intros Hc. unfold tokenize.
  rewrite string_length_app. cbn [String.length].
  by apply finditer_app.
Qed.

Lemma tokenize_space_separates_witness :
  Char.is_space " " = true
  ∧ tokenize ("x1=" +:+ String " " "0x1F;") = tokenize "x1=" ++ tokenize "0x1F;".
Proof.
  assert (Char.is_space " " = true) as Hc by reflexivity.
  split; [exact Hc|].
  exact (tokenize_space_separates "x1=" "0x1F;" " " Hc).
Defined.

(** ** Masking of literals and comments *)

Lemma spaces_length (n : nat) : String.length (spaces n) = n.
Proof.
  induction n as [|n IH]; [done|]. cbn [spaces String.length]. by rewrite IH.
Qed.

Lemma literal_body_bounded (q : ascii) (k : nat) (s : string) (n : nat) :
  String.length s ≤ k →
  literal_body q s = Some n → 1 ≤ n ≤ String.length s.
Proof.
  revert s n. induction k as [|k IH]; intros s n Hk.
  - destruct s; [done|]. cbn [String.length] in Hk. lia.
  - destruct s as [|c s]; [done|]. cbn [literal_body String.length] in *.
    destruct (Ascii.eqb c q); [intros [= <-]; lia|].
    destruct (Char.has_code 92 c).
    + destruct s as [|d s]; [done|]. cbn [String.length] in *.
      destruct (literal_body q s) as [m|] eqn:Hm; [|done].
      intros [= <-]. apply IH in Hm; lia.
    + destruct (literal_body q s) as [m|] eqn:Hm; [|done].
      intros [= <-]. apply IH in Hm; lia.
Qed.

Lemma literal_body_le (q : ascii) (s : string) (n : nat) :
  literal_body q s = Some n → 1 ≤ n ≤ String.length s.
Proof. by apply (literal_body_bounded q (String.length s)). Qed.

Lemma comment_body_le (s : string) (n : nat) :
  comment_body s = Some n → 2 ≤ n ≤ String.length s.
Proof.
  revert n. induction s as [|c s IH]; intros n; [done|].
  cbn [comment_body].
  destruct (String.prefix "*/" (String c s)) eqn:Hp.
  - intros [= <-]. destruct s as [|d s]; cbn [String.length]; [|lia].
    by destruct c as [[] [] [] [] [] [] [] []].
  - destruct (comment_body s) as [m|]; [|done]. intros [= <-].
    specialize (IH m eq_refl). cbn [String.length]. lia.
Qed.

Lemma masked_refl (s : string) : masked s s = true.
Proof.
  induction s as [|c s IH]; [done|]. cbn [masked].
  by rewrite Ascii.eqb_refl, IH.
Qed.

Lemma masked_length (s m : string) :
  masked s m = true → String.length m = String.length s.
Proof.
  revert m. induction s as [|c s IH]; intros [|d m]; try done.
  cbn [masked String.length]. intros [_ H]%andb_true_iff. by rewrite (IH m H).
Qed.

Lemma masked_trans (s m m' : string) :
  masked s m = true → masked m m' = true → masked s m' = true.
Proof.
  revert m m'. induction s as [|c s IH]; intros [|d m] [|e m']; try done.
  cbn [masked]. intros [H1 H2]%andb_true_iff [H3 H4]%andb_true_iff.
  rewrite (IH m m' H2 H4), andb_true_r.
  apply orb_true_iff in H1 as [->%Ascii.eqb_eq | ->%Ascii.eqb_eq]; [done|].
  apply orb_true_iff in H3 as [->%Ascii.eqb_eq | ->%Ascii.eqb_eq];
    by rewrite orb_true_r.
Qed.

Lemma masked_cons (c : ascii) (s m : string) :
  masked s m = true → masked (String c s) (String c m) = true.
Proof. intros H. cbn [masked]. by rewrite Ascii.eqb_refl, H. Qed.

(** A prefix replaced by spaces. *)
Lemma masked_spaces (n : nat) (s m : string) :
  n ≤ String.length s → masked (Str.drop n s) m = true →
  masked s (spaces n +:+ m) = true.
Proof.
  revert s. induction n as [|n IH]; intros s Hn Hm.
  - change (spaces 0 +:+ m) with m. by destruct s.
  - destruct s as [|c s]; [cbn [String.length] in Hn; lia|].
    cbn [String.length] in Hn. cbn [Str.drop] in Hm.
    change (spaces (S n) +:+ m) with (String " " (spaces n +:+ m)).
    cbn [masked]. rewrite (IH s) by (done || lia).
    by rewrite orb_true_r.
Qed.

Lemma mask_literals_masked (fuel : nat) (s : string) :
  masked s (mask_literals fuel s) = true.
Proof.
  revert s. induction fuel as [|fuel IH]; intros s; [apply masked_refl|].
  destruct s as [|c s]; [done|]. cbn [mask_literals].
  destruct (Char.has_code 34 c || Char.has_code 39 c);
    [|by apply masked_cons].
  destruct (literal_body c s) as [n|] eqn:Hn; [|by apply masked_cons].
  apply literal_body_le in Hn.
  apply masked_spaces; [cbn [String.length]; lia|]. apply IH.
Qed.

Lemma mask_block_comments_masked (fuel : nat) (s : string) :
  masked s (mask_block_comments fuel s) = true.
Proof.
  revert s. induction fuel as [|fuel IH]; intros s; [apply masked_refl|].
  destruct s as [|c s]; [done|]. cbn [mask_block_comments].
  destruct (String.prefix "/*" (String c s)) eqn:Hp; [|by apply masked_cons].
  destruct (comment_body (Str.drop 1 s)) as [n|] eqn:Hn;
    [|by apply masked_cons].
  apply comment_body_le in Hn.
  destruct s as [|d s]; [cbn [Str.drop String.length] in Hn; lia|].
  cbn [Str.drop] in Hn.
  apply masked_spaces; [cbn [String.length]; lia|]. apply IH.
Qed.

Lemma drop_line_comments_length (inside : bool) (s : string) :
  String.length (drop_line_comments inside s) ≤ String.length s.
Proof.
  revert inside. induction s as [|c s IH]; intros inside; [done|].
  cbn [drop_line_comments].
  destruct inside.
  - destruct (Char.has_code 10 c); cbn [String.length].
    + specialize (IH false). lia.
    + specialize (IH true). lia.
  - destruct (String.prefix "//" (String c s)); cbn [String.length].
    + specialize (IH true). lia.
    + specialize (IH false). lia.
Qed.

(** After the two masking passes every character is the one of the text
    or a space, so the text keeps its length; the pass that removes the
    line comments only shortens it. *)
Lemma masking_keeps_positions (code : string) :
  let lit := mask_literals (String.length code) code in
  let blk := mask_block_comments (String.length lit) lit in
  masked code blk = true
  ∧ String.length blk = String.length code
  ∧ String.length (strip_comments_and_strings code) ≤ String.length code.
Proof.
  intros lit blk.
  assert (masked code blk = true) as Hmask.
  { eapply masked_trans; [apply mask_literals_masked|].
    apply mask_block_comments_masked. }
  split_and!; [done|by apply masked_length|].
  unfold strip_comments_and_strings. fold lit. fold blk.
  rewrite <- (masked_length _ _ Hmask). apply drop_line_comments_length.
Qed.

(** What the line-comment pass gives starts with no slash after a
    comment, and with the first character of a text that starts with no
    slash. *)
Lemma drop_line_inside_head (s : string) :
  String.prefix "/" (drop_line_comments true s) = false.
Proof.
  induction s as [|c s IH]; [done|]. cbn [drop_line_comments].
  destruct (Char.has_code 10 c) eqn:Hc; [|done].
  by destruct c as [[] [] [] [] [] [] [] []].
Qed.

Lemma prefix_slash (c : ascii) (s : string) :
  String.prefix "/" (String c s) = Ascii.eqb c "/".
Proof.
  cbn [String.prefix].
  destruct (ascii_dec "/" c) as [<-|Hne]; [by destruct s|].
  symmetry. apply Ascii.eqb_neq. congruence.
Qed.

Lemma prefix_slash_slash (c : ascii) (s : string) :
  String.prefix "//" (String c s) = Ascii.eqb c "/" && String.prefix "/" s.
Proof.
  cbn [String.prefix].
  destruct (ascii_dec "/" c) as [<-|Hne]; [done|].
  symmetry. apply andb_false_iff. left. apply Ascii.eqb_neq. congruence.
Qed.

Lemma drop_line_outside_head (s : string) :
  String.prefix "/" s = false →
  String.prefix "/" (drop_line_comments false s) = false.
Proof.
  destruct s as [|c s]; [done|]. rewrite prefix_slash. intros Hc.
  cbn [drop_line_comments]. rewrite prefix_slash_slash, Hc. cbn [andb].
  by rewrite prefix_slash.
Qed.

Lemma contains_cons (pat : string) (c : ascii) (s : string) :
  Str.contains pat (String c s)
  = String.prefix pat (String c s) || Str.contains pat s.
Proof. done. Qed.

Lemma drop_line_comments_clean (inside : bool) (s : string) :
  Str.contains "//" (drop_line_comments inside s) = false.
Proof.
  revert inside. induction s as [|c s IH]; intros inside; [by destruct inside|].
  cbn [drop_line_comments]. destruct inside.
  - destruct (Char.has_code 10 c) eqn:Hc; [|apply IH].
    rewrite contains_cons, IH, orb_false_r.
    by destruct c as [[] [] [] [] [] [] [] []].
  - rewrite prefix_slash_slash.
    destruct (Ascii.eqb c "/") eqn:Hc; cbn [andb].
    + destruct (String.prefix "/" s) eqn:Hs; [apply IH|].
      rewrite contains_cons, IH, orb_false_r, prefix_slash_slash, Hc.
      cbn [andb]. by apply drop_line_outside_head.
    + by rewrite contains_cons, IH, orb_false_r, prefix_slash_slash, Hc.
Qed.

(** X28: the cleaned text holds no [//]. *)
Theorem strip_leaves_no_line_comment (code : string) :
  Str.contains "//" (strip_comments_and_strings code) = false.
Proof. unfold strip_comments_and_strings. apply drop_line_comments_clean. Qed.

Lemma mask_literals_plain (fuel : nat) (s : string) :
  Str.forallb is_plain s = true → mask_literals fuel s = s.
Proof.
  revert s. induction fuel as [|fuel IH]; intros s; [done|].
  destruct s as [|c s]; [done|]. cbn [mask_literals Str.forallb].
  intros [Hc Hs]%andb_true_iff. unfold is_plain in Hc.
  apply negb_true_iff, orb_false_iff in Hc as [-> _]. by rewrite IH.
Qed.

Lemma plain_not_slash (c : ascii) : is_plain c = true → Ascii.eqb c "/" = false.
Proof. destruct c as [[] [] [] [] [] [] [] []]; vm_compute; congruence. Qed.

Lemma mask_block_comments_plain (fuel : nat) (s : string) :
  Str.forallb is_plain s = true → mask_block_comments fuel s = s.
Proof.
  revert s. induction fuel as [|fuel IH]; intros s; [done|].
  destruct s as [|c s]; [done|]. cbn [Str.forallb].
  intros [Hc Hs]%andb_true_iff. cbn [mask_block_comments].
  assert (String.prefix "/*" (String c s) = false) as ->.
  { apply plain_not_slash in Hc. by destruct c as [[] [] [] [] [] [] [] []]. }
  by rewrite IH.
Qed.

Lemma drop_line_comments_plain (s : string) :
  Str.forallb is_plain s = true → drop_line_comments false s = s.
Proof.
  induction s as [|c s IH]; [done|]. cbn [Str.forallb].
  intros [Hc Hs]%andb_true_iff. cbn [drop_line_comments].
  rewrite prefix_slash_slash, (plain_not_slash c Hc). cbn [andb].
  by rewrite IH.
Qed.

(** A text without a double quote, a single quote or a slash is returned
    as it is. *)
Lemma strip_plain_text (code : string) :
  Str.forallb is_plain code = true → strip_comments_and_strings code = code.
Proof.
  intros Hplain. unfold strip_comments_and_strings.
  rewrite (mask_literals_plain _ _ Hplain).
  rewrite (mask_block_comments_plain _ _ Hplain).
  by apply drop_line_comments_plain.
Qed.

Lemma drop_length (n : nat) (s : string) :
  String.length (Str.drop n s) = String.length s - n.
Proof.
  revert s. induction n as [|n IH]; intros s; cbn [Str.drop].
  - lia.
  - destruct s as [|c s]; [done|]. cbn [String.length]. by rewrite IH.
Qed.

(** The fuel the masking passes are given is enough. *)
Lemma mask_literals_enough (fuel1 fuel2 : nat) (s : string) :
  String.length s ≤ fuel1 → String.length s ≤ fuel2 →
  mask_literals fuel1 s = mask_literals fuel2 s.
Proof.
  revert fuel2 s. induction fuel1 as [|fuel1 IH]; intros fuel2 s H1 H2.
  - destruct s; [|cbn [String.length] in H1; lia]. by destruct fuel2.
  - destruct s as [|c s]; [by destruct fuel2|].
    destruct fuel2 as [|fuel2]; [cbn [String.length] in H2; lia|].
    cbn [String.length] in H1, H2. cbn [mask_literals].
    destruct (Char.has_code 34 c || Char.has_code 39 c);
      [|f_equal; apply IH; lia].
    destruct (literal_body c s) as [n|] eqn:Hn; [|f_equal; apply IH; lia].
    f_equal. apply IH; rewrite drop_length; lia.
Qed.

Lemma mask_block_comments_enough (fuel1 fuel2 : nat) (s : string) :
  String.length s ≤ fuel1 → String.length s ≤ fuel2 →
  mask_block_comments fuel1 s = mask_block_comments fuel2 s.
Proof.
  revert fuel2 s. induction fuel1 as [|fuel1 IH]; intros fuel2 s H1 H2.
  - destruct s; [|cbn [String.length] in H1; lia]. by destruct fuel2.
  - destruct s as [|c s]; [by destruct fuel2|].
    destruct fuel2 as [|fuel2]; [cbn [String.length] in H2; lia|].
    cbn [String.length] in H1, H2. cbn [mask_block_comments].
    destruct (String.prefix "/*" (String c s)); [|f_equal; apply IH; lia].
    destruct (comment_body (Str.drop 1 s)) as [n|]; [|f_equal; apply IH; lia].
    f_equal. apply IH; rewrite drop_length; lia.
Qed.

(** *** What the passes blank and what they keep *)

Lemma prefix_cons (a : ascii) (p : string) (c : ascii) (s : string) :
  String.prefix (String a p) (String c s) = Ascii.eqb c a && String.prefix p s.
Proof.
  cbn [String.prefix]. destruct (ascii_dec a c) as [<-|Hne].
  - by rewrite Ascii.eqb_refl.
  - symmetry. apply andb_false_iff. left. apply Ascii.eqb_neq. congruence.
Qed.

Lemma prefix_empty (s : string) : String.prefix "" s = true.
Proof. by destruct s. Qed.

Lemma prefix_one_app (a c : ascii) (x y : string) :
  String.prefix (String a "") (String c x +:+ y)
  = String.prefix (String a "") (String c x).
Proof.
  change (String c x +:+ y) with (String c (x +:+ y)).
  by rewrite !prefix_cons, !prefix_empty.
Qed.

Lemma drop_app_length (a b : string) :
  Str.drop (String.length a) (a +:+ b) = b.
Proof.
  induction a as [|c a IH]; [by destruct b|].
  change (String c a +:+ b) with (String c (a +:+ b)).
  by cbn [String.length Str.drop].
Qed.

(** Text without a quote goes through the first pass unchanged. *)
Lemma mask_literals_skip (pre s : string) (fuel : nat) :
  Str.forallb (fun c => negb (is_quote c)) pre = true →
  mask_literals (String.length pre + fuel) (pre +:+ s)
  = pre +:+ mask_literals fuel s.
Proof.
  induction pre as [|c pre IH]; [done|]. cbn [Str.forallb].
  intros [Hc Hpre]%andb_true_iff. apply negb_true_iff in Hc.
  change (String c pre +:+ s) with (String c (pre +:+ s)).
  cbn [String.length Nat.add mask_literals].
  unfold is_quote in Hc. rewrite Hc, (IH Hpre). done.
Qed.

(** The match of a literal ends at the quote after its inside. *)
Lemma literal_body_units (q : ascii) (k : nat) (body post : string) :
  String.length body ≤ k →
  literal_units q body = true →
  literal_body q (body +:+ String q post) = Some (S (String.length body)).
Proof.
  revert body. induction k as [|k IH]; intros body Hk.
  - destruct body; [|cbn [String.length] in Hk; lia]. intros _.
    change ("" +:+ String q post) with (String q post).
    cbn [literal_body]. by rewrite Ascii.eqb_refl.
  - destruct body as [|c body].
    { intros _. change ("" +:+ String q post) with (String q post).
      cbn [literal_body]. by rewrite Ascii.eqb_refl. }
    change (String c body +:+ String q post)
      with (String c (body +:+ String q post)).
    cbn [literal_units literal_body String.length] in *.
    destruct (Ascii.eqb c q); [done|].
    destruct (Char.has_code 92 c).
    + destruct body as [|d body]; [done|].
      change (String d body +:+ String q post)
        with (String d (body +:+ String q post)).
      cbn [String.length] in *. intros Hunits.
      rewrite (IH body) by (done || lia). done.
    + intros Hunits. rewrite (IH body) by (done || lia). done.
Qed.

(** Text without the start of a block comment goes through the second
    pass unchanged. *)
Lemma mask_block_comments_skip (pre s : string) (fuel : nat) :
  Str.contains "/*" pre = false → String.prefix "*" s = false →
  mask_block_comments (String.length pre + fuel) (pre +:+ s)
  = pre +:+ mask_block_comments fuel s.
Proof.
  intros Hpre Hs. induction pre as [|c pre IH]; [done|].
  rewrite contains_cons in Hpre.
  apply orb_false_iff in Hpre as [Hhead Hpre].
  change (String c pre +:+ s) with (String c (pre +:+ s)).
  cbn [String.length Nat.add mask_block_comments].
  assert (String.prefix "/*" (String c (pre +:+ s)) = false) as ->.
  { rewrite prefix_cons in Hhead |- *.
    destruct pre as [|d pre].
    - change ("" +:+ s) with s. by rewrite Hs, andb_false_r.
    - by rewrite prefix_one_app. }
  by rewrite (IH Hpre).
Qed.

(** The match of a block comment ends at the first [*/]. *)
Lemma comment_body_close (body post : string) :
  Str.contains "*/" body = false →
  comment_body (body +:+ "*/" +:+ post) = Some (String.length body + 2).
Proof.
  induction body as [|c body IH].
  { intros _. change ("" +:+ "*/" +:+ post) with (String "*" (String "/" post)).
    cbn [comment_body]. by rewrite !prefix_cons, prefix_empty. }
  rewrite contains_cons. intros [Hhead Hbody]%orb_false_iff.
  change (String c body +:+ "*/" +:+ post)
    with (String c (body +:+ "*/" +:+ post)).
  cbn [comment_body String.length].
  assert (String.prefix "*/" (String c (body +:+ "*/" +:+ post)) = false) as ->.
  { rewrite prefix_cons in Hhead |- *.
    destruct body as [|d body].
    - change ("" +:+ "*/" +:+ post) with (String "*" (String "/" post)).
      by rewrite prefix_cons, andb_false_r.
    - by rewrite prefix_one_app. }
  by rewrite (IH Hbody).
Qed.

(** Text without [//], and with no slash at its end, goes through the
    third pass unchanged up to a [//] that follows it. *)
Lemma drop_line_comments_skip (pre rest : string) :
  Str.contains "//" (pre +:+ "/") = false →
  drop_line_comments false (pre +:+ String "/" (String "/" rest))
  = pre +:+ drop_line_comments true (String "/" rest).
Proof.
  induction pre as [|c pre IH].
  { intros _.
    change ("" +:+ String "/" (String "/" rest))
      with (String "/" (String "/" rest)).
    cbn [drop_line_comments]. by rewrite !prefix_cons, prefix_empty. }
  change (String c pre +:+ "/") with (String c (pre +:+ "/")).
  rewrite contains_cons. intros [Hhead Hpre]%orb_false_iff.
  change (String c pre +:+ String "/" (String "/" rest))
    with (String c (pre +:+ String "/" (String "/" rest))).
  cbn [drop_line_comments].
  assert (String.prefix "//"
            (String c (pre +:+ String "/" (String "/" rest))) = false) as ->.
  { rewrite prefix_cons in Hhead |- *.
    destruct pre as [|d pre]; [done|].
    by rewrite prefix_one_app in Hhead |- *. }
  by rewrite (IH Hpre).
Qed.

(** A line comment ends before the newline. *)
Lemma drop_line_comments_inside (body post : string) :
  Str.forallb (fun c => negb (Char.has_code 10 c)) body = true →
  drop_line_comments true (body +:+ String "010" post)
  = String "010" (drop_line_comments false post).
Proof.
  induction body as [|c body IH]; [done|]. cbn [Str.forallb].
  intros [Hc Hbody]%andb_true_iff. apply negb_true_iff in Hc.
  change (String c body +:+ String "010" post)
    with (String c (body +:+ String "010" post)).
  cbn [drop_line_comments]. by rewrite Hc, (IH Hbody).
Qed.

Lemma drop_app_plus (a b : string) (n : nat) :
  Str.drop (String.length a + n) (a +:+ b) = Str.drop n b.
Proof.
  induction a as [|c a IH]; [done|].
  change (String c a +:+ b) with (String c (a +:+ b)).
  by cbn [String.length Nat.add Str.drop].
Qed.

(** A literal that starts outside a literal is blanked up to its closing
    quote, and the pass goes on after it. *)
Lemma mask_literals_literal (pre body post : string) (q : ascii) :
  Str.forallb (fun c => negb (is_quote c)) pre = true →
  is_quote q = true → literal_units q body = true →
  mask_literals
    (String.length (pre +:+ String q (body +:+ String q post)))
    (pre +:+ String q (body +:+ String q post))
  = pre +:+ spaces (String.length body + 2)
        +:+ mask_literals (String.length post) post.
Proof.
  intros Hpre Hq Hbody.
  rewrite string_length_app. cbn [String.length].
  rewrite string_length_app. cbn [String.length].
  rewrite (mask_literals_skip _ _ _ Hpre). f_equal.
  cbn [mask_literals]. unfold is_quote in Hq. rewrite Hq.
  rewrite (literal_body_units q _ body post (le_n _) Hbody).
  replace (S (String.length body)) with (String.length body + 1) at 2 by lia.
  rewrite drop_app_plus. cbn [Str.drop].
  replace (String.length body + 2) with (S (S (String.length body))) by lia.
  f_equal. apply mask_literals_enough; lia.
Qed.

Lemma mask_block_comments_step (fuel : nat) (body post : string) :
  Str.contains "*/" body = false →
  mask_block_comments (S fuel) (String "/" (String "*" (body +:+ "*/" +:+ post)))
  = spaces (String.length body + 4) +:+ mask_block_comments fuel post.
Proof.
  intros Hbody. cbn [mask_block_comments].
  rewrite !prefix_cons, prefix_empty. cbn [andb Ascii.eqb Bool.eqb].
  cbn [Str.drop]. rewrite (comment_body_close _ _ Hbody).
  replace (S (String.length body + 2)) with (String.length body + 3) by lia.
  change (String "*" (body +:+ "*/" +:+ post))
    with (String "*" body +:+ "*/" +:+ post).
  replace (String.length body + 3)
    with (String.length (String "*" body) + 2) by (cbn [String.length]; lia).
  rewrite drop_app_plus.
  change (Str.drop 2 ("*/" +:+ post)) with post.
  by replace (2 + (String.length body + 2)) with (String.length body + 4) by lia.
Qed.

(** A block comment that starts outside a comment is blanked up to its
    end, and the pass goes on after it. *)
Lemma mask_block_comments_comment (pre body post : string) :
  Str.contains "/*" pre = false → Str.contains "*/" body = false →
  mask_block_comments
    (String.length (pre +:+ "/*" +:+ body +:+ "*/" +:+ post))
    (pre +:+ "/*" +:+ body +:+ "*/" +:+ post)
  = pre +:+ spaces (String.length body + 4)
        +:+ mask_block_comments (String.length post) post.
Proof.
  intros Hpre Hbody.
  change ("/*" +:+ body +:+ "*/" +:+ post)
    with (String "/" (String "*" (body +:+ "*/" +:+ post))).
  rewrite string_length_app.
  change (String.length (String "/" (String "*" (body +:+ "*/" +:+ post))))
    with (S (S (String.length (body +:+ "*/" +:+ post)))).
  remember (S (String.length (body +:+ "*/" +:+ post))) as fuel eqn:Hfuel.
  rewrite (mask_block_comments_skip _ _ _ Hpre) by by rewrite prefix_cons.
  f_equal. rewrite (mask_block_comments_step _ _ _ Hbody). f_equal.
  apply mask_block_comments_enough; [|lia].
  rewrite Hfuel, !string_length_app. lia.
Qed.

(** X27: what the three passes of [strip_comments_and_strings] blank and
    what they keep. A literal that follows text without a quote is
    replaced by spaces from its opening quote to its closing one,
    escaped quotes inside included, and the text before it is kept; a
    block comment that follows text without [/*] is replaced by spaces
    up to its first [*/], and the text before it is kept; a line comment
    that follows text without [//] is removed up to the newline, which is
    kept with the text before it; and a text without a quote or a slash
    is returned as it is. *)
Theorem masking_blanks_literals_and_comments (pre body post : string)
  (q : ascii) :
  (Str.forallb (fun c => negb (is_quote c)) pre = true →
   is_quote q = true → literal_units q body = true →
   mask_literals
     (String.length (pre +:+ String q (body +:+ String q post)))
     (pre +:+ String q (body +:+ String q post))
   = pre +:+ spaces (String.length body + 2)
         +:+ mask_literals (String.length post) post)
  ∧ (Str.contains "/*" pre = false → Str.contains "*/" body = false →
     mask_block_comments
       (String.length (pre +:+ "/*" +:+ body +:+ "*/" +:+ post))
       (pre +:+ "/*" +:+ body +:+ "*/" +:+ post)
     = pre +:+ spaces (String.length body + 4)
           +:+ mask_block_comments (String.length post) post)
  ∧ (Str.contains "//" (pre +:+ "/") = false →
     Str.forallb (fun c => negb (Char.has_code 10 c)) body = true →
     drop_line_comments false (pre +:+ "//" +:+ body +:+ String "010" post)
     = pre +:+ String "010" (drop_line_comments false post))
  ∧ (Str.forallb is_plain pre = true → strip_comments_and_strings pre = pre).
Proof.
  split_and!.
  - apply mask_literals_literal.
  - apply mask_block_comments_comment.
  - intros Hpre Hbody.
    change ("//" +:+ body +:+ String "010" post)
      with (String "/" (String "/" (body +:+ String "010" post))).
    rewrite (drop_line_comments_skip _ _ Hpre). f_equal.
    cbn [drop_line_comments].
    change (Char.has_code 10 "/") with false. cbv beta iota.
    by apply drop_line_comments_inside.
  - apply strip_plain_text.
Qed.

Lemma masking_blanks_literals_and_comments_witness :
  mask_literals (String.length "c='\'';x") "c='\'';x" = "c=    ;x"
  ∧ mask_block_comments (String.length "a/*b*c*/d") "a/*b*c*/d" = "a       d"
  ∧ drop_line_comments false ("a;" +:+ "//" +:+ "b" +:+ String "010" "c")
    = "a;" +:+ String "010" "c".
Proof.
  destruct (masking_blanks_literals_and_comments "c=" "\'" ";x" "'")
    as (Hlit & _).
  destruct (masking_blanks_literals_and_comments "a" "b*c" "d" "'")
    as (_ & Hblk & _).
  destruct (masking_blanks_literals_and_comments "a;" "b" "c" "'")
    as (_ & _ & Hline & _).
  split_and!.
  - exact (Hlit eq_refl eq_refl eq_refl).
  - exact (Hblk eq_refl eq_refl).
  - exact (Hline eq_refl eq_refl).
Defined.

(** ** The matching parenthesis *)

Lemma take_length_le (n : nat) (s : string) :
  String.length (Str.take n s) ≤ n.
Proof.
  revert s. induction n as [|n IH]; intros s; [by destruct s|].
  destruct s as [|c s]; cbn [Str.take String.length]; [lia|].
  specialize (IH s). lia.
Qed.

Lemma take_cons (n : nat) (c : ascii) (s : string) :
  Str.take (S n) (String c s) = String c (Str.take n s).
Proof. done. Qed.

Lemma take_zero (s : string) : Str.take 0 s = "".
Proof. by destruct s. Qed.

Lemma paren_depth_cons (ch : ascii) (s : string) :
  paren_depth (String ch s)
  = ((if Ascii.eqb ch "(" then 1 else if Ascii.eqb ch ")" then -1 else 0)
     + paren_depth s)%Z.
Proof. done. Qed.

(** The scan from a depth [depth] that is 1 or more: it stops at a
    closing parenthesis that brings the depth to 0, and the depth is 1 or
    more before it. *)
Lemma find_paren_go_spec (rest : string) (i : nat) (depth : Z) (k : nat) :
  (1 <= depth)%Z →
  find_paren_go rest i depth = Some k →
  ∃ n, k = i + n
       ∧ Str.get n rest = Some ")"%char
       ∧ (depth + paren_depth (Str.take (S n) rest) = 0)%Z
       ∧ ∀ m, m ≤ n → (1 <= depth + paren_depth (Str.take m rest))%Z.
Proof.
  revert i depth. induction rest as [|ch rest IH]; intros i depth Hd; [done|].
  cbn [find_paren_go].
  destruct (Ascii.eqb ch "(") eqn:Hopen.
  - intros Hgo. destruct (IH (S i) (depth + 1)%Z ltac:(lia) Hgo)
      as (n & -> & Hget & Hzero & Hpos).
    exists (S n). split_and!; [lia|done|..].
    + rewrite ?take_cons, ?take_zero, ?paren_depth_cons; cbn [paren_depth]. rewrite Hopen. lia.
    + intros [|m] Hm; rewrite ?take_zero, ?take_cons, ?paren_depth_cons; [cbn [paren_depth]; lia|].
      rewrite Hopen. specialize (Hpos m ltac:(lia)). lia.
  - destruct (Ascii.eqb ch ")") eqn:Hclose.
    + destruct (depth - 1 =? 0)%Z eqn:Hz.
      * intros [= <-]. exists 0. apply Z.eqb_eq in Hz.
        split_and!; [lia| |..].
        -- unfold Str.get. cbn [Str.drop].
           apply Ascii.eqb_eq in Hclose. by rewrite Hclose.
        -- rewrite ?take_cons, ?take_zero, ?paren_depth_cons; cbn [paren_depth]. rewrite Hopen, Hclose. lia.
        -- intros m Hm. assert (m = 0) as -> by lia.
           rewrite ?take_cons, ?take_zero, ?paren_depth_cons; cbn [paren_depth]. lia.
      * apply Z.eqb_neq in Hz. intros Hgo.
        destruct (IH (S i) (depth - 1)%Z ltac:(lia) Hgo)
          as (n & -> & Hget & Hzero & Hpos).
        exists (S n). split_and!; [lia|done|..].
        -- rewrite ?take_cons, ?take_zero, ?paren_depth_cons; cbn [paren_depth]. rewrite Hopen, Hclose. lia.
        -- intros [|m] Hm; rewrite ?take_zero, ?take_cons, ?paren_depth_cons; [cbn [paren_depth]; lia|].
           rewrite Hopen, Hclose. specialize (Hpos m ltac:(lia)). lia.
    + intros Hgo. destruct (IH (S i) depth Hd Hgo)
        as (n & -> & Hget & Hzero & Hpos).
      exists (S n). split_and!; [lia|done|..].
      * rewrite ?take_cons, ?take_zero, ?paren_depth_cons; cbn [paren_depth]. rewrite Hopen, Hclose. lia.
      * intros [|m] Hm; rewrite ?take_zero, ?take_cons, ?paren_depth_cons; [cbn [paren_depth]; lia|].
        rewrite Hopen, Hclose. specialize (Hpos m ltac:(lia)). lia.
Qed.

Lemma get_drop (i n : nat) (s : string) :
  Str.get n (Str.drop i s) = Str.get (i + n) s.
Proof.
  revert s. induction i as [|i IH]; intros s; [done|].
  destruct s as [|c s]; cbn [Str.drop Nat.add].
  - unfold Str.get. by destruct n.
  - rewrite IH. unfold Str.get. by cbn [Str.drop].
Qed.

(** X29: started at an opening parenthesis, [find_matching_paren] returns
    the closing parenthesis that matches it: the text from the start to
    the result has as many opening as closing parentheses, and every
    shorter piece from the start has more opening ones. *)
Theorem find_matching_paren_matches (s : string) (j k : nat) :
  Str.get j s = Some "("%char →
  find_matching_paren s j = Some k →
  j < k
  ∧ Str.get k s = Some ")"%char
  ∧ paren_depth (Str.substr j (k + 1) s) = 0%Z
  ∧ ∀ i, j < i ≤ k → (1 <= paren_depth (Str.substr j i s))%Z.
Proof.
  unfold find_matching_paren, Str.substr, Str.get.
  destruct (Str.drop j s) as [|ch rest] eqn:Hdrop; [done|].
  intros [= ->]. cbn [find_paren_go].
  rewrite (Ascii.eqb_refl "("). intros Hgo.
  destruct (find_paren_go_spec rest (S j) (0 + 1) k ltac:(lia) Hgo)
    as (n & -> & Hget & Hzero & Hpos).
  assert (Str.get (j + S n) s = Some ")"%char) as Hk.
  { rewrite <- get_drop, Hdrop. unfold Str.get in *. by cbn [Str.drop]. }
  split_and!.
  - lia.
  - replace (S j + n) with (j + S n) by lia. exact Hk.
  - replace (S j + n + 1 - j) with (S (S n)) by lia.
    rewrite ?take_cons, ?take_zero, ?paren_depth_cons; cbn [paren_depth]. rewrite (Ascii.eqb_refl "("). lia.
  - intros i Hi. replace (i - j) with (S (i - j - 1)) by lia.
    rewrite ?take_cons, ?take_zero, ?paren_depth_cons; cbn [paren_depth]. rewrite (Ascii.eqb_refl "(").
    specialize (Hpos (i - j - 1) ltac:(lia)). lia.
Qed.

Lemma find_matching_paren_matches_witness :
  Str.get 1 "f(a(b)c)d" = Some "("%char
  ∧ find_matching_paren "f(a(b)c)d" 1 = Some 7
  ∧ paren_depth (Str.substr 1 (7 + 1) "f(a(b)c)d") = 0%Z.
Proof.
  assert (Str.get 1 "f(a(b)c)d" = Some "("%char) as Hopen by reflexivity.
  assert (find_matching_paren "f(a(b)c)d" 1 = Some 7) as Hfind by reflexivity.
  split; [exact Hopen|]. split; [exact Hfind|].
  exact (proj1 (proj2 (proj2
    (find_matching_paren_matches "f(a(b)c)d" 1 7 Hopen Hfind)))).
Defined.

(** ** File names *)

Lemma split_go_nonempty (sep : ascii) (cur s : string) :
  Str.split_go sep cur s ≠ [].
Proof.
  revert cur. induction s as [|c s IH]; intros cur; cbn [Str.split_go]; [done|].
  destruct (Ascii.eqb c sep); [done|apply IH].
Qed.

Lemma last_cons_nonempty {A} (x : A) (l : list A) :
  l ≠ [] → last (x :: l) = last l.
Proof. by destruct l. Qed.

Lemma rev_app_app (s1 s2 s : string) :
  String.rev_app s1 s2 +:+ s = String.rev_app s1 (s2 +:+ s).
Proof.
  revert s2. induction s1 as [|c s1 IH]; intros s2; [done|].
  cbn [String.rev_app]. by rewrite IH.
Qed.

Lemma split_go_no_sep (sep : ascii) (cur s : string) :
  Str.forallb (fun c => negb (Ascii.eqb c sep)) s = true →
  Str.split_go sep cur s = [String.rev cur +:+ s].
Proof.
  revert cur. induction s as [|c s IH]; intros cur; cbn [Str.split_go Str.forallb].
  - intros _. f_equal. unfold String.rev. by rewrite rev_app_app.
  - intros [Hc Hs]%andb_true_iff. apply negb_true_iff in Hc. rewrite Hc.
    rewrite (IH _ Hs). f_equal. unfold String.rev. cbn [String.rev_app].
    by rewrite !rev_app_app.
Qed.

Lemma split_go_last (sep : ascii) (cur a s : string) :
  last (Str.split_go sep cur (a +:+ String sep s))
  = last (Str.split_go sep "" s).
Proof.
  revert cur. induction a as [|c a IH]; intros cur.
  - change ("" +:+ String sep s) with (String sep s). cbn [Str.split_go].
    rewrite Ascii.eqb_refl. apply last_cons_nonempty, split_go_nonempty.
  - change (String c a +:+ String sep s) with (String c (a +:+ String sep s)).
    cbn [Str.split_go]. destruct (Ascii.eqb c sep); [|apply IH].
    rewrite last_cons_nonempty by apply split_go_nonempty. apply IH.
Qed.

(** The base name of a file in a directory. *)
Lemma basename_in_dir (dir name : string) :
  Str.forallb (fun c => negb (Ascii.eqb c "/")) name = true →
  basename (dir +:+ String "/" name) = name.
Proof.
  intros Hname. unfold basename, Str.split.
  by rewrite split_go_last, (split_go_no_sep _ _ _ Hname).
Qed.

Lemma span_app_all (p : ascii → bool) (a : string) (c : ascii) (b : string) :
  Str.forallb p a = true → p c = false →
  Str.span p (a +:+ String c b) = (a, String c b).
Proof.
  intros Ha Hc. induction a as [|x a IH].
  - change ("" +:+ String c b) with (String c b). cbn [Str.span]. by rewrite Hc.
  - change (String x a +:+ String c b) with (String x (a +:+ String c b)).
    cbn [Str.span Str.forallb] in *.
    apply andb_true_iff in Ha as [-> Ha]. by rewrite (IH Ha).
Qed.

Lemma tag_char_not_slash (c : ascii) :
  is_tag_char c = true → negb (Ascii.eqb c "/") = true.
Proof. destruct c as [[] [] [] [] [] [] [] []]; vm_compute; congruence. Qed.

Lemma digit_tag_char (c : ascii) :
  Char.is_digit c = true → is_tag_char c = true.
Proof.
  intros Hc. unfold is_tag_char, Char.is_ident_char.
  by rewrite Hc, !orb_true_r.
Qed.

Lemma digit_not_sep (c : ascii) :
  Char.is_digit c = true →
  Ascii.eqb c " " || Ascii.eqb c "_" || Ascii.eqb c "-" = false.
Proof. destruct c as [[] [] [] [] [] [] [] []]; vm_compute; congruence. Qed.

Lemma sep_not_digit (c : ascii) :
  Ascii.eqb c " " || Ascii.eqb c "_" || Ascii.eqb c "-" = true →
  Char.is_digit c = false ∧ negb (Ascii.eqb c "/") = true.
Proof. destruct c as [[] [] [] [] [] [] [] []]; vm_compute; by split. Qed.

(** X30: a file named [q], digits, one of the separators space,
    underscore and hyphen, a tag of letters, digits, underscores and
    hyphens, and [.c], in any directory, is parsed into the number the
    digits write and the tag; [c_similarity_fine.py] parses it to the
    same when the separator is the underscore, and rejects it
    otherwise. *)
Theorem parse_qsigla_round_trip (dir digits tag : string) (q sep : ascii) :
  Ascii.eqb q "q" || Ascii.eqb q "Q" = true →
  digits ≠ "" → Str.forallb Char.is_digit digits = true →
  Ascii.eqb sep " " || Ascii.eqb sep "_" || Ascii.eqb sep "-" = true →
  tag ≠ "" → Str.forallb is_tag_char tag = true →
  let path :=
    dir +:+ String "/" (String q (digits +:+ String sep (tag +:+ ".c"))) in
  parse_qsigla path = Some (int digits, tag)
  ∧ Fine.parse_qsigla path
    = if Ascii.eqb sep "_" then Some (int digits, tag) else None.
Proof.
  intros Hq Hne Hdigits Hsep Htag Htagc path.
  destruct (sep_not_digit sep Hsep) as [Hsd Hss].
  assert (basename path
          = String q (digits +:+ String sep (tag +:+ ".c"))) as Hbase.
  { apply basename_in_dir. cbn [Str.forallb].
    rewrite forallb_app. cbn [Str.forallb].
    rewrite forallb_app. cbn [Str.forallb]. rewrite Hss.
    rewrite (forallb_impl _ _ _ tag_char_not_slash Htagc).
    rewrite (forallb_impl Char.is_digit _ digits
               (fun c H => tag_char_not_slash c (digit_tag_char c H)) Hdigits).
    apply orb_true_iff in Hq as [->%Ascii.eqb_eq | ->%Ascii.eqb_eq]; done. }
  assert (∀ is_sep : ascii → bool,
            match_qname is_sep (basename path)
            = if is_sep sep then Some (int digits, tag) else None) as Hmatch.
  { intros is_sep. rewrite Hbase. unfold match_qname. rewrite Hq.
    rewrite (span_app_all _ _ _ _ Hdigits Hsd).
    destruct digits as [|d digits]; [done|].
    destruct (is_sep sep); [|done].
    destruct tag as [|t tag]; [done|].
    change (String t tag +:+ ".c") with (String t tag +:+ String "." "c").
    rewrite (span_app_all is_tag_char (String t tag) "." "c" Htagc eq_refl).
    by rewrite (bool_decide_eq_true_2 (String "." "c" = ".c")). }
  split.
  - unfold parse_qsigla. by rewrite Hmatch, Hsep.
  - unfold Fine.parse_qsigla. by rewrite Hmatch.
Qed.

Lemma parse_qsigla_round_trip_witness :
  parse_qsigla "./q01-ab.c" = Some (1, "ab")
  ∧ Fine.parse_qsigla "./q01-ab.c" = None.
Proof.
  exact (parse_qsigla_round_trip "." "01" "ab" "q" "-" eq_refl
           ltac:(discriminate) eq_refl eq_refl ltac:(discriminate) eq_refl).
Defined.
